(** * acapy-wallet-upgrade: the item codec and the upgrade strategies

    A shallow embedding of [acapy_wallet_upgrade/strategies.py] and the
    properties its specification states about it.

    Conventions of the embedding:
    - Python [bytes] are lists of [byte]; Python [str] are [string]s
      (code points below 256);
    - a Python exception is a value of [pyexc]; fallible pure code lives in
      the [exc] monad, code drawing from [os.urandom] in [Rand], code talking
      to the database, the wallet or the Askar store in [M];
    - the primitives of PyNaCl, hmac/hashlib, base64, msgpack, cbor2, json and
      base58 are fields of the class [Library]; the facts about them that
      proofs rely on are the fields of [LibraryContract];
    - the collaborators that are not part of this module (database connection,
      legacy wallet, Askar store) are the fields of the record [Env]. *)

From Stdlib Require Import ZArith NArith Ascii String List Lia.
From Stdlib.Strings Require Import Byte.
From Stdlib Require Import Floats.SpecFloat.
From stdpp Require Import base option list gmap strings pretty sorting.

Local Open Scope string_scope.
Local Open Scope list_scope.
Local Open Scope nat_scope.
Local Set Warnings "-register-all".

(** ** Python values *)

Definition bytes := list byte.

#[global] Instance byte_eq_decision : EqDecision byte := Byte.byte_eq_dec.

(** The exceptions that the module and the libraries it calls can raise. *)
Inductive pyexc :=
| TypeError
| ValueError
| IndexError
| KeyError (key : string)
| OverflowError
| AttributeError
| UnicodeError
| JSONDecodeError
| CryptoError                  (* nacl.exceptions.CryptoError *)
| UpgradeError (msg : string)  (* acapy_wallet_upgrade.error.UpgradeError *)
| PyException (msg : string)   (* a plain [Exception(msg)] *)
| ExternalError (msg : string) (* raised by a collaborator *).

Inductive exc (A : Type) :=
| Ok (a : A)
| Raise (e : pyexc).
Arguments Ok {A} a.
Arguments Raise {A} e.

#[global] Instance exc_ret : MRet exc := @Ok.
#[global] Instance exc_bind : MBind exc := λ A B f m,
  match m with
  | Ok a => f a
  | Raise e => Raise e
  end.
#[global] Instance exc_fmap : FMap exc := λ A B f m,
  match m with
  | Ok a => Ok (f a)
  | Raise e => Raise e
  end.

Fixpoint exc_mapM {A B} (f : A → exc B) (l : list A) : exc (list B) :=
  match l with
  | [] => Ok []
  | x :: l' => y ← f x; ys ← exc_mapM f l'; Ok (y :: ys)
  end.

(** JSON documents as [json.loads] returns them; an object keeps the
    insertion order of its keys, as a Python [dict] does. *)
Inductive json :=
| JNull
| JBool (b : bool)
| JInt (z : Z)
| JFloat (f : spec_float)
| JStr (s : string)
| JArr (l : list json)
| JObj (o : list (string * json)).

(** [d[k]] on a dict given by its items. *)
Fixpoint dict_getitem {V} (o : list (string * V)) (k : string) : exc V :=
  match o with
  | [] => Raise (KeyError k)
  | (k', v) :: o' => if decide (k' = k) then Ok v else dict_getitem o' k
  end.

(** [x[k]] for a JSON value [x] and a string [k]. *)
Definition json_getitem (x : json) (k : string) : exc json :=
  match x with
  | JObj o => dict_getitem o k
  | _ => Raise TypeError
  end.

(** Truth value of a JSON value ([if x], [x or y]). *)
Definition json_truthy (x : json) : bool :=
  match x with
  | JNull => false
  | JBool b => b
  | JInt z => negb (z =? 0)%Z
  | JFloat (S754_zero _) => false
  | JFloat _ => true
  | JStr s => negb (String.eqb s "")
  | JArr l => match l with [] => false | _ => true end
  | JObj o => match o with [] => false | _ => true end
  end.

(** The byte with value [n mod 256]. *)
Definition byte_of_N (n : N) : byte := byte_of_ascii (ascii_of_N (n mod 256)).

(** [bytes(x)] for a JSON value [x]. *)
Definition json_int_byte (x : json) : exc byte :=
  match x with
  | JInt z => if decide (0 ≤ z < 256)%Z then Ok (byte_of_N (Z.to_N z))
              else Raise ValueError
  | JBool b => Ok (if b then x01 else x00)
  | _ => Raise TypeError
  end.

Definition py_bytes (x : json) : exc bytes :=
  match x with
  | JInt z => if decide (0 ≤ z)%Z then Ok (replicate (Z.to_nat z) x00)
              else Raise ValueError
  | JBool b => Ok (if b then [x00] else [])
  | JArr l => exc_mapM json_int_byte l
  | JObj [] => Ok []
  | _ => Raise TypeError
  end.

(** ** Strings: [str.split], [bytes.fromhex], [bytes.hex], [str.replace] *)

(** [s.split(sep)] for a one-character separator. *)
Fixpoint split (sep : ascii) (s : string) : list string :=
  match s with
  | EmptyString => [EmptyString]
  | String c s' =>
      if decide (c = sep) then EmptyString :: split sep s'
      else match split sep s' with
           | hd :: tl => String c hd :: tl
           | [] => [String c EmptyString]
           end
  end.

Definition hex_digit (c : ascii) : option N :=
  let n := N_of_ascii c in
  if decide (48 ≤ n ≤ 57)%N then Some (n - 48)%N       (* 0-9 *)
  else if decide (97 ≤ n ≤ 102)%N then Some (n - 87)%N  (* a-f *)
  else if decide (65 ≤ n ≤ 70)%N then Some (n - 55)%N   (* A-F *)
  else None.

(** ASCII whitespace, which [bytes.fromhex] skips between two bytes. *)
Definition is_space (c : ascii) : bool :=
  let n := N_of_ascii c in
  bool_decide (n = 32 ∨ 9 ≤ n ≤ 13)%N.

(** [bytes.fromhex(s)]. *)
Fixpoint fromhex (s : string) : exc bytes :=
  match s with
  | EmptyString => Ok []
  | String c s' =>
      if is_space c then fromhex s'
      else match hex_digit c, s' with
           | Some top, String d s'' =>
               match hex_digit d with
               | Some bot =>
                   rest ← fromhex s''; Ok (byte_of_N (top * 16 + bot) :: rest)
               | None => Raise ValueError
               end
           | _, _ => Raise ValueError
           end
  end.

Definition hex_char (n : N) : ascii :=
  ascii_of_N (if decide (n < 10)%N then n + 48 else n + 87).

(** [b.hex()]. *)
Fixpoint hex (b : bytes) : string :=
  match b with
  | [] => ""
  | x :: b' =>
      String (hex_char (Byte.to_N x / 16)) (String (hex_char (Byte.to_N x mod 16)) (hex b'))
  end.

(** [s.replace(" ", "")]. *)
Fixpoint strip_spaces (s : string) : string :=
  match s with
  | EmptyString => EmptyString
  | String c s' => if decide (c = " "%char) then strip_spaces s'
                   else String c (strip_spaces s')
  end.

(** [s.encode("ascii")]. *)
Fixpoint encode_ascii (s : string) : exc bytes :=
  match s with
  | EmptyString => Ok []
  | String c s' =>
      if decide (N_of_ascii c < 128)%N
      then rest ← encode_ascii s'; Ok (byte_of_ascii c :: rest)
      else Raise UnicodeError
  end.

(** [n.to_bytes(4, "big")] for a length [n]. *)
Definition to_bytes_4_big (n : nat) : exc bytes :=
  let v := N.of_nat n in
  if decide (v < 2 ^ 32)%N
  then Ok [byte_of_N (v / 2 ^ 24); byte_of_N (v / 2 ^ 16);
           byte_of_N (v / 2 ^ 8); byte_of_N v]
  else Raise OverflowError.

(** ** Constants *)

Definition CHACHAPOLY_KEY_LEN : nat := 32.
Definition CHACHAPOLY_NONCE_LEN : nat := 12.
Definition CHACHAPOLY_TAG_LEN : nat := 16.
Definition ENCRYPTED_KEY_LEN : nat :=
  CHACHAPOLY_NONCE_LEN + CHACHAPOLY_KEY_LEN + CHACHAPOLY_TAG_LEN.

(** ** Records of the data model *)

(** The dict [profile_key] built by [init_profile]. *)
Record profile_key := ProfileKey {
  ver : string;
  ick : bytes;
  ink : bytes;
  ihk : bytes;
  tnk : bytes;
  tvk : bytes;
  thk : bytes;
}.

(** A row as [fetch_pending_items] returns it:
    [(id, type, name, value, key, tags_enc, tags_plain)]. *)
Record row := Row {
  row_id : Z;
  row_type : bytes;
  row_name : bytes;
  row_value : option bytes;
  row_key : bytes;
  tags_enc : option string;
  tags_plain : option string;
}.

(** A decoded tag value: [bytes] for an encrypted tag, a [str] for a
    plaintext one. *)
Inductive tag_value :=
| TagBytes (b : bytes)
| TagStr (s : string).

(** A tag [(plain, name, value)]; [plain] is the 0/1 flag of the source. *)
Definition tag : Type := bool * bytes * tag_value.

(** The dict that [decrypt_item] returns. *)
Record item := Item {
  item_id : Z;
  item_type : bytes;
  item_name : bytes;
  item_value : option bytes;
  item_tags : list tag;
}.

(** The dict that [update_item] returns. *)
Record enc_item := EncItem {
  upd_id : Z;
  upd_category : bytes;
  upd_name : bytes;
  upd_value : bytes;
  upd_tags : list tag;
}.

(** ** The libraries *)

Class Library := {
  (** [nacl.bindings.crypto_aead_chacha20poly1305_ietf_encrypt(message, None,
      nonce, key)]: the ciphertext followed by the authentication tag. *)
  aead_encrypt : bytes → bytes → bytes → exc bytes;
  (** [nacl.bindings.crypto_aead_chacha20poly1305_ietf_decrypt(ciphertext,
      None, nonce, key)]. *)
  aead_decrypt : bytes → bytes → bytes → exc bytes;
  (** [hmac.HMAC(key, msg, digestmod=hashlib.sha256).digest()]. *)
  hmac_sha256 : bytes → bytes → bytes;
  (** [base64.b64decode]. *)
  b64decode : bytes → exc bytes;
  (** [nacl.pwhash.argon2i.kdf(size, password, salt, OPSLIMIT_MODERATE,
      MEMLIMIT_MODERATE)]. *)
  argon2i_kdf_moderate : nat → bytes → bytes → exc bytes;
  (** [msgpack.unpackb], on the packed list of keys. *)
  msgpack_unpackb : bytes → exc (list bytes);
  (** [cbor2.dumps], on a profile key. *)
  cbor2_dumps : profile_key → bytes;
  (** [json.loads] on a [str] and on [bytes]. *)
  json_loads : string → exc json;
  json_loads_bytes : bytes → exc json;
  (** [base58.b58decode], on the JSON value it is given. *)
  b58decode : json → exc bytes;
  (** [b.decode("utf-8")]. *)
  decode_utf8 : bytes → exc string;
}.

(** What the proofs assume of the primitives: sealing with a 12-byte nonce
    and a 32-byte key succeeds, appends a 16-byte tag and is undone by
    opening with the same nonce and key; a SHA-256 HMAC is 32 bytes long. *)
Class LibraryContract (L : Library) : Prop := {
  aead_seal_open : ∀ message nonce key,
    length nonce = CHACHAPOLY_NONCE_LEN →
    length key = CHACHAPOLY_KEY_LEN →
    ∃ ciphertext,
      aead_encrypt message nonce key = Ok ciphertext
      ∧ length ciphertext = length message + CHACHAPOLY_TAG_LEN
      ∧ aead_decrypt ciphertext nonce key = Ok message;
  hmac_digest_size : ∀ key msg, length (hmac_sha256 key msg) = 32;
}.

(** ** Randomness *)

(** The bytes that [os.urandom] hands out, in the order it hands them out. *)
Record entropy := Entropy {
  tape : nat → byte;
  cursor : nat;
}.

Definition Rand (A : Type) : Type := entropy → exc A * entropy.

#[global] Instance Rand_ret : MRet Rand := λ A a g, (Ok a, g).
#[global] Instance Rand_bind : MBind Rand := λ A B f m g,
  match m g with
  | (Ok a, g') => f a g'
  | (Raise e, g') => (Raise e, g')
  end.

#[global] Instance Rand_fmap : FMap Rand := λ A B f m g,
  match m g with
  | (Ok a, g') => (Ok (f a), g')
  | (Raise e, g') => (Raise e, g')
  end.

Definition rand_lift {A} (x : exc A) : Rand A := λ g, (x, g).

(** [os.urandom(n)]. *)
Definition os_urandom (n : nat) : Rand bytes := λ g,
  (Ok (map (tape g) (seq (cursor g) n)),
   {| tape := tape g; cursor := cursor g + n |}).

Fixpoint rand_mapM {A B} (f : A → Rand B) (l : list A) : Rand (list B) :=
  match l with
  | [] => mret []
  | x :: l' => y ← f x; ys ← rand_mapM f l'; mret (y :: ys)
  end.

(** ** The item codec: [Strategy.encrypt_merged] ... [Strategy.update_item] *)

Section codec.
Context `{L : Library}.

(** An [hmac.HMAC] object: its key and the data fed to it so far. *)
Record HMAC := Hmac { hmac_key_of : bytes; hmac_data : bytes }.

Definition HMAC_new (key : bytes) (msg : option bytes) : HMAC :=
  {| hmac_key_of := key; hmac_data := default [] msg |}.
Definition HMAC_update (h : HMAC) (data : bytes) : HMAC :=
  {| hmac_key_of := hmac_key_of h; hmac_data := hmac_data h ++ data |}.
Definition HMAC_digest (h : HMAC) : bytes :=
  hmac_sha256 (hmac_key_of h) (hmac_data h).

(** Truth value of an optional [bytes]: [None] and [b""] are false. *)
Definition bytes_truthy (b : option bytes) : bool :=
  match b with
  | Some (_ :: _) => true
  | _ => false
  end.

Definition encrypt_merged (message my_key : bytes) (hmac_key : option bytes)
  : Rand bytes :=
  nonce ← (if bytes_truthy hmac_key
           then mret (take CHACHAPOLY_NONCE_LEN
                        (HMAC_digest (HMAC_new (default [] hmac_key) (Some message))))
           else os_urandom CHACHAPOLY_NONCE_LEN);
  ciphertext ← rand_lift (aead_encrypt message nonce my_key);
  mret (nonce ++ ciphertext).

(** [encrypt_merged] called with a message that is not [bytes] ([None] or a
    [str]): the nonce is computed as far as Python gets, then the call
    fails with [TypeError] ([hmac] refuses a [str], PyNaCl anything that is
    not [bytes]). *)
Definition encrypt_merged_not_bytes (hmac_key : option bytes) : Rand bytes :=
  if bytes_truthy hmac_key then rand_lift (Raise TypeError)
  else (_ ← os_urandom CHACHAPOLY_NONCE_LEN; rand_lift (Raise TypeError)).

Definition encrypt_value (category name : bytes) (value : option bytes)
    (hmac_key : bytes) : Rand bytes :=
  let hasher := HMAC_new hmac_key None in
  len_category ← rand_lift (to_bytes_4_big (length category));
  let hasher := HMAC_update hasher len_category in
  let hasher := HMAC_update hasher category in
  len_name ← rand_lift (to_bytes_4_big (length name));
  let hasher := HMAC_update hasher len_name in
  let hasher := HMAC_update hasher name in
  let value_key := HMAC_digest hasher in
  match value with
  | Some value => encrypt_merged value value_key None
  | None => encrypt_merged_not_bytes None
  end.

Definition decrypt_merged (enc_value key : bytes) (b64 : bool) : exc bytes :=
  enc_value ← (if b64 then b64decode enc_value else Ok enc_value);
  let nonce := take CHACHAPOLY_NONCE_LEN enc_value in
  let ciphertext := drop CHACHAPOLY_NONCE_LEN enc_value in
  aead_decrypt ciphertext nonce key.

(** The body of the loop of [decrypt_tags], for one [tag] of
    [tags.split(",")]. *)
Definition decrypt_tag (tag : string) (name_key : bytes)
    (value_key : option bytes) : exc (bytes * tag_value) :=
  parts ← exc_mapM fromhex (split ":" tag);
  match parts with
  | [tag_name; tag_value] =>
      name ← decrypt_merged tag_name name_key false;
      value ← (if bytes_truthy value_key
               then TagBytes <$> decrypt_merged tag_value (default [] value_key) false
               else match String.get 1 tag with
                    | Some c => Ok (TagStr (String c ""))
                    | None => Raise IndexError
                    end);
      Ok (name, value)
  | _ => Raise ValueError
  end.

Definition decrypt_tags (tags : string) (name_key : bytes)
    (value_key : option bytes) : exc (list (bytes * tag_value)) :=
  exc_mapM (λ tag, decrypt_tag tag name_key value_key) (split "," tags).

(** [keys[k]] on the dict of legacy keys. *)
Definition keys_getitem (keys : gmap string bytes) (k : string) : exc bytes :=
  match keys !! k with
  | Some v => Ok v
  | None => Raise (KeyError k)
  end.

Definition str_truthy (s : option string) : bool :=
  match s with
  | Some (String _ _) => true
  | _ => false
  end.

Definition decrypt_item (r : row) (keys : gmap string bytes) (b64 : bool)
  : exc item :=
  k_value ← keys_getitem keys "value";
  value_key ← decrypt_merged (row_key r) k_value false;
  value ← (if bytes_truthy (row_value r)
           then Some <$> decrypt_merged (default [] (row_value r)) value_key false
           else Ok None);
  tags ← (if str_truthy (tags_enc r)
          then k_tag_name ← keys_getitem keys "tag_name";
               k_tag_value ← keys_getitem keys "tag_value";
               kvs ← decrypt_tags (default "" (tags_enc r)) k_tag_name (Some k_tag_value);
               Ok (map (λ kv, (false, kv.1, kv.2)) kvs)
          else Ok []);
  tags_p ← (if str_truthy (tags_plain r)
            then k_tag_name ← keys_getitem keys "tag_name";
                 kvs ← decrypt_tags (default "" (tags_plain r)) k_tag_name None;
                 Ok (map (λ kv, (true, kv.1, kv.2)) kvs)
            else Ok []);
  let tags := tags ++ tags_p in
  k_type ← keys_getitem keys "type";
  type ← decrypt_merged (row_type r) k_type b64;
  k_name ← keys_getitem keys "name";
  name ← decrypt_merged (row_name r) k_name b64;
  Ok {| item_id := row_id r; item_type := type; item_name := name;
        item_value := value; item_tags := tags |}.

(** The body of the loop of [update_item], for one tag. *)
Definition update_tag (key : profile_key) (t : tag) : Rand tag :=
  let '(plain, k, v) := t in
  v ← (if negb plain
       then match v with
            | TagBytes v => TagBytes <$> encrypt_merged v (tvk key) (Some (thk key))
            | TagStr _ => TagBytes <$> encrypt_merged_not_bytes (Some (thk key))
            end
       else mret v);
  k ← encrypt_merged k (tnk key) (Some (thk key));
  mret (plain, k, v).

Definition update_item (it : item) (key : profile_key) : Rand enc_item :=
  tags ← rand_mapM (update_tag key) (item_tags it);
  category ← encrypt_merged (item_type it) (ick key) (Some (ihk key));
  name ← encrypt_merged (item_name it) (ink key) (Some (ihk key));
  value ← encrypt_value (item_type it) (item_name it) (item_value it) (ihk key);
  mret {| upd_id := item_id it; upd_category := category; upd_name := name;
          upd_value := value; upd_tags := tags |}.

End codec.

(** ** Credential tags: [Strategy._credential_tags] *)

(** The class [\w] of [re] on a [str]: letters, digits and the underscore,
    those of Latin-1 included. *)
Definition is_word (c : ascii) : bool :=
  let n := N_of_ascii c in
  bool_decide ((48 ≤ n ≤ 57) ∨ (65 ≤ n ≤ 90) ∨ n = 95 ∨ (97 ≤ n ≤ 122)
               ∨ n = 170 ∨ n = 178 ∨ n = 179 ∨ n = 181 ∨ n = 185 ∨ n = 186
               ∨ (188 ≤ n ≤ 190) ∨ (192 ≤ n ≤ 214) ∨ (216 ≤ n ≤ 246)
               ∨ (248 ≤ n ≤ 255))%N.

(** The class [[^:]]. *)
Definition not_colon (c : ascii) : bool := bool_decide (c ≠ ":"%char).

(** The longest prefix of [s] whose characters are in the class [p], and
    what follows it. *)
Fixpoint span (p : ascii → bool) (s : string) : string * string :=
  match s with
  | EmptyString => (EmptyString, EmptyString)
  | String c s' =>
      if p c then let '(x, r) := span p s' in (String c x, r)
      else (EmptyString, s)
  end.

(** One step of a match: a group [(C+)] for a class [C], or a literal. In the
    two patterns below every group is followed by a character outside its
    class or by the end of the string, so the group can only be the longest
    run of its class. *)
Definition re_group (p : ascii → bool) (s : string) : option (string * string) :=
  match span p s with
  | (EmptyString, _) => None
  | (g, r) => Some (g, r)
  end.

Fixpoint re_literal (lit s : string) : option string :=
  match lit, s with
  | EmptyString, _ => Some s
  | String a lit', String b s' => if decide (a = b) then re_literal lit' s' else None
  | String _ _, EmptyString => None
  end.

Definition re_end (s : string) : option unit :=
  match s with
  | EmptyString => Some tt
  | _ => None
  end.

(** [re.match(r"^(\w+):2:([^:]+):([^:]+)$", s)]: the groups 1, 2 and 3. *)
Definition match_schema_id (s : string) : option (string * string * string) :=
  '(g1, s) ← re_group is_word s;
  s ← re_literal ":2:" s;
  '(g2, s) ← re_group not_colon s;
  s ← re_literal ":" s;
  '(g3, s) ← re_group not_colon s;
  _ ← re_end s;
  Some (g1, g2, g3).

(** [re.match(r"^(\w+):3:CL:([^:]+):([^:]+)$", s)]: the groups 1, 2 and 3. *)
Definition match_cred_def_id (s : string) : option (string * string * string) :=
  '(g1, s) ← re_group is_word s;
  s ← re_literal ":3:CL:" s;
  '(g2, s) ← re_group not_colon s;
  s ← re_literal ":" s;
  '(g3, s) ← re_group not_colon s;
  _ ← re_end s;
  Some (g1, g2, g3).

(** [re.match(pattern, x)] refuses an [x] that is not a string. *)
Definition re_match {G} (m : string → option G) (x : json) : exc (option G) :=
  match x with
  | JStr s => Ok (m s)
  | _ => Raise TypeError
  end.

(** The text of a JSON value inside an f-string; only strings reach the two
    error messages below. *)
Definition format_str (x : json) : string :=
  match x with
  | JStr s => s
  | _ => ""
  end.

(** [d.get(k)] on a dict given by its items. *)
Definition dict_get {V} (o : list (string * V)) (k : string) : option V :=
  match dict_getitem o k with
  | Ok v => Some v
  | Raise _ => None
  end.

(** The body of the loop of [_credential_tags] over
    [cred_data["values"].items()]; [acc] is the dict [tags] so far. *)
Definition attr_step (acc : exc (gmap string json)) (kv : string * json)
    : exc (gmap string json) :=
  let '(k, attr_value) := kv in
  tags ← acc;
  let attr_name := strip_spaces k in
  raw ← json_getitem attr_value "raw";
  Ok (<["attr::" +:+ attr_name +:+ "::value" := raw]> tags).

Definition _credential_tags (cred_data : json) : exc (gmap string json) :=
  schema_id ← json_getitem cred_data "schema_id";
  schema_id_parts ← re_match match_schema_id schema_id;
  match schema_id_parts with
  | None =>
      Raise (UpgradeError ("Error parsing credential schema ID: " +:+ format_str schema_id))
  | Some (schema_issuer_did, schema_name, schema_version) =>
      cred_def_id ← json_getitem cred_data "cred_def_id";
      cdef_id_parts ← re_match match_cred_def_id cred_def_id;
      match cdef_id_parts with
      | None =>
          Raise (UpgradeError ("Error parsing credential definition ID: "
                                 +:+ format_str cred_def_id))
      | Some (issuer_did, _, _) =>
          let rev_reg_id :=
            match cred_data with
            | JObj o =>
                match dict_get o "rev_reg_id" with
                | Some v => if json_truthy v then v else JStr "None"
                | None => JStr "None"
                end
            | _ => JStr "None"
            end in
          let tags : gmap string json :=
            <["rev_reg_id" := rev_reg_id]>
            (<["cred_def_id" := cred_def_id]>
            (<["issuer_did" := JStr issuer_did]>
            (<["schema_version" := JStr schema_version]>
            (<["schema_name" := JStr schema_name]>
            (<["schema_issuer_did" := JStr schema_issuer_did]>
            (<["schema_id" := schema_id]> ∅)))))) in
          values ← json_getitem cred_data "values";
          match values with
          | JObj items => foldl attr_step (Ok tags) items
          | _ => Raise AttributeError
          end
      end
  end.

(** ** The collaborators and the monad of the strategies *)

(** An entry of the Askar store, as [fetch] and [fetch_all] return it. *)
Record entry := Entry {
  entry_category : string;
  entry_name : string;
  entry_value : bytes;
  entry_tags : gmap string json;
}.

(** The payload of [txn.insert]: [value=...] or [value_json=...]. *)
Inductive insert_value :=
| Value (b : bytes)
| ValueJson (j : json).

Definition newline : string := String (ascii_of_nat 10) EmptyString.

Section strategies.
Context `{L : Library}.
(** The state of the outside world, a handle on a legacy wallet, and a
    native key of the Askar store. *)
Context {World Wallet AskarKey : Type}.

(** A call to a collaborator, together with what it answered. *)
Inductive event :=
| EvPrint (text : string)
| EvConnect (r : exc unit)
| EvGetWallet (name : option string) (r : exc Wallet)
| EvPreUpgrade (r : exc unit)
| EvFinishUpgrade (r : exc unit)
| EvClose (r : exc unit)
| EvCreateConfig (default_profile key : string) (r : exc unit)
| EvGetMetadata (w : Wallet) (r : exc string)
| EvFetchPendingItems (w : Wallet) (limit : nat) (r : exc (list row))
| EvUpdateItems (w : Wallet) (items : list enc_item) (r : exc unit)
| EvInsertProfile (w : Wallet) (name : string) (enc_pk : bytes) (r : exc unit)
| EvStoreOpen (uri pass_key : string) (profile : option string) (r : exc unit)
| EvTransaction (r : exc unit)
| EvTransactionExit (r : exc unit)
| EvFetchAll (category : string) (limit : option nat) (r : exc (list entry))
| EvFetch (category name : string) (r : exc (option entry))
| EvRemove (category name : string) (r : exc unit)
| EvInsert (category name : string) (value : insert_value)
    (tags : option (gmap string json)) (r : exc unit)
| EvInsertKey (name : string) (key : AskarKey) (metadata : option json)
    (r : exc unit)
| EvCommit (r : exc unit)
| EvStoreClose (r : exc unit).

(** The database connection ([DbConnection]). *)
Record ConnOps := {
  conn_connect : World → exc unit * World;
  conn_get_wallet : option string → World → exc Wallet * World;
  conn_pre_upgrade : World → exc unit * World;
  conn_finish_upgrade : World → exc unit * World;
  conn_close : World → exc unit * World;
  conn_create_config : string → string → World → exc unit * World;
  conn_uri : World → string;
}.

(** A legacy wallet ([Wallet]); [wallet_is_pg w] is
    [isinstance(w, PgWallet)]. *)
Record WalletOps := {
  wallet_get_metadata : Wallet → World → exc string * World;
  wallet_fetch_pending_items : Wallet → nat → World → exc (list row) * World;
  wallet_update_items : Wallet → list enc_item → World → exc unit * World;
  wallet_insert_profile : Wallet → string → bytes → World → exc unit * World;
  wallet_is_pg : Wallet → bool;
}.

(** The Askar store ([aries_askar.Store]) and its open transaction. *)
Record StoreOps := {
  askar_open : string → string → option string → World → exc unit * World;
  askar_transaction : World → exc unit * World;
  askar_transaction_exit : World → exc unit * World;
  askar_fetch_all : string → option nat → World → exc (list entry) * World;
  askar_fetch : string → string → World → exc (option entry) * World;
  askar_remove : string → string → World → exc unit * World;
  askar_insert : string → string → insert_value → option (gmap string json) →
               World → exc unit * World;
  askar_insert_key : string → AskarKey → option json → World → exc unit * World;
  askar_commit : World → exc unit * World;
  askar_close : World → exc unit * World;
  askar_key_from_secret_bytes : string → bytes → exc AskarKey;
}.

Record state := State {
  world : World;
  rng : entropy;
}.

(** What running a computation gives: its result ([None] when a loop was
    cut off before it ended), the state it leaves and the calls it made. *)
Record run (A : Type) := Run {
  result : option (exc A);
  final : state;
  events : list event;
}.
Arguments Run {A} result final events.
Arguments result {A} r.
Arguments final {A} r.
Arguments events {A} r.

Definition M (A : Type) : Type := state → run A.

#[global] Instance M_ret : MRet M := λ A a s, Run (Some (Ok a)) s [].
#[global] Instance M_bind : MBind M := λ A B f m s,
  let r := m s in
  match result r with
  | Some (Ok a) =>
      let r' := f a (final r) in
      Run (result r') (final r') (events r ++ events r')
  | Some (Raise e) => Run (Some (Raise e)) (final r) (events r)
  | None => Run None (final r) (events r)
  end.

Definition lift {A} (x : exc A) : M A := λ s, Run (Some x) s [].

Definition rand {A} (x : Rand A) : M A := λ s,
  let '(a, g) := x (rng s) in
  Run (Some a) {| world := world s; rng := g |} [].

Definition call {R} (ev : exc R → event) (op : World → exc R * World) : M R :=
  λ s, let '(r, w) := op (world s) in
       Run (Some r) {| world := w; rng := rng s |} [ev r].

Definition print (text : string) : M unit := λ s,
  Run (Some (Ok tt)) s [EvPrint text].

Definition out_of_fuel {A} : M A := λ s, Run None s [].

(** [try: body finally: cleanup]. *)
Definition try_finally {A} (body : M A) (cleanup : M unit) : M A := λ s,
  let r := body s in
  match result r with
  | None => r
  | Some x =>
      let r' := cleanup (final r) in
      Run (match result r' with
           | Some (Ok _) => Some x
           | Some (Raise e) => Some (Raise e)
           | None => None
           end) (final r') (events r ++ events r')
  end.

(** [while True: body], where [body] says whether to go on ([true]) or
    [break]s ([false]); [a] is the value of the variables that the loop
    updates. *)
Fixpoint while_true {A} (fuel : nat) (body : A → M (bool * A)) (a : A) : M A :=
  match fuel with
  | 0 => out_of_fuel
  | S fuel =>
      '(continue, a) ← body a;
      if continue : bool then while_true fuel body a else mret a
  end.

(** [for x in l: body], updating [a]. *)
Fixpoint for_each {A X} (l : list X) (body : X → A → M A) (a : A) : M A :=
  match l with
  | [] => mret a
  | x :: l => a ← body x a; for_each l body a
  end.

Variable conn : ConnOps.
Variable wallets : WalletOps.
Variable store : StoreOps.

(** *** [Strategy.update_items] *)

(** The body of the loop over the fetched rows; [upd] is the list of the
    re-keyed items so far. *)
Definition rekey_row (wallet : Wallet) (indy_key : gmap string bytes)
    (profile_key : profile_key) (row : row) (upd : list enc_item)
    : M (list enc_item) :=
  result ← lift (decrypt_item row indy_key (wallet_is_pg wallets wallet));
  it ← rand (update_item result profile_key);
  mret (upd ++ [it]).

(** One round of the loop of [update_items]. *)
Definition update_items_batch (wallet : Wallet) (indy_key : gmap string bytes)
    (profile_key : profile_key) : M (bool * unit) :=
  rows ← call (EvFetchPendingItems wallet 1)
              (wallet_fetch_pending_items wallets wallet 1);
  match rows with
  | [] => mret (false, tt)
  | _ =>
      upd ← for_each rows (rekey_row wallet indy_key profile_key) [];
      call (EvUpdateItems wallet upd) (wallet_update_items wallets wallet upd);;
      mret (true, tt)
  end.

Definition update_items (fuel : nat) (wallet : Wallet)
    (indy_key : gmap string bytes) (profile_key : profile_key) : M unit :=
  while_true fuel (λ _, update_items_batch wallet indy_key profile_key) tt.

(** *** [Strategy.fetch_indy_key] *)

Definition fetch_indy_key (wallet : Wallet) (wallet_key : string)
  : M (gmap string bytes) :=
  metadata_json ← call (EvGetMetadata wallet) (wallet_get_metadata wallets wallet);
  lift (
    metadata ← json_loads metadata_json;
    keys_enc ← json_getitem metadata "keys" ≫= py_bytes;
    salt ← json_getitem metadata "master_key_salt" ≫= py_bytes;
    let salt := take 16 salt in
    password ← encode_ascii wallet_key;
    master_key ← argon2i_kdf_moderate CHACHAPOLY_KEY_LEN password salt;
    keys_mpk ← decrypt_merged keys_enc master_key false;
    keys_lst ← msgpack_unpackb keys_mpk;
    let keys : gmap string bytes :=
      list_to_map (zip ["type"; "name"; "value"; "item_hmac"; "tag_name";
                        "tag_value"; "tag_hmac"] keys_lst) in
    let keys := <["master" := master_key]> keys in
    let keys := <["salt" := salt]> keys in
    Ok keys).

(** *** [Strategy.create_config] *)

Definition create_config (name : string) (indy_key : gmap string bytes) : M unit :=
  salt ← lift (keys_getitem indy_key "salt");
  let pass_key := "kdf:argon2i:13:mod?salt=" +:+ hex salt in
  call (EvCreateConfig name pass_key) (conn_create_config conn name pass_key).

(** *** [Strategy.init_profile] *)

Definition init_profile (wallet : Wallet) (name : string)
    (indy_key : gmap string bytes) : M profile_key :=
  profile_key ← lift (
    k_type ← keys_getitem indy_key "type";
    k_name ← keys_getitem indy_key "name";
    k_item_hmac ← keys_getitem indy_key "item_hmac";
    k_tag_name ← keys_getitem indy_key "tag_name";
    k_tag_value ← keys_getitem indy_key "tag_value";
    k_tag_hmac ← keys_getitem indy_key "tag_hmac";
    Ok {| ver := "1"; ick := k_type; ink := k_name; ihk := k_item_hmac;
          tnk := k_tag_name; tvk := k_tag_value; thk := k_tag_hmac |});
  let message := cbor2_dumps profile_key in
  master ← lift (keys_getitem indy_key "master");
  enc_pk ← rand (encrypt_merged message master None);
  call (EvInsertProfile wallet name enc_pk)
       (wallet_insert_profile wallets wallet name enc_pk);;
  mret profile_key.

(** *** [MwstAsProfilesStrategy.init_profile] *)

Definition mwst_init_profile (wallet : Wallet) (name : string)
    (base_indy_key indy_key : gmap string bytes) : M profile_key :=
  profile_key ← lift (
    k_type ← keys_getitem indy_key "type";
    k_name ← keys_getitem indy_key "name";
    k_item_hmac ← keys_getitem indy_key "item_hmac";
    k_tag_name ← keys_getitem indy_key "tag_name";
    k_tag_value ← keys_getitem indy_key "tag_value";
    k_tag_hmac ← keys_getitem indy_key "tag_hmac";
    Ok {| ver := "1"; ick := k_type; ink := k_name; ihk := k_item_hmac;
          tnk := k_tag_name; tvk := k_tag_value; thk := k_tag_hmac |});
  let message := cbor2_dumps profile_key in
  master ← lift (keys_getitem base_indy_key "master");
  enc_pk ← rand (encrypt_merged message master None);
  call (EvInsertProfile wallet name enc_pk)
       (wallet_insert_profile wallets wallet name enc_pk);;
  mret profile_key.

(** *** [Strategy.convert_items_to_askar] *)

Definition txn_fetch_all (category : string) (limit : option nat) : M (list entry) :=
  call (EvFetchAll category limit) (askar_fetch_all store category limit).
Definition txn_fetch (category name : string) : M (option entry) :=
  call (EvFetch category name) (askar_fetch store category name).
Definition txn_remove (category name : string) : M unit :=
  call (EvRemove category name) (askar_remove store category name).
Definition txn_insert (category name : string) (value : insert_value)
    (tags : option (gmap string json)) : M unit :=
  call (EvInsert category name value tags) (askar_insert store category name value tags).
Definition txn_insert_key (name : string) (key : AskarKey) (metadata : option json)
  : M unit :=
  call (EvInsertKey name key metadata) (askar_insert_key store name key metadata).
Definition txn_commit : M unit := call EvCommit (askar_commit store).

(** [async with store.transaction() as txn: body]. *)
Definition transaction {A} (body : M A) : M A :=
  call EvTransaction (askar_transaction store);;
  try_finally body (call EvTransactionExit (askar_transaction_exit store)).

Definition print_updated (upd_count : nat) : M unit :=
  print (" " +:+ pretty upd_count +:+ " updated" +:+ newline).

Definition convert_keys (fuel : nat) : M unit :=
  print "Updating keys...";;
  upd_count ← while_true fuel (λ upd_count,
    transaction (
      keys ← txn_fetch_all "Indy::Key" (Some 50);
      match keys with
      | [] => mret (false, upd_count)
      | _ =>
          upd_count ← for_each keys (λ row upd_count,
            txn_remove "Indy::Key" (entry_name row);;
            meta ← txn_fetch "Indy::KeyMetadata" (entry_name row);
            meta ← match meta with
                   | Some meta =>
                       txn_remove "Indy::KeyMetadata" (entry_name meta);;
                       meta ← lift (json_loads_bytes (entry_value meta)
                                      ≫= λ j, json_getitem j "value");
                       mret (Some meta)
                   | None => mret None
                   end;
            key_sk ← lift (j ← json_loads_bytes (entry_value row);
                           signkey ← json_getitem j "signkey";
                           b58decode signkey);
            key ← lift (askar_key_from_secret_bytes store "ed25519" (take 32 key_sk));
            txn_insert_key (entry_name row) key meta;;
            mret (upd_count + 1)) upd_count;
          txn_commit;;
          mret (true, upd_count)
      end)) 0;
  print_updated upd_count.

(** One round of the loop over the master secrets: a transaction. *)
Definition convert_master_secrets_batch (upd_count : nat) : M (bool * nat) :=
  transaction (
    ms ← txn_fetch_all "Indy::MasterSecret" None;
    match ms with
    | [] => mret (false, upd_count)
    | row :: _ =>
        if decide (1 < length ms)                       (* len(ms) > 1 *)
        then lift (Raise (PyException "Encountered multiple master secrets"))
        else
          txn_remove "Indy::MasterSecret" (entry_name row);;
          txn_insert "master_secret" "default" (Value (entry_value row)) None;;
          let upd_count := upd_count + 1 in
          txn_commit;;
          mret (true, upd_count)
    end).

Definition convert_master_secrets (fuel : nat) : M unit :=
  print "Updating master secret(s)...";;
  upd_count ← while_true fuel convert_master_secrets_batch 0;
  print_updated upd_count.

Definition convert_dids (fuel : nat) : M unit :=
  print "Updating DIDs...";;
  upd_count ← while_true fuel (λ upd_count,
    transaction (
      dids ← txn_fetch_all "Indy::Did" (Some 50);
      match dids with
      | [] => mret (false, upd_count)
      | _ =>
          upd_count ← for_each dids (λ row upd_count,
            txn_remove "Indy::Did" (entry_name row);;
            info ← lift (json_loads_bytes (entry_value row));
            meta ← txn_fetch "Indy::DidMetadata" (entry_name row);
            meta ← match meta with
                   | Some meta =>
                       txn_remove "Indy::DidMetadata" (entry_name meta);;
                       meta ← lift (json_loads_bytes (entry_value meta)
                                      ≫= λ j, json_getitem j "value");
                       (* with contextlib.suppress(json.JSONDecodeError) *)
                       lift (match meta with
                             | JStr text =>
                                 match json_loads text with
                                 | Ok decoded => Ok decoded
                                 | Raise JSONDecodeError => Ok meta
                                 | Raise e => Raise e
                                 end
                             | _ => Raise TypeError
                             end)
                   | None => mret JNull
                   end;
            value_json ← lift (did ← json_getitem info "did";
                               verkey ← json_getitem info "verkey";
                               Ok (JObj [("did", did); ("verkey", verkey);
                                         ("metadata", meta)]));
            tags ← lift (verkey ← json_getitem info "verkey";
                         Ok ({["verkey" := verkey]} : gmap string json));
            txn_insert "did" (entry_name row) (ValueJson value_json) (Some tags);;
            mret (upd_count + 1)) upd_count;
          txn_commit;;
          mret (true, upd_count)
      end)) 0;
  print_updated upd_count.

(** The loops that move a category over with its payload unchanged. *)
Definition copy_category (label legacy target : string) (fuel : nat) : M unit :=
  print label;;
  upd_count ← while_true fuel (λ upd_count,
    transaction (
      rows ← txn_fetch_all legacy (Some 50);
      match rows with
      | [] => mret (false, upd_count)
      | _ =>
          upd_count ← for_each rows (λ row upd_count,
            txn_remove legacy (entry_name row);;
            txn_insert target (entry_name row) (Value (entry_value row)) None;;
            mret (upd_count + 1)) upd_count;
          txn_commit;;
          mret (true, upd_count)
      end)) 0;
  print_updated upd_count.

Definition convert_schemas : nat → M unit :=
  copy_category "Updating stored schemas..." "Indy::Schema" "schema".

Definition convert_cred_defs (fuel : nat) : M unit :=
  print "Updating stored credential definitions...";;
  upd_count ← while_true fuel (λ upd_count,
    transaction (
      cred_defs ← txn_fetch_all "Indy::CredentialDefinition" (Some 50);
      match cred_defs with
      | [] => mret (false, upd_count)
      | _ =>
          upd_count ← for_each cred_defs (λ row upd_count,
            txn_remove "Indy::CredentialDefinition" (entry_name row);;
            sid ← txn_fetch "Indy::SchemaId" (entry_name row);
            sid ← match sid with
                  | None =>
                      lift (Raise (PyException
                        ("Schema ID not found for credential definition: "
                           +:+ entry_name row)))
                  | Some sid => lift (decode_utf8 (entry_value sid))
                  end;
            txn_insert "credential_def" (entry_name row) (Value (entry_value row))
                   (Some {["schema_id" := JStr sid]});;
            priv ← txn_fetch "Indy::CredentialDefinitionPrivateKey" (entry_name row);
            match priv with
            | Some priv =>
                txn_remove "Indy::CredentialDefinitionPrivateKey" (entry_name priv);;
                txn_insert "credential_def_private" (entry_name priv)
                       (Value (entry_value priv)) None
            | None => mret tt
            end;;
            proof ← txn_fetch "Indy::CredentialDefinitionCorrectnessProof" (entry_name row);
            match proof with
            | Some proof =>
                txn_remove "Indy::CredentialDefinitionCorrectnessProof" (entry_name proof);;
                value ← lift (json_loads_bytes (entry_value proof)
                                ≫= λ j, json_getitem j "value");
                txn_insert "credential_def_key_proof" (entry_name proof)
                       (ValueJson value) None
            | None => mret tt
            end;;
            mret (upd_count + 1)) upd_count;
          txn_commit;;
          mret (true, upd_count)
      end)) 0;
  print_updated upd_count.

Definition convert_rev_reg_defs : nat → M unit :=
  copy_category "Updating stored revocation registry definitions..."
    "Indy::RevocationRegistryDefinition" "revocation_reg_def".

Definition convert_rev_reg_keys : nat → M unit :=
  copy_category "Updating stored revocation registry keys..."
    "Indy::RevocationRegistryDefinitionPrivate" "revocation_reg_def_private".

Definition convert_rev_reg_states : nat → M unit :=
  copy_category "Updating stored revocation registry states..."
    "Indy::RevocationRegistry" "revocation_reg".

Definition convert_rev_reg_info : nat → M unit :=
  copy_category "Updating stored revocation registry info..."
    "Indy::RevocationRegistryInfo" "revocation_reg_info".

(** The body of the loop over the fetched credentials. *)
Definition convert_credential (row : entry) (upd_count : nat) : M nat :=
  txn_remove "Indy::Credential" (entry_name row);;
  cred_data ← lift (json_loads_bytes (entry_value row));
  tags ← lift (_credential_tags cred_data);
  txn_insert "credential" (entry_name row) (Value (entry_value row)) (Some tags);;
  mret (upd_count + 1).

(** One round of the loop over the credentials: a transaction. *)
Definition convert_credentials_batch (upd_count : nat) : M (bool * nat) :=
  transaction (
    creds ← txn_fetch_all "Indy::Credential" (Some 50);
    match creds with
    | [] => mret (false, upd_count)
    | _ =>
        upd_count ← for_each creds convert_credential upd_count;
        txn_commit;;
        mret (true, upd_count)
    end).

Definition convert_credentials (fuel : nat) : M unit :=
  print "Updating stored credentials...";;
  upd_count ← while_true fuel convert_credentials_batch 0;
  print_updated upd_count.

Definition convert_items_to_askar (fuel : nat) (uri wallet_key : string)
    (profile : option string) : M unit :=
  print ("Opening wallet with Askar..." +:+ newline);;
  call (EvStoreOpen uri wallet_key profile) (askar_open store uri wallet_key profile);;
  convert_keys fuel;;
  convert_master_secrets fuel;;
  convert_dids fuel;;
  convert_schemas fuel;;
  convert_cred_defs fuel;;
  convert_rev_reg_defs fuel;;
  convert_rev_reg_keys fuel;;
  convert_rev_reg_states fuel;;
  convert_rev_reg_info fuel;;
  convert_credentials fuel;;
  print ("Closing wallet" +:+ newline);;
  call EvStoreClose (askar_close store).

(** Reading the attribute [self.conn.uri]. *)
Definition conn_uri_attr : M string := λ s,
  Run (Some (Ok (conn_uri conn (world s)))) s [].

(** *** [DbpwStrategy] *)

Record DbpwStrategy := {
  dbpw_wallet_name : string;
  dbpw_wallet_key : string;
}.

(** The statements of the [try] block of [DbpwStrategy.run] that come
    before [finish_upgrade]. *)
Definition dbpw_rekey (fuel : nat) (self : DbpwStrategy) (wallet : Wallet) : M unit :=
  call EvPreUpgrade (conn_pre_upgrade conn);;
  indy_key ← fetch_indy_key wallet (dbpw_wallet_key self);
  create_config (dbpw_wallet_name self) indy_key;;
  profile_key ← init_profile wallet (dbpw_wallet_name self) indy_key;
  update_items fuel wallet indy_key profile_key.

(** The statements of [DbpwStrategy.run] that come before the [try]
    block. *)
Definition dbpw_open : M Wallet :=
  call EvConnect (conn_connect conn);;
  call (EvGetWallet None) (conn_get_wallet conn None).

Definition dbpw_run (fuel : nat) (self : DbpwStrategy) : M unit :=
  wallet ← dbpw_open;
  try_finally
    (dbpw_rekey fuel self wallet;;
     call EvFinishUpgrade (conn_finish_upgrade conn))
    (call EvClose (conn_close conn));;
  uri ← conn_uri_attr;
  convert_items_to_askar fuel uri (dbpw_wallet_key self) None.

(** *** [MwstAsProfilesStrategy] *)

Record MwstAsProfilesStrategy := {
  base_wallet_name : string;
  base_wallet_key : string;
  wallet_keys : list (string * string);
}.

(** [MwstAsProfilesStrategy.__init__]. *)
Definition mwst_new (base_wallet_name : string)
    (wallet_keys : list (string * string)) : exc MwstAsProfilesStrategy :=
  base_wallet_key ← dict_getitem wallet_keys base_wallet_name;
  Ok {| base_wallet_name := base_wallet_name;
        base_wallet_key := base_wallet_key;
        wallet_keys := wallet_keys |}.

(** The body of the loop over [wallet_keys.items()]. *)
Definition mwst_rekey_wallet (fuel : nat) (base_indy_key : gmap string bytes)
    (wallet_name wallet_key : string) : M unit :=
  wallet ← call (EvGetWallet (Some wallet_name))
                (conn_get_wallet conn (Some wallet_name));
  indy_key ← fetch_indy_key wallet wallet_key;
  profile_key ← mwst_init_profile wallet wallet_name base_indy_key indy_key;
  update_items fuel wallet indy_key profile_key.

(** The statements of the [try] block of [MwstAsProfilesStrategy.run] that
    come before [finish_upgrade]. *)
Definition mwst_rekey (fuel : nat) (self : MwstAsProfilesStrategy) : M unit :=
  call EvPreUpgrade (conn_pre_upgrade conn);;
  base_wallet ← call (EvGetWallet (Some (base_wallet_name self)))
                     (conn_get_wallet conn (Some (base_wallet_name self)));
  base_indy_key ← fetch_indy_key base_wallet (base_wallet_key self);
  create_config (base_wallet_name self) base_indy_key;;
  for_each (wallet_keys self)
    (λ '(wallet_name, wallet_key) _,
       mwst_rekey_wallet fuel base_indy_key wallet_name wallet_key) tt.

Definition mwst_run (fuel : nat) (self : MwstAsProfilesStrategy) : M unit :=
  call EvConnect (conn_connect conn);;
  try_finally
    (mwst_rekey fuel self;;
     call EvFinishUpgrade (conn_finish_upgrade conn))
    (call EvClose (conn_close conn));;
  for_each (wallet_keys self)
    (λ '(wallet_name, _) _,
       uri ← conn_uri_attr;
       convert_items_to_askar fuel uri (base_wallet_key self) (Some wallet_name)) tt.

End strategies.

Arguments Run {World Wallet AskarKey A} result final events.
Arguments result {World Wallet AskarKey A} r.
Arguments final {World Wallet AskarKey A} r.
Arguments events {World Wallet AskarKey A} r.
Arguments State {World} world rng.

(** ** Collaborators kept in memory

    The database connection, the legacy wallets and the Askar store are not
    part of the module. The definitions of this section stand in for them
    where a property is about a wallet that behaves as the specification says,
    and where the code is run on concrete inputs. *)

(** Modelled from the spec: the legacy wallet ([db_connection.Wallet]), of
    which the module only has the calls. [fetch_pending_items(limit)] returns
    up to [limit] of the rows that are not migrated yet; [update_items] stores
    the re-keyed items and marks their rows migrated, so that later fetches
    leave them out; [insert_profile] records the encrypted profile key. *)
Record mem_wallet := MemWallet {
  mw_metadata : string;
  mw_pending : list row;
  mw_migrated : list enc_item;
  mw_profiles : list (string * bytes);
}.

Inductive upgrade_mark := Legacy | Upgrading | Upgraded.

(** Modelled from the spec: the database behind the connection
    ([DbConnection]) and the Askar store opened on it afterwards. *)
Record mem_db := MemDb {
  db_uri : string;
  db_connected : bool;
  db_mark : upgrade_mark;
  db_config : option (string * string);
  db_wallets : gmap string mem_wallet;
  db_entries : list entry;
  db_native_keys : list (string * bytes * option json);
  db_txn : option (list entry * list (string * bytes * option json));
}.

Definition set_wallets (f : gmap string mem_wallet → gmap string mem_wallet)
    (db : mem_db) : mem_db :=
  {| db_uri := db_uri db; db_connected := db_connected db; db_mark := db_mark db;
     db_config := db_config db; db_wallets := f (db_wallets db);
     db_entries := db_entries db; db_native_keys := db_native_keys db;
     db_txn := db_txn db |}.

Definition set_conn (connected : bool) (mark : upgrade_mark)
    (config : option (string * string)) (db : mem_db) : mem_db :=
  {| db_uri := db_uri db; db_connected := connected; db_mark := mark;
     db_config := config; db_wallets := db_wallets db;
     db_entries := db_entries db; db_native_keys := db_native_keys db;
     db_txn := db_txn db |}.

Definition set_store (entries : list entry)
    (native_keys : list (string * bytes * option json))
    (txn : option (list entry * list (string * bytes * option json)))
    (db : mem_db) : mem_db :=
  {| db_uri := db_uri db; db_connected := db_connected db; db_mark := db_mark db;
     db_config := db_config db; db_wallets := db_wallets db;
     db_entries := entries; db_native_keys := native_keys; db_txn := txn |}.

(** A wallet is named by its key in [db_wallets]; the wallet of a
    single-wallet database has the empty name. *)
Definition with_wallet {R} (name : string) (db : mem_db)
    (f : mem_wallet → exc R * mem_wallet) : exc R * mem_db :=
  match db_wallets db !! name with
  | Some w => let '(r, w') := f w in (r, set_wallets (insert name w') db)
  | None => (Raise (ExternalError "no such wallet"), db)
  end.

Definition read_wallet {R} (name : string) (db : mem_db) (f : mem_wallet → R)
    : exc R * mem_db :=
  match db_wallets db !! name with
  | Some w => (Ok (f w), db)
  | None => (Raise (ExternalError "no such wallet"), db)
  end.

(** Modelled from the spec: the operations of the legacy wallet. A fetch
    returns up to [limit] pending rows, a write removes the rows of the
    written items from the pending ones and keeps the items, and
    [insert_profile] appends the sealed profile key. *)
Definition mem_wallets : WalletOps (World := mem_db) (Wallet := string) := {|
  wallet_get_metadata name db := read_wallet name db mw_metadata;
  wallet_fetch_pending_items name limit db :=
    read_wallet name db (λ w, take limit (mw_pending w));
  wallet_update_items name items db :=
    with_wallet name db (λ w,
      (Ok tt,
       {| mw_metadata := mw_metadata w;
          mw_pending := filter (λ r, row_id r ∉ upd_id <$> items) (mw_pending w);
          mw_migrated := mw_migrated w ++ items;
          mw_profiles := mw_profiles w |}));
  wallet_insert_profile name profile enc_pk db :=
    with_wallet name db (λ w,
      (Ok tt,
       {| mw_metadata := mw_metadata w; mw_pending := mw_pending w;
          mw_migrated := mw_migrated w;
          mw_profiles := mw_profiles w ++ [(profile, enc_pk)] |}));
  wallet_is_pg _ := false;
|}.

(** Modelled from the spec: the operations of the database connection, which
    record the connection state, the upgrade mark and the configuration. *)
Definition mem_conn : ConnOps (World := mem_db) (Wallet := string) := {|
  conn_connect db := (Ok tt, set_conn true (db_mark db) (db_config db) db);
  conn_get_wallet name db :=
    match db_wallets db !! default "" name with
    | Some _ => (Ok (default "" name), db)
    | None => (Raise (ExternalError "no such wallet"), db)
    end;
  conn_pre_upgrade db := (Ok tt, set_conn (db_connected db) Upgrading (db_config db) db);
  conn_finish_upgrade db := (Ok tt, set_conn (db_connected db) Upgraded (db_config db) db);
  conn_close db := (Ok tt, set_conn false (db_mark db) (db_config db) db);
  conn_create_config default_profile key db :=
    (Ok tt, set_conn (db_connected db) (db_mark db) (Some (default_profile, key)) db);
  conn_uri := db_uri;
|}.

Definition entry_is (category name : string) (e : entry) : bool :=
  bool_decide (entry_category e = category ∧ entry_name e = name).

(** A transaction works on a copy of the entries, which [commit] writes back
    and which leaving the transaction drops; a JSON payload is stored as the
    bytes [dumps] gives for it. *)
Definition in_txn {R} (db : mem_db)
    (f : list entry → list (string * bytes * option json) →
         exc R * (list entry * list (string * bytes * option json)))
    : exc R * mem_db :=
  match db_txn db with
  | Some (entries, native_keys) =>
      let '(r, txn) := f entries native_keys in
      (r, set_store (db_entries db) (db_native_keys db) (Some txn) db)
  | None => (Raise (ExternalError "no open transaction"), db)
  end.

(** Modelled from the spec: the operations of the Askar store, on the entries
    and the keys of the database. *)
Definition mem_store (dumps : json → bytes)
    : StoreOps (World := mem_db) (AskarKey := bytes) := {|
  askar_open _ _ _ db := (Ok tt, db);
  askar_transaction db :=
    (Ok tt, set_store (db_entries db) (db_native_keys db)
              (Some (db_entries db, db_native_keys db)) db);
  askar_transaction_exit db :=
    (Ok tt, set_store (db_entries db) (db_native_keys db) None db);
  askar_fetch_all category limit db :=
    in_txn db (λ entries native_keys,
      let found := filter (λ e, entry_category e = category) entries in
      (Ok (match limit with Some n => take n found | None => found end),
       (entries, native_keys)));
  askar_fetch category name db :=
    in_txn db (λ entries native_keys,
      (Ok (head (filter (λ e, entry_is category name e = true) entries)),
       (entries, native_keys)));
  askar_remove category name db :=
    in_txn db (λ entries native_keys,
      if existsb (entry_is category name) entries
      then (Ok tt, (filter (λ e, entry_is category name e = false) entries, native_keys))
      else (Raise (ExternalError "not found"), (entries, native_keys)));
  askar_insert category name value tags db :=
    in_txn db (λ entries native_keys,
      if existsb (entry_is category name) entries
      then (Raise (ExternalError "duplicate"), (entries, native_keys))
      else (Ok tt,
            (entries ++ [{| entry_category := category; entry_name := name;
                            entry_value := match value with
                                           | Value b => b
                                           | ValueJson j => dumps j
                                           end;
                            entry_tags := default ∅ tags |}],
             native_keys)));
  askar_insert_key name key metadata db :=
    in_txn db (λ entries native_keys,
      (Ok tt, (entries, native_keys ++ [(name, key, metadata)])));
  askar_commit db :=
    match db_txn db with
    | Some (entries, native_keys) => (Ok tt, set_store entries native_keys None db)
    | None => (Raise (ExternalError "no open transaction"), db)
    end;
  askar_close db := (Ok tt, db);
  askar_key_from_secret_bytes alg secret :=
    if decide (alg = "ed25519" ∧ length secret = 32) then Ok secret
    else Raise (ExternalError "invalid key");
|}.


Definition migrated_of (name : string) (db : mem_db) : list enc_item :=
  match db_wallets db !! name with
  | Some w => mw_migrated w
  | None => []
  end.

(** ** Stand-ins for the libraries

    Small total functions with the shape of the primitives, for running the
    code on concrete inputs: sealing appends the first 16 bytes of the key as
    the tag, opening checks that tag; the HMAC is the first 32 bytes of the
    message, the key and a padding; the parsers answer what they are told
    to. *)
Definition toy_sizes_ok (nonce key : bytes) : bool :=
  bool_decide (length nonce = CHACHAPOLY_NONCE_LEN ∧ length key = CHACHAPOLY_KEY_LEN).

Definition toy_library (parse : string → exc json) (parse_bytes : bytes → exc json)
    : Library := {|
  aead_encrypt message nonce key :=
    if toy_sizes_ok nonce key then Ok (message ++ take CHACHAPOLY_TAG_LEN key)
    else Raise TypeError;
  aead_decrypt ciphertext nonce key :=
    if toy_sizes_ok nonce key
    then let n := length ciphertext - CHACHAPOLY_TAG_LEN in
         if bool_decide ((CHACHAPOLY_TAG_LEN ≤ length ciphertext)%nat
                         ∧ drop n ciphertext = take CHACHAPOLY_TAG_LEN key)
         then Ok (take n ciphertext)
         else Raise CryptoError
    else Raise TypeError;
  hmac_sha256 key msg := take 32 (msg ++ key ++ replicate 32 x00);
  b64decode b := Ok b;
  argon2i_kdf_moderate size password salt :=
    if decide (length salt = 16)
    then Ok (take size (password ++ salt ++ replicate size x00))
    else Raise ValueError;
  msgpack_unpackb b := Ok (replicate 7 (take 32 (b ++ replicate 32 x01)));
  cbor2_dumps pk := ick pk ++ ink pk ++ ihk pk ++ tnk pk ++ tvk pk ++ thk pk;
  json_loads := parse;
  json_loads_bytes := parse_bytes;
  b58decode j := match j with
                 | JStr s => encode_ascii s
                 | _ => Raise TypeError
                 end;
  decode_utf8 b := Ok (string_of_list_ascii (map ascii_of_byte b));
|}.

(** ** Notions used to state the properties *)

(** The number that a byte string denotes, most significant byte first. *)
Definition big_endian (b : bytes) : N :=
  foldl (λ acc x, acc * 256 + Byte.to_N x)%N 0%N b.

(** Encryption with the nonce derived from the plaintext: the first 12 bytes
    of the HMAC of [message] under [hmac_key]; no randomness is involved. *)
Definition det_encrypt `{L : Library} (message key hmac_key : bytes) : exc bytes :=
  let nonce := take CHACHAPOLY_NONCE_LEN (hmac_sha256 hmac_key message) in
  (λ ciphertext, nonce ++ ciphertext) <$> aead_encrypt message nonce key.

(** All the characters of [s] are in the class [p]. *)
Fixpoint string_forall (p : ascii → bool) (s : string) : bool :=
  match s with
  | EmptyString => true
  | String c s' => p c && string_forall p s'
  end.

(** The pattern [<issuerDid>:2:<name>:<version>] of a schema identifier: the
    DID is a non-empty word, the name and the version are non-empty and hold
    no colon. *)
Definition is_schema_id (s did name version : string) : Prop :=
  s = did +:+ ":2:" +:+ name +:+ ":" +:+ version
  ∧ did ≠ "" ∧ string_forall is_word did = true
  ∧ name ≠ "" ∧ string_forall not_colon name = true
  ∧ version ≠ "" ∧ string_forall not_colon version = true.

(** The pattern [<issuerDid>:3:CL:<schemaSeqNo>:<tag>] of a credential
    definition identifier. *)
Definition is_cred_def_id (s did seq_no tag : string) : Prop :=
  s = did +:+ ":3:CL:" +:+ seq_no +:+ ":" +:+ tag
  ∧ did ≠ "" ∧ string_forall is_word did = true
  ∧ seq_no ≠ "" ∧ string_forall not_colon seq_no = true
  ∧ tag ≠ "" ∧ string_forall not_colon tag = true.

(** The key of the tag of the attribute [k]. *)
Definition attr_tag (k : string) : string :=
  "attr::" +:+ strip_spaces k +:+ "::value".

(** How a re-keyed tag relates to the tag it comes from: the flag is kept,
    the name is encrypted under the tag-name key with the derived nonce, the
    value of an encrypted tag likewise under the tag-value key, and the value
    of a plaintext tag is carried over as it is. *)
Definition tag_rekeyed `{L : Library} (key : profile_key) (t t' : tag) : Prop :=
  t'.1.1 = t.1.1
  ∧ det_encrypt t.1.2 (tnk key) (thk key) = Ok t'.1.2
  ∧ (if t.1.1 then t'.2 = t.2
     else ∃ v v', t.2 = TagBytes v ∧ t'.2 = TagBytes v'
                  ∧ det_encrypt v (tvk key) (thk key) = Ok v').

(** What [update_tag] does to a tag when the tag HMAC key is not empty. *)
Definition det_update_tag `{L : Library} (key : profile_key) (t : tag) : exc tag :=
  let '(plain, k, v) := t in
  v' ← (if negb plain
        then match v with
             | TagBytes v => TagBytes <$> det_encrypt v (tvk key) (thk key)
             | TagStr _ => Raise TypeError
             end
        else Ok v);
  k' ← det_encrypt k (tnk key) (thk key);
  Ok (plain, k', v').

(** What follows a group: the end of the string or a character outside the
    class. *)
Definition stops (p : ascii → bool) (r : string) : Prop :=
  match r with
  | EmptyString => True
  | String c _ => p c = false
  end.

(** The stand-in library whose JSON parsers refuse everything. *)
Definition plain_toy_library : Library :=
  toy_library (λ _, Raise JSONDecodeError) (λ _, Raise JSONDecodeError).

(** The credential of the specification's example, with the attributes
    [attrs]. *)
Definition example_schema_id : string := "Th7MpTaRZVRYnPiabds81Y:2:gvt:1.0".
Definition example_cred_def_id : string := "Th7MpTaRZVRYnPiabds81Y:3:CL:12:tag".
Definition example_credential (attrs : list (string * json)) : json :=
  JObj [("schema_id", JStr example_schema_id);
        ("cred_def_id", JStr example_cred_def_id);
        ("rev_reg_id", JNull);
        ("values", JObj attrs)].

Definition attr_value (raw encoded : string) : json :=
  JObj [("raw", JStr raw); ("encoded", JStr encoded)].

Definition example_attrs : list (string * json) :=
  [("name", attr_value "Alex" "1139481716457488690172217916278103335");
   ("date of birth", attr_value "2000-01-01" "20000101")].

(** Two attributes whose names differ only by a space. *)
Definition colliding_attrs : list (string * json) :=
  [("a b", attr_value "1" "1"); ("ab", attr_value "2" "2")].

(** A credential whose schema identifier is not one, and the library whose
    JSON parser reads it from every payload. *)
Definition malformed_credential : json :=
  JObj [("schema_id", JStr "not-an-id");
        ("cred_def_id", JStr example_cred_def_id);
        ("values", JObj example_attrs)].

Definition malformed_library : Library :=
  toy_library (λ _, Raise JSONDecodeError) (λ _, Ok malformed_credential).

(** A database with the given entries of the Askar store and no wallet. *)
Definition example_db (entries : list entry) : mem_db :=
  {| db_uri := "sqlite://wallet.db"; db_connected := false; db_mark := Legacy;
     db_config := None; db_wallets := ∅; db_entries := entries;
     db_native_keys := []; db_txn := None |}.

Definition example_credential_entry : entry :=
  {| entry_category := "Indy::Credential"; entry_name := "cred-1";
     entry_value := [x7b; x7d]; entry_tags := ∅ |}.

Definition example_master_secret (name : string) : entry :=
  {| entry_category := "Indy::MasterSecret"; entry_name := name;
     entry_value := [x6d; x73]; entry_tags := ∅ |}.

(** A legacy wallet for the stand-in library: every key is 32 bytes [0x2a],
    so a value sealed under it is a 12-byte nonce, the plaintext and 16 bytes
    [0x2a]. *)
Definition example_key : bytes := replicate 32 x2a.

Definition example_sealed (plaintext : bytes) : bytes :=
  replicate 12 x00 ++ plaintext ++ replicate 16 x2a.

Definition example_indy_key : gmap string bytes :=
  list_to_map [("type", example_key); ("name", example_key); ("value", example_key);
               ("item_hmac", example_key); ("tag_name", example_key);
               ("tag_value", example_key); ("tag_hmac", example_key);
               ("master", example_key); ("salt", replicate 16 x00)].

Definition example_profile_key : profile_key :=
  {| ver := "1"; ick := example_key; ink := example_key; ihk := example_key;
     tnk := example_key; tvk := example_key; thk := example_key |}.

Definition example_row (id : Z) : row :=
  {| row_id := id;
     row_type := example_sealed [x74];
     row_name := example_sealed [x6e];
     row_value := Some (example_sealed [x76]);
     row_key := example_sealed example_key;
     tags_enc := None;
     tags_plain := None |}.

(** The metadata of the example wallet: the key list, sealed under the
    master key that the stand-in KDF derives from the empty passphrase and a
    salt of 16 zero bytes, and that salt. *)
Definition example_metadata : json :=
  JObj [("keys", JArr (replicate 12 (JInt 0) ++ replicate 16 (JInt 0)));
        ("master_key_salt", JArr (replicate 16 (JInt 0)))].

Definition example_wallet (pending : list row) : mem_wallet :=
  {| mw_metadata := "{}"; mw_pending := pending; mw_migrated := [];
     mw_profiles := [] |}.

(** A database with the wallets [ws] and an empty Askar store. *)
Definition example_wallet_db (ws : list (string * mem_wallet)) : mem_db :=
  {| db_uri := "sqlite://wallet.db"; db_connected := false; db_mark := Legacy;
     db_config := None; db_wallets := list_to_map ws; db_entries := [];
     db_native_keys := []; db_txn := None |}.

(** The library whose JSON parser reads the metadata of the example wallet
    from every text. *)
Definition metadata_library : Library :=
  toy_library (λ _, Ok example_metadata) (λ _, Raise JSONDecodeError).

(** A single-wallet database and the strategy that upgrades it with the
    empty passphrase. *)
Definition example_single_db : mem_db := example_wallet_db [("", example_wallet [])].

Definition example_dbpw : DbpwStrategy :=
  {| dbpw_wallet_name := "alice"; dbpw_wallet_key := "" |}.

(** A plaintext-tag string with one tag, as the database gives it: the
    hexadecimal form of the encrypted name [n] (nonce, ciphertext, tag of the
    stand-in library under the key of 32 bytes [0x2a]), a colon and the
    hexadecimal form of the value [v]. *)
Definition example_tag_name_key : bytes := replicate 32 x2a.
Definition example_plain_tags : string :=
  "A1B2C3D4E5F60718293A4B5C6E2A2A2A2A2A2A2A2A2A2A2A2A2A2A2A2A:76".

(** An entropy tape for running the code: byte [i] is [i mod 256]. *)
Definition counting_tape (start : nat) : entropy :=
  {| tape := λ i, byte_of_N (N.of_nat i); cursor := start |}.

(** ** Notions about the calls that a run makes *)

Section trace_notions.
Context {World Wallet AskarKey : Type}.
Local Abbreviation event := (event (Wallet := Wallet) (AskarKey := AskarKey)).
Local Abbreviation M := (M (World := World) (Wallet := Wallet) (AskarKey := AskarKey)).
Local Abbreviation run := (run (World := World) (Wallet := Wallet) (AskarKey := AskarKey)).

(** The run [r] after the calls [t]. *)
Definition after {A} (t : list event) (r : run A) : run A :=
  Run (result r) (final r) (t ++ events r).

(** Every call that [m] makes, from whatever state, satisfies [P]. *)
Definition emits {A} (P : event → Prop) (m : M A) : Prop :=
  ∀ s, Forall P (events (m s)).

(** The call of [finish_upgrade], of [close], and the calls to the Askar
    store. *)
Definition is_finish (e : event) : Prop :=
  match e with EvFinishUpgrade _ => True | _ => False end.

Definition is_close (e : event) : Prop :=
  match e with EvClose _ => True | _ => False end.

Definition is_store_call (e : event) : Prop :=
  match e with
  | EvStoreOpen _ _ _ _ | EvTransaction _ | EvTransactionExit _
  | EvFetchAll _ _ _ | EvFetch _ _ _ | EvRemove _ _ _ | EvInsert _ _ _ _ _
  | EvInsertKey _ _ _ _ | EvCommit _ | EvStoreClose _ => True
  | _ => False
  end.

(** The calls of the re-key loop on the wallet [w]. *)
Definition is_item_call (w : Wallet) (e : event) : Prop :=
  match e with
  | EvFetchPendingItems w' _ _ | EvUpdateItems w' _ _ => w' = w
  | _ => False
  end.

Definition is_insert_profile (e : event) : Prop :=
  match e with EvInsertProfile _ _ _ _ => True | _ => False end.

(** The calls made before the upgrade is marked finished: none of them
    marks it, closes the connection or touches the Askar store. *)
Definition is_upgrade_call (e : event) : Prop :=
  ¬ is_finish e ∧ ¬ is_close e ∧ ¬ is_store_call e.

(** The calls of the structural conversion: to the Askar store, and prints. *)
Definition is_conversion_call (e : event) : Prop :=
  match e with
  | EvPrint _ => True
  | _ => is_store_call e
  end.

(** An insert into the category of the credentials carries the payload of a
    credential and the tags that [_credential_tags] derives from it. *)
Definition is_derived_insert `{L : Library} (e : event) : Prop :=
  match e with
  | EvInsert category name value tags _ =>
      category = "credential" →
      ∃ payload cred_data derived,
        value = Value payload ∧ tags = Some derived
        ∧ json_loads_bytes payload = Ok cred_data
        ∧ _credential_tags cred_data = Ok derived
  | _ => True
  end.

(** The calls of a re-key loop that ends normally: rounds of a fetch of one
    row at most that returns rows, followed by the write of these rows
    re-keyed, and a last fetch that returns no row. *)
Inductive rekey_rounds `{L : Library} (wallet : Wallet)
    (indy_key : gmap string bytes) (profile_key : profile_key) (b64 : bool)
    : list event → Prop :=
| rounds_done :
    rekey_rounds wallet indy_key profile_key b64
      [EvFetchPendingItems wallet 1 (Ok [])]
| rounds_step rows upd t :
    rows ≠ [] →
    Forall2 (λ row it, ∃ plain g g',
               decrypt_item row indy_key b64 = Ok plain
               ∧ update_item plain profile_key g = (Ok it, g'))
            rows upd →
    rekey_rounds wallet indy_key profile_key b64 t →
    rekey_rounds wallet indy_key profile_key b64
      (EvFetchPendingItems wallet 1 (Ok rows) :: EvUpdateItems wallet upd (Ok tt) :: t).

(** The calls of the re-key loop on [wallet]: fetches of one row at most,
    and writes. *)
Definition is_rekey_call (wallet : Wallet) (e : event) : Prop :=
  match e with
  | EvFetchPendingItems w limit _ => w = wallet ∧ limit = 1
  | EvUpdateItems w _ _ => w = wallet
  | _ => False
  end.

Definition is_commit (e : event) : Prop :=
  match e with EvCommit _ => True | _ => False end.

(** The calls that store a profile key or belong to a re-key loop. *)
Definition is_profile_or_item_call (e : event) : bool :=
  match e with
  | EvInsertProfile _ _ _ _ | EvFetchPendingItems _ _ _ | EvUpdateItems _ _ _ => true
  | _ => false
  end.

(** Among the calls of the run [r], those that store a profile key or belong
    to a re-key loop are, in order: one [insert_profile] on [wallet] under
    [name], then calls of the re-key loop on [wallet] only. There is none
    only if the run did not end normally. *)
Definition profile_then_items {A} (wallet : Wallet) (name : string)
    (r : run A) : Prop :=
  match filter (λ e, Is_true (is_profile_or_item_call e)) (events r) with
  | [] => ∀ a, result r ≠ Some (Ok a)
  | e :: rest =>
      (∃ enc_pk x, e = EvInsertProfile wallet name enc_pk x)
      ∧ Forall (is_item_call wallet) rest
  end.

(** In the calls [t], every call of a re-key loop on a wallet comes after a
    call [insert_profile] on that wallet. *)
Definition profile_precedes_items (t : list event) : Prop :=
  ∀ t1 e t2 w,
    t = t1 ++ e :: t2 → is_item_call w e →
    ∃ name enc_pk x, EvInsertProfile w name enc_pk x ∈ t1.

End trace_notions.

(** ** Notions about the profile key *)

(** [pk] holds the category, name, item-HMAC, tag-name, tag-value and
    tag-HMAC keys of [indy_key], and the version tag ["1"]. *)
Definition copies_keys (indy_key : gmap string bytes) (pk : profile_key) : Prop :=
  ver pk = "1"
  ∧ indy_key !! "type" = Some (ick pk)
  ∧ indy_key !! "name" = Some (ink pk)
  ∧ indy_key !! "item_hmac" = Some (ihk pk)
  ∧ indy_key !! "tag_name" = Some (tnk pk)
  ∧ indy_key !! "tag_value" = Some (tvk pk)
  ∧ indy_key !! "tag_hmac" = Some (thk pk).

(** [r] is the run that, from the state [s], seals the serialized [pk] under
    [master] with the next 12 bytes of the generator as nonce, makes the one
    call [insert_profile] of [wallet] with [name] and the sealed key, and
    returns [pk] when that call succeeds. *)
Definition persists_profile_key {L : Library} {World Wallet AskarKey : Type}
    (wallets : WalletOps (World := World) (Wallet := Wallet))
    (wallet : Wallet) (name : string) (pk : profile_key) (master : bytes)
    (s : state (World := World))
    (r : run (World := World) (Wallet := Wallet) (AskarKey := AskarKey) profile_key)
    : Prop :=
  let nonce := map (tape (rng s)) (seq (cursor (rng s)) CHACHAPOLY_NONCE_LEN) in
  ∃ ciphertext,
    aead_encrypt (cbor2_dumps pk) nonce master = Ok ciphertext
    ∧ decrypt_merged (nonce ++ ciphertext) master false = Ok (cbor2_dumps pk)
    ∧ let inserted :=
        wallet_insert_profile wallets wallet name (nonce ++ ciphertext) (world s) in
      r = Run (Some (inserted.1 ;; Ok pk))
              (State inserted.2
                 {| tape := tape (rng s);
                    cursor := cursor (rng s) + CHACHAPOLY_NONCE_LEN |})
              [EvInsertProfile wallet name (nonce ++ ciphertext) inserted.1].

(** ** Notions for the properties of the remaining code *)

(** The re-keyed tag [t'] opens to the tag [t] under the profile key: the
    flag is kept, the name decrypts under the tag-name key, the value of an
    encrypted tag under the tag-value key, and the value of a plaintext tag
    is the same. *)
Definition tag_opens `{L : Library} (key : profile_key) (t t' : tag) : Prop :=
  t'.1.1 = t.1.1
  ∧ decrypt_merged t'.1.2 (tnk key) false = Ok t.1.2
  ∧ (if t.1.1 then t'.2 = t.2
     else ∃ v v', t.2 = TagBytes v ∧ t'.2 = TagBytes v'
                  ∧ decrypt_merged v' (tvk key) false = Ok v).

(** An item as [decrypt_item] gives it for a row with a value, an encrypted
    tag and a plaintext tag. *)
Definition example_item : item :=
  {| item_id := 7; item_type := [x74]; item_name := [x6e];
     item_value := Some [x76];
     item_tags := [(false, [x6b], TagBytes [x77]); (true, [x70], TagStr "1")] |}.

(** A pending row whose value column is NULL. *)
Definition example_row_without_value : row :=
  {| row_id := 3;
     row_type := example_sealed [x74];
     row_name := example_sealed [x6e];
     row_value := None;
     row_key := example_sealed example_key;
     tags_enc := None;
     tags_plain := None |}.

(** An encrypted-tag string with two tags, as the database gives it: for
    each tag the hexadecimal forms of the sealed name and of the sealed
    value, under the key of 32 bytes [0x2a] of the stand-in library. *)
Definition example_enc_tags : string :=
  "A1B2C3D4E5F60718293A4B5C6E2A2A2A2A2A2A2A2A2A2A2A2A2A2A2A2A:000000000000000000000000762a2a2a2a2a2a2a2a2a2a2a2a2a2a2a2a,0000000000000000000000006b2a2a2a2a2a2a2a2a2a2a2a2a2a2a2a2a:000000000000000000000000772a2a2a2a2a2a2a2a2a2a2a2a2a2a2a2a".

(** The names under which [fetch_indy_key] stores the keys of the unpacked
    key list, in the order of the list. *)
Definition indy_key_names : list string :=
  ["type"; "name"; "value"; "item_hmac"; "tag_name"; "tag_value"; "tag_hmac"].

(** The keys that [init_profile] reads from the keys of a wallet. *)
Definition profile_key_names : list string :=
  ["type"; "name"; "item_hmac"; "tag_name"; "tag_value"; "tag_hmac"].

(** The characters that [str.encode("ascii")] accepts. *)
Definition is_ascii_char (c : ascii) : bool := bool_decide (N_of_ascii c < 128)%N.

Section conversion_notions.
Context {World Wallet AskarKey : Type}.
Local Abbreviation event := (event (Wallet := Wallet) (AskarKey := AskarKey)).
Local Abbreviation M := (M (World := World) (Wallet := Wallet) (AskarKey := AskarKey)).
Local Abbreviation run := (run (World := World) (Wallet := Wallet) (AskarKey := AskarKey)).

Definition is_store_open (e : event) : Prop :=
  match e with EvStoreOpen _ _ _ _ => True | _ => False end.

Definition is_store_close (e : event) : Prop :=
  match e with EvStoreClose _ => True | _ => False end.

(** How a run that has opened the store goes on: when it ends normally, its
    last calls are the print of "Closing wallet" and a [close] of the store
    that succeeded, and it has not called [close] before; when it raises,
    either it has not called [close] at all, or its last call is the [close]
    that raised; when it is cut off, it has not called [close]. *)
Definition closes_at_the_end {A} (r : run A) : Prop :=
  match result r with
  | Some (Ok _) =>
      ∃ t, events r = t ++ [EvPrint ("Closing wallet" +:+ newline); EvStoreClose (Ok tt)]
           ∧ Forall (λ e, ¬ is_store_close e) t
  | Some (Raise e) =>
      Forall (λ e, ¬ is_store_close e) (events r)
      ∨ ∃ t, events r = t ++ [EvPrint ("Closing wallet" +:+ newline);
                               EvStoreClose (Raise e)]
             ∧ Forall (λ e, ¬ is_store_close e) t
  | None => Forall (λ e, ¬ is_store_close e) (events r)
  end.

End conversion_notions.

Section transaction_notions.
Context {World Wallet AskarKey : Type}.
Local Abbreviation event := (event (Wallet := Wallet) (AskarKey := AskarKey)).
Local Abbreviation M := (M (World := World) (Wallet := Wallet) (AskarKey := AskarKey)).

(** Where a run of the conversion stands with respect to the transactions of
    the store: outside of any, inside one, or inside one that has been
    committed. *)
Inductive txn_phase := Outside | Inside | Committed.

(** The calls that the conversion may make in each phase, and the phase they
    lead to. A transaction is entered from outside; entries are fetched,
    removed and inserted inside a transaction only; after a commit the
    transaction can only be left; prints and the opening and closing of the
    store happen outside. *)
Definition txn_step (p : txn_phase) (e : event) : option txn_phase :=
  match e with
  | EvTransaction (Ok _) =>
      match p with Outside => Some Inside | _ => None end
  | EvTransaction (Raise _) =>
      match p with Outside => Some Outside | _ => None end
  | EvFetchAll _ _ _ | EvFetch _ _ _ | EvRemove _ _ _ | EvInsert _ _ _ _ _
  | EvInsertKey _ _ _ _ =>
      match p with Inside => Some Inside | _ => None end
  | EvCommit _ =>
      match p with Inside => Some Committed | _ => None end
  | EvTransactionExit _ =>
      match p with Inside | Committed => Some Outside | Outside => None end
  | EvPrint _ | EvStoreOpen _ _ _ _ | EvStoreClose _ =>
      match p with Outside => Some Outside | _ => None end
  | _ => None
  end.

Fixpoint txn_run (p : txn_phase) (t : list event) : option txn_phase :=
  match t with
  | [] => Some p
  | e :: t => q ← txn_step p e; txn_run q t
  end.

(** A computation that, run outside of a transaction, follows the
    discipline and ends outside of a transaction. *)
Definition stays_outside {A} (m : M A) : Prop :=
  ∀ s, txn_run Outside (events (m s)) = Some Outside.

(** A computation that, run inside a transaction, only works on entries:
    it ends, and the transaction is still open and not committed. *)
Definition works_on_entries {A} (m : M A) : Prop :=
  ∀ s, result (m s) ≠ None ∧ txn_run Inside (events (m s)) = Some Inside.

(** A computation that, run inside a transaction, works on entries and may
    commit as its last call. *)
Definition may_commit {A} (m : M A) : Prop :=
  ∀ s, result (m s) ≠ None
       ∧ ∃ q, txn_run Inside (events (m s)) = Some q ∧ q ≠ Outside.

End transaction_notions.

Section schema_id_notions.
Context {World Wallet AskarKey : Type}.
Local Abbreviation event := (event (Wallet := Wallet) (AskarKey := AskarKey)).
Local Abbreviation run := (run (World := World) (Wallet := Wallet) (AskarKey := AskarKey)).

(** A fetch of the schema identifier of a credential definition that finds
    none. *)
Definition is_missing_schema_id (e : event) : Prop :=
  match e with
  | EvFetch category _ (Ok None) => category = "Indy::SchemaId"
  | _ => False
  end.

Definition schema_id_not_found (name : string) : pyexc :=
  PyException ("Schema ID not found for credential definition: " +:+ name).

(** Inside a transaction: either no schema identifier was found missing, or
    the run raised right after the first one that was, the call before being
    the removal of the credential definition. *)
Definition stops_in_transaction {A} (r : run A) : Prop :=
  Forall (λ e, ¬ is_missing_schema_id e) (events r)
  ∨ ∃ t name,
      events r = t ++ [EvRemove "Indy::CredentialDefinition" name (Ok tt);
                       EvFetch "Indy::SchemaId" name (Ok None)]
      ∧ Forall (λ e, ¬ is_missing_schema_id e) t
      ∧ result r = Some (Raise (schema_id_not_found name)).

(** The same for runs made of transactions: the transaction is left after
    the fetch, and the run raises. *)
Definition stops_after_transaction {A} (r : run A) : Prop :=
  Forall (λ e, ¬ is_missing_schema_id e) (events r)
  ∨ ∃ t name x,
      events r = t ++ [EvRemove "Indy::CredentialDefinition" name (Ok tt);
                       EvFetch "Indy::SchemaId" name (Ok None);
                       EvTransactionExit x]
      ∧ Forall (λ e, ¬ is_missing_schema_id e) t
      ∧ result r = Some (Raise (match x with
                                | Ok _ => schema_id_not_found name
                                | Raise e => e
                                end)).

End schema_id_notions.

(** A credential definition of the legacy store. *)
Definition example_cred_def_entry : entry :=
  {| entry_category := "Indy::CredentialDefinition"; entry_name := "cd-1";
     entry_value := [x7b; x7d]; entry_tags := ∅ |}.

Section category_notions.
Context {Wallet AskarKey : Type}.
Local Abbreviation event := (event (Wallet := Wallet) (AskarKey := AskarKey)).

(** The categories of the legacy store start with ["Indy::"]. *)
Definition is_legacy_category (category : string) : bool :=
  String.prefix "Indy::" category.

(** The categories under which the conversion stores entries. *)
Definition askar_categories : list string :=
  ["master_secret"; "did"; "schema"; "credential_def"; "credential_def_private";
   "credential_def_key_proof"; "revocation_reg_def"; "revocation_reg_def_private";
   "revocation_reg"; "revocation_reg_info"; "credential"].

(** A call of the conversion that reads or removes entries does so in a
    legacy category, a fetch of several entries asks for 50 at most (for all
    of them in the category of the master secrets), and an insert goes to
    one of the new categories. *)
Definition respects_categories (e : event) : Prop :=
  match e with
  | EvFetchAll category limit _ =>
      is_legacy_category category = true
      ∧ (limit = Some 50 ∨ limit = None ∧ category = "Indy::MasterSecret")
  | EvFetch category _ _ | EvRemove category _ _ =>
      is_legacy_category category = true
  | EvInsert category _ _ _ _ => category ∈ askar_categories
  | _ => True
  end.

End category_notions.

Section open_notions.
Context {World Wallet AskarKey : Type}.
Local Abbreviation event := (event (Wallet := Wallet) (AskarKey := AskarKey)).
Local Abbreviation run := (run (World := World) (Wallet := Wallet) (AskarKey := AskarKey)).

(** The pass key and the profile of a call that opens the store. *)
Definition open_args (e : event) : option (string * option string) :=
  match e with
  | EvStoreOpen _ pass_key profile _ => Some (pass_key, profile)
  | _ => None
  end.

(** The run opens the store with the pass keys and profiles [args], in this
    order: with all of them when it ends normally, with the first ones
    otherwise. *)
Definition opens_with {A} (args : list (string * option string)) (r : run A) : Prop :=
  omap open_args (events r) `prefix_of` args
  ∧ (∀ a, result r = Some (Ok a) → omap open_args (events r) = args).

End open_notions.

Section payload_notions.
Context {World Wallet AskarKey : Type}.
Local Abbreviation event := (event (Wallet := Wallet) (AskarKey := AskarKey)).
Local Abbreviation M := (M (World := World) (Wallet := Wallet) (AskarKey := AskarKey)).

(** The entry [x] was returned by a fetch among the calls [t]. *)
Definition fetched (x : entry) (t : list event) : Prop :=
  (∃ category limit rows, EvFetchAll category limit (Ok rows) ∈ t ∧ x ∈ rows)
  ∨ (∃ category name, EvFetch category name (Ok (Some x)) ∈ t).

(** An insert under [category] and [name] of the payload [b] carries the
    entry [x] over: the payload is that of [x], and so is the name, except
    for the master secret, which is stored under the name ["default"]. *)
Definition carries (category name : string) (b : bytes) (x : entry) : Prop :=
  b = entry_value x
  ∧ (name = entry_name x ∨ category = "master_secret" ∧ name = "default").

(** Every insert of a binary payload among the calls [t] carries over an
    entry that was fetched before it (or that is one of [avail]). *)
Definition payloads_carried_over (avail : list entry) (t : list event) : Prop :=
  ∀ t1 category name b tags r t2,
    t = t1 ++ EvInsert category name (Value b) tags r :: t2 →
    ∃ x, (x ∈ avail ∨ fetched x t1) ∧ carries category name b x.

Definition is_payload_insert (e : event) : Prop :=
  match e with EvInsert _ _ (Value _) _ _ => True | _ => False end.

Definition carries_over {A} (avail : list entry) (m : M A) : Prop :=
  ∀ s, payloads_carried_over avail (events (m s)).

End payload_notions.


Section count_notions.
Context {World Wallet AskarKey : Type}.
Local Abbreviation event := (event (Wallet := Wallet) (AskarKey := AskarKey)).
Local Abbreviation M := (M (World := World) (Wallet := Wallet) (AskarKey := AskarKey)).
Local Abbreviation run := (run (World := World) (Wallet := Wallet) (AskarKey := AskarKey)).

(** The removals from the category [legacy] among the calls [t], and their
    number. *)
Definition is_removal_from (legacy : string) (e : event) : bool :=
  match e with
  | EvRemove category _ _ => bool_decide (category = legacy)
  | _ => false
  end.

Definition count_removals (legacy : string) (t : list event) : nat :=
  length (filter (λ e, Is_true (is_removal_from legacy e)) t).

(** A run that ends normally has printed [label], made calls [t], and
    printed as last thing the number of removals from [legacy] in [t]. *)
Definition reports_count (label legacy : string) (r : run unit) : Prop :=
  result r = Some (Ok tt) →
  ∃ t, events r
       = EvPrint label :: t
         ++ [EvPrint (" " +:+ pretty (count_removals legacy t) +:+ " updated" +:+ newline)].

(** When [m] ends normally, the counter that its result holds is [a] plus
    the number of removals from [legacy] that [m] made. *)
Definition tallies {A} (legacy : string) (get : A → nat) (a : nat) (m : M A) : Prop :=
  ∀ s x, result (m s) = Some (Ok x) →
         get x = a + count_removals legacy (events (m s)).

End count_notions.

(** A schema of the legacy store. *)
Definition example_schema_entry (name : string) : entry :=
  {| entry_category := "Indy::Schema"; entry_name := name;
     entry_value := [x7b; x7d]; entry_tags := ∅ |}.

(** The re-keyed record [u] opens under the profile key [key] to the item
    [it]: same id, the category and the name decrypt to the type and the
    name of the item, the value decrypts to the value of the item under the
    HMAC of the length-prefixed type and name, and the tags open one by
    one. *)
Definition item_opens `{L : Library} (key : profile_key) (it : item) (u : enc_item)
    : Prop :=
  upd_id u = item_id it
  ∧ decrypt_merged (upd_category u) (ick key) false = Ok (item_type it)
  ∧ decrypt_merged (upd_name u) (ink key) false = Ok (item_name it)
  ∧ (∃ value len_type len_name,
       item_value it = Some value
       ∧ to_bytes_4_big (length (item_type it)) = Ok len_type
       ∧ to_bytes_4_big (length (item_name it)) = Ok len_name
       ∧ decrypt_merged (upd_value u)
           (hmac_sha256 (ihk key)
              (len_type ++ item_type it ++ len_name ++ item_name it)) false
         = Ok value)
  ∧ Forall2 (tag_opens key) (item_tags it) (upd_tags u).

Section sealing_notions.
Context `{L : Library} {Wallet AskarKey : Type}.
Local Abbreviation event := (event (Wallet := Wallet) (AskarKey := AskarKey)).

(** The configuration call holds the salt [salt] in its pass key. *)
Definition configures_salt (salt : bytes) (e : event) : Prop :=
  match e with
  | EvCreateConfig _ key _ => key = "kdf:argon2i:13:mod?salt=" +:+ hex salt
  | _ => True
  end.

(** The profile key that the call inserts is a 12-byte nonce followed by
    the serialization of a profile key sealed with that nonce under
    [master]. *)
Definition seals_under (master : bytes) (e : event) : Prop :=
  match e with
  | EvInsertProfile _ _ enc_pk _ =>
      ∃ nonce ciphertext pk,
        enc_pk = nonce ++ ciphertext
        ∧ length nonce = CHACHAPOLY_NONCE_LEN
        ∧ aead_encrypt (cbor2_dumps pk) nonce master = Ok ciphertext
  | _ => True
  end.

Definition is_config_or_profile (e : event) : Prop :=
  match e with
  | EvCreateConfig _ _ _ | EvInsertProfile _ _ _ _ => True
  | _ => False
  end.

(** Among the calls [t], either there is no configuration and no profile
    key, or every configuration holds one salt, and every profile key is
    sealed under the Argon2i key of 32 bytes derived from [wallet_key] and
    that salt. *)
Definition config_opens_profiles (wallet_key : string) (t : list event) : Prop :=
  Forall (λ e, ¬ is_config_or_profile e) t
  ∨ ∃ salt password master,
      encode_ascii wallet_key = Ok password
      ∧ argon2i_kdf_moderate CHACHAPOLY_KEY_LEN password salt = Ok master
      ∧ Forall (λ e, configures_salt salt e ∧ seals_under master e) t.

End sealing_notions.

Section rerun_notions.
Context {World Wallet AskarKey : Type}.
Local Abbreviation event := (event (Wallet := Wallet) (AskarKey := AskarKey)).
Local Abbreviation M := (M (World := World) (Wallet := Wallet) (AskarKey := AskarKey)).

(** A fetch of the entries of a category that finds none, or any other
    call. *)
Definition finds_nothing (e : event) : Prop :=
  match e with
  | EvFetchAll _ _ (Ok rows) => rows = []
  | _ => True
  end.

(** The calls that change the store. *)
Definition is_store_write (e : event) : Prop :=
  match e with
  | EvRemove _ _ _ | EvInsert _ _ _ _ _ | EvInsertKey _ _ _ _ | EvCommit _ => True
  | _ => False
  end.

(** A computation that changes nothing as long as its fetches of whole
    categories find nothing. *)
Definition idle_on_empty {A} (m : M A) : Prop :=
  ∀ s, Forall finds_nothing (events (m s)) →
       Forall (λ e, ¬ is_store_write e) (events (m s)).

End rerun_notions.

Section order_notions.
Context {World Wallet AskarKey : Type}.
Local Abbreviation event := (event (Wallet := Wallet) (AskarKey := AskarKey)).
Local Abbreviation M := (M (World := World) (Wallet := Wallet) (AskarKey := AskarKey)).

(** The steps of [DbpwStrategy.run], numbered in the order of the
    statements of the method; the prints and the calls to the Askar store
    belong to the conversion, the last step. *)
Definition dbpw_step (e : event) : nat :=
  match e with
  | EvConnect _ => 0
  | EvGetWallet _ _ => 1
  | EvPreUpgrade _ => 2
  | EvGetMetadata _ _ => 3
  | EvCreateConfig _ _ _ => 4
  | EvInsertProfile _ _ _ _ => 5
  | EvFetchPendingItems _ _ _ | EvUpdateItems _ _ _ => 6
  | EvFinishUpgrade _ => 7
  | EvClose _ => 8
  | _ => 9
  end.

(** The steps of [MwstAsProfilesStrategy.run]: the calls that read and
    re-key the wallets, which the loop over the wallets repeats, are one
    step. *)
Definition mwst_step (e : event) : nat :=
  match e with
  | EvConnect _ => 0
  | EvPreUpgrade _ => 1
  | EvGetWallet _ _ | EvGetMetadata _ _ | EvCreateConfig _ _ _
  | EvInsertProfile _ _ _ _ | EvFetchPendingItems _ _ _ | EvUpdateItems _ _ _ => 2
  | EvFinishUpgrade _ => 3
  | EvClose _ => 4
  | _ => 5
  end.

(** The calls are made in the order of the step numbers that [step] gives
    them. *)
Definition steps_in_order (step : event → nat) (t : list event) : Prop :=
  StronglySorted le (step <$> t).

(** A computation whose calls are in the order of their steps, all between
    the steps [lo] and [hi]. *)
Definition in_order (step : event → nat) (lo hi : nat) {A} (m : M A) : Prop :=
  ∀ s, steps_in_order step (events (m s)) ∧
       Forall (λ e, lo ≤ step e ≤ hi) (events (m s)).

End order_notions.

Section metadata_notions.
Context `{L : Library} {World Wallet AskarKey : Type}.
Local Abbreviation event := (event (Wallet := Wallet) (AskarKey := AskarKey)).
Local Abbreviation M := (M (World := World) (Wallet := Wallet) (AskarKey := AskarKey)).

(** The metadata of a converted DID, given what the fetch of its metadata
    entry found: null when there is no entry; otherwise the ["value"] of the
    entry, a string, decoded when it is JSON text and kept as it is when it
    is not. *)
Definition did_metadata_of (found : option entry) (metadata : json) : Prop :=
  match found with
  | None => metadata = JNull
  | Some meta =>
      ∃ j text,
        json_loads_bytes (entry_value meta) = Ok j
        ∧ json_getitem j "value" = Ok (JStr text)
        ∧ (json_loads text = Ok metadata
           ∨ json_loads text = Raise JSONDecodeError ∧ metadata = JStr text)
  end.

(** The metadata of a converted key: none when there is no entry, otherwise
    the ["value"] of the entry, as it is. *)
Definition key_metadata_of (found : option entry) (metadata : option json) : Prop :=
  match found with
  | None => metadata = None
  | Some meta =>
      ∃ j value,
        json_loads_bytes (entry_value meta) = Ok j
        ∧ json_getitem j "value" = Ok value
        ∧ metadata = Some value
  end.

(** The insert [e] of a [did] record or of a key takes its metadata from
    a fetch, among the calls [before], of the metadata entry of the same
    name. *)
Definition metadata_fetched (before : list event) (e : event) : Prop :=
  match e with
  | EvInsert category name value _ _ =>
      category = "did" →
      ∃ found did verkey metadata,
        EvFetch "Indy::DidMetadata" name (Ok found) ∈ before
        ∧ did_metadata_of found metadata
        ∧ value = ValueJson (JObj [("did", did); ("verkey", verkey);
                                   ("metadata", metadata)])
  | EvInsertKey name _ metadata _ =>
      ∃ found,
        EvFetch "Indy::KeyMetadata" name (Ok found) ∈ before
        ∧ key_metadata_of found metadata
  | _ => True
  end.

(** Every insert of a [did] record or of a key among the calls [t] takes
    its metadata from a fetch made before it (or among [known]). *)
Definition metadata_from_fetches (known t : list event) : Prop :=
  ∀ t1 e t2, t = t1 ++ e :: t2 → metadata_fetched (known ++ t1) e.

Definition is_metadata_record (e : event) : Prop :=
  match e with
  | EvInsert category _ _ _ _ => category = "did"
  | EvInsertKey _ _ _ _ => True
  | _ => False
  end.

Definition keeps_metadata {A} (known : list event) (m : M A) : Prop :=
  ∀ s, metadata_from_fetches known (events (m s)).

End metadata_notions.

(** ** Notions for the steps that precede [finish_upgrade] *)

(** The wallet key [wallet_key] unlocks the metadata [metadata_json] of a
    wallet to the keys [keys]: the metadata holds the sealed key list and the
    salt, the Argon2i key of the wallet key and of the first 16 bytes of the
    salt opens the key list, and [keys] holds the keys of the list under
    their names, that master key and that salt. *)
Definition unlocks `{L : Library} (wallet_key metadata_json : string)
    (keys : gmap string bytes) : Prop :=
  ∃ metadata keys_enc salt password master_key keys_mpk keys_lst,
    json_loads metadata_json = Ok metadata
    ∧ json_getitem metadata "keys" ≫= py_bytes = Ok keys_enc
    ∧ json_getitem metadata "master_key_salt" ≫= py_bytes = Ok salt
    ∧ encode_ascii wallet_key = Ok password
    ∧ argon2i_kdf_moderate CHACHAPOLY_KEY_LEN password (take 16 salt) = Ok master_key
    ∧ decrypt_merged keys_enc master_key false = Ok keys_mpk
    ∧ msgpack_unpackb keys_mpk = Ok keys_lst
    ∧ keys !! "master" = Some master_key
    ∧ keys !! "salt" = Some (take 16 salt)
    ∧ (∀ i name, indy_key_names !! i = Some name → keys !! name = keys_lst !! i).

Section completed_steps.
Context `{L : Library} {World Wallet AskarKey : Type}.
Variable wallets : WalletOps (World := World) (Wallet := Wallet).
Local Abbreviation event := (event (Wallet := Wallet) (AskarKey := AskarKey)).

(** The calls [t] are those of the steps of [DbpwStrategy.run] up to the
    re-key loop, all completed: the connection was made and gave the wallet,
    the pre-upgrade mark was set, the metadata of the wallet was read and
    the wallet key unlocked it, the configuration was created with the salt
    of the unlocked keys, the profile key made of these keys was inserted,
    and the re-key loop ran its rounds up to the fetch that returns no row.
    Every call succeeded. *)
Definition dbpw_steps_completed (self : DbpwStrategy) (t : list event) : Prop :=
  ∃ wallet metadata_json indy_key salt pk enc_pk items,
    t = [EvConnect (Ok tt); EvGetWallet None (Ok wallet); EvPreUpgrade (Ok tt);
         EvGetMetadata wallet (Ok metadata_json);
         EvCreateConfig (dbpw_wallet_name self)
           ("kdf:argon2i:13:mod?salt=" +:+ hex salt) (Ok tt);
         EvInsertProfile wallet (dbpw_wallet_name self) enc_pk (Ok tt)] ++ items
    ∧ unlocks (dbpw_wallet_key self) metadata_json indy_key
    ∧ indy_key !! "salt" = Some salt
    ∧ copies_keys indy_key pk
    ∧ rekey_rounds wallet indy_key pk (wallet_is_pg wallets wallet) items.

(** The calls [t] are those of one turn of the loop of
    [MwstAsProfilesStrategy.run] over the wallets, completed for the wallet
    named [wk.1] with the key [wk.2]: the wallet was given, its metadata
    read and unlocked, its profile key inserted under its name, and its
    re-key loop ran up to the fetch that returns no row. *)
Definition mwst_wallet_completed (wk : string * string) (t : list event) : Prop :=
  ∃ wallet metadata_json indy_key pk enc_pk items,
    t = [EvGetWallet (Some wk.1) (Ok wallet);
         EvGetMetadata wallet (Ok metadata_json);
         EvInsertProfile wallet wk.1 enc_pk (Ok tt)] ++ items
    ∧ unlocks wk.2 metadata_json indy_key
    ∧ copies_keys indy_key pk
    ∧ rekey_rounds wallet indy_key pk (wallet_is_pg wallets wallet) items.

(** The calls [t] are those of the steps of [MwstAsProfilesStrategy.run] up
    to the end of the loop over the wallets, all completed: connection,
    pre-upgrade mark, the base wallet given and unlocked with the base wallet
    key, the configuration created with its salt, and then one completed
    turn for every wallet of [wallet_keys], in their order. *)
Definition mwst_steps_completed (self : MwstAsProfilesStrategy) (t : list event)
    : Prop :=
  ∃ base_wallet metadata_json base_indy_key salt turns,
    t = [EvConnect (Ok tt); EvPreUpgrade (Ok tt);
         EvGetWallet (Some (base_wallet_name self)) (Ok base_wallet);
         EvGetMetadata base_wallet (Ok metadata_json);
         EvCreateConfig (base_wallet_name self)
           ("kdf:argon2i:13:mod?salt=" +:+ hex salt) (Ok tt)] ++ concat turns
    ∧ unlocks (base_wallet_key self) metadata_json base_indy_key
    ∧ base_indy_key !! "salt" = Some salt
    ∧ Forall2 mwst_wallet_completed (wallet_keys self) turns.

End completed_steps.

(** ** Notions for what the re-key loop writes back *)

(** The pieces of a tag column of a row, those of [tags.split(",")]; a
    column that is NULL or empty has none. *)
Definition tag_pieces (tags : option string) : list string :=
  if str_truthy tags then split "," (default "" tags) else [].

Section rekeyed_notions.
Context `{L : Library}.
Variable keys : gmap string bytes.
Variable pk : profile_key.

(** The written tag [t'] is the encrypted tag [piece] of a row, re-keyed:
    the two hexadecimal halves of the piece open under the legacy tag-name
    and tag-value keys to a name and a value, and [t'] is flagged encrypted
    and holds a name and a value that open to the same name and value under
    the tag-name and tag-value keys of the profile key. *)
Definition enc_tag_rekeyed (piece : string) (t' : tag) : Prop :=
  ∃ hex_name hex_value enc_name enc_value k_tag_name k_tag_value name value
    new_name new_value,
    piece = hex_name +:+ ":" +:+ hex_value
    ∧ fromhex hex_name = Ok enc_name
    ∧ fromhex hex_value = Ok enc_value
    ∧ keys !! "tag_name" = Some k_tag_name
    ∧ keys !! "tag_value" = Some k_tag_value
    ∧ decrypt_merged enc_name k_tag_name false = Ok name
    ∧ decrypt_merged enc_value k_tag_value false = Ok value
    ∧ t' = (false, new_name, TagBytes new_value)
    ∧ decrypt_merged new_name (tnk pk) false = Ok name
    ∧ decrypt_merged new_value (tvk pk) false = Ok value.

(** The written tag [t'] is the plaintext tag [piece] of a row, as the loop
    writes it: the name half of the piece opens under the legacy tag-name key
    to a name, [t'] is flagged plaintext and holds a name that opens to the
    same name under the tag-name key of the profile key; its value is not
    the value half of the piece but the one character at index 1 of the
    piece. *)
Definition plain_tag_rekeyed (piece : string) (t' : tag) : Prop :=
  ∃ hex_name hex_value enc_name k_tag_name name new_name c,
    piece = hex_name +:+ ":" +:+ hex_value
    ∧ fromhex hex_name = Ok enc_name
    ∧ keys !! "tag_name" = Some k_tag_name
    ∧ decrypt_merged enc_name k_tag_name false = Ok name
    ∧ t' = (true, new_name, TagStr (String c ""))
    ∧ decrypt_merged new_name (tnk pk) false = Ok name
    ∧ String.get 1 piece = Some c.

(** The written item [u] is the row [r] re-encrypted: it has the id of the
    row; its category and its name open under the profile key to what the
    type and the name of the row open to under the legacy keys ([b64] says
    whether these two columns are base64 text); its value opens, under the
    HMAC of the length-prefixed type and name keyed with the item-HMAC key of
    the profile key, to what the value of the row opens to under the value
    key of the row, itself opened with the legacy value key; and its tags
    are the encrypted tags of the row re-keyed, followed by its plaintext
    tags. *)
Definition row_rekeyed (b64 : bool) (r : row) (u : enc_item) : Prop :=
  upd_id u = row_id r
  ∧ (∃ k_type k_name k_value type name value_key enc_value value len_type len_name,
       keys !! "type" = Some k_type
       ∧ keys !! "name" = Some k_name
       ∧ keys !! "value" = Some k_value
       ∧ decrypt_merged (row_type r) k_type b64 = Ok type
       ∧ decrypt_merged (upd_category u) (ick pk) false = Ok type
       ∧ decrypt_merged (row_name r) k_name b64 = Ok name
       ∧ decrypt_merged (upd_name u) (ink pk) false = Ok name
       ∧ decrypt_merged (row_key r) k_value false = Ok value_key
       ∧ row_value r = Some enc_value
       ∧ decrypt_merged enc_value value_key false = Ok value
       ∧ to_bytes_4_big (length type) = Ok len_type
       ∧ to_bytes_4_big (length name) = Ok len_name
       ∧ decrypt_merged (upd_value u)
           (hmac_sha256 (ihk pk) (len_type ++ type ++ len_name ++ name)) false
         = Ok value)
  ∧ ∃ enc_tags plain_tags,
      upd_tags u = enc_tags ++ plain_tags
      ∧ Forall2 enc_tag_rekeyed (tag_pieces (tags_enc r)) enc_tags
      ∧ Forall2 plain_tag_rekeyed (tag_pieces (tags_plain r)) plain_tags.

End rekeyed_notions.

(** A pending row with two encrypted tags and a plaintext tag. *)
Definition example_tagged_row (id : Z) : row :=
  {| row_id := id;
     row_type := example_sealed [x74];
     row_name := example_sealed [x6e];
     row_value := Some (example_sealed [x76]);
     row_key := example_sealed example_key;
     tags_enc := Some example_enc_tags;
     tags_plain := Some example_plain_tags |}.

(** * Properties *)

(** ** The stand-in library meets the contract *)

Lemma toy_library_contract parse parse_bytes :
  LibraryContract (toy_library parse parse_bytes).
Proof.
  split.
  - intros message nonce key Hn Hk. exists (message ++ take CHACHAPOLY_TAG_LEN key).
    assert (Ht : length (take CHACHAPOLY_TAG_LEN key) = CHACHAPOLY_TAG_LEN).
    { rewrite length_take, Hk. reflexivity. }
    assert (Hs : toy_sizes_ok nonce key = true).
    { unfold toy_sizes_ok. apply bool_decide_eq_true. done. }
    cbn [aead_encrypt aead_decrypt toy_library]. rewrite Hs.
    split; [done|]. split; [by rewrite length_app, Ht|].
    rewrite length_app, Ht.
    replace (length message + CHACHAPOLY_TAG_LEN - CHACHAPOLY_TAG_LEN)
      with (length message) by lia.
    rewrite drop_app_length, take_app_length.
    rewrite bool_decide_eq_true_2; [done|]. split; [lia|done].
  - intros key msg. cbn [hmac_sha256 toy_library].
    rewrite length_take, !length_app, length_replicate. lia.
Qed.

(** ** Basic facts about the codec *)

Lemma exc_mapM_Forall2 {A B} (f : A → exc B) l l' :
  exc_mapM f l = Ok l' → Forall2 (λ x y, f x = Ok y) l l'.
Proof.
  revert l'. induction l as [|x l IH]; intros l' H; simpl in H.
  - injection H as <-. constructor.
  - unfold mbind, exc_bind in H. destruct (f x) as [y|] eqn:Hy; [|done].
    destruct (exc_mapM f l) as [ys|]; [|done]. injection H as <-.
    constructor; [done|]. by apply IH.
Qed.

Lemma byte_of_N_to_N n : Byte.to_N (byte_of_N n) = (n mod 256)%N.
Proof.
  unfold byte_of_N. apply Byte.to_of_N. rewrite byte_of_ascii_via_N.
  rewrite N_ascii_embedding; [done|]. apply N.mod_upper_bound. done.
Qed.

Lemma four_bytes_big_endian (z : Z) :
  (0 ≤ z < 4294967296)%Z →
  ((((0 * 256 + (z / 16777216) mod 256) * 256 + (z / 65536) mod 256) * 256
    + (z / 256) mod 256) * 256 + z mod 256 = z)%Z.
Proof.
  intros H.
  replace (z / 65536)%Z with (z / 256 / 256)%Z
    by (rewrite Z.div_div by lia; reflexivity).
  replace (z / 16777216)%Z with (z / 256 / 256 / 256)%Z
    by (rewrite !Z.div_div by lia; reflexivity).
  pose proof (Z.div_mod z 256 ltac:(lia)).
  pose proof (Z.div_mod (z / 256) 256 ltac:(lia)).
  pose proof (Z.div_mod (z / 256 / 256) 256 ltac:(lia)).
  pose proof (Z.mod_pos_bound z 256 ltac:(lia)).
  pose proof (Z.mod_pos_bound (z / 256) 256 ltac:(lia)).
  pose proof (Z.mod_pos_bound (z / 256 / 256) 256 ltac:(lia)).
  rewrite (Z.mod_small (z / 256 / 256 / 256) 256) by lia.
  lia.
Qed.

Lemma to_bytes_4_big_spec n :
  (N.of_nat n < 2 ^ 32)%N →
  ∃ b, to_bytes_4_big n = Ok b ∧ length b = 4 ∧ big_endian b = N.of_nat n.
Proof.
  intros Hn. unfold to_bytes_4_big. cbv zeta.
  destruct (decide (N.of_nat n < 2 ^ 32)%N) as [_|]; [|done].
  eexists; split; [done|]. split; [done|].
  unfold big_endian. cbn [foldl]. rewrite !byte_of_N_to_N.
  set (v := N.of_nat n) in *.
  change (2 ^ 24)%N with 16777216%N. change (2 ^ 16)%N with 65536%N.
  change (2 ^ 8)%N with 256%N. change (2 ^ 32)%N with 4294967296%N in Hn.
  apply N2Z.inj.
  repeat (rewrite N2Z.inj_add || rewrite N2Z.inj_mul || rewrite N2Z.inj_mod
          || rewrite N2Z.inj_div).
  set (z := Z.of_N v). assert (0 ≤ z < 4294967296)%Z by (subst z; lia).
  change (Z.of_N 0) with 0%Z. change (Z.of_N 256) with 256%Z.
  change (Z.of_N 65536) with 65536%Z. change (Z.of_N 16777216) with 16777216%Z.
  by apply four_bytes_big_endian.
Qed.

Section codec_facts.
Context `{L : Library}.

(** With a non-empty HMAC key [encrypt_merged] is [det_encrypt] and leaves the
    entropy alone. *)
Lemma encrypt_merged_det message key hmac_key g :
  hmac_key ≠ [] →
  encrypt_merged message key (Some hmac_key) g = (det_encrypt message key hmac_key, g).
Proof.
  intros Hk. destruct hmac_key as [|b k]; [done|].
  unfold encrypt_merged, det_encrypt, mbind, Rand_bind, mret, Rand_ret, rand_lift,
    HMAC_digest, HMAC_new, fmap, exc_fmap. simpl.
  by destruct (aead_encrypt _ _ _).
Qed.

(** Without one (none given, or an empty one) the nonce is the next 12 bytes
    of [os.urandom]. *)
Lemma encrypt_merged_random message key hmac_key g :
  bytes_truthy hmac_key = false →
  let nonce := map (tape g) (seq (cursor g) CHACHAPOLY_NONCE_LEN) in
  encrypt_merged message key hmac_key g =
    ((λ ciphertext, nonce ++ ciphertext) <$> aead_encrypt message nonce key,
     {| tape := tape g; cursor := cursor g + CHACHAPOLY_NONCE_LEN |}).
Proof.
  intros Hk. unfold encrypt_merged, mbind, Rand_bind, mret, Rand_ret, rand_lift,
    os_urandom, fmap, exc_fmap. rewrite Hk. simpl.
  by destruct (aead_encrypt _ _ _).
Qed.

Lemma update_tag_det key t g :
  thk key ≠ [] → update_tag key t g = (det_update_tag key t, g).
Proof.
  intros Hk. destruct t as [[plain k] v].
  unfold update_tag, det_update_tag, mbind, Rand_bind, exc_bind, mret, Rand_ret,
    fmap, Rand_fmap, exc_fmap.
  destruct plain; simpl.
  - rewrite encrypt_merged_det by done. by destruct (det_encrypt k _ _).
  - destruct v as [v|s].
    + rewrite encrypt_merged_det by done. destruct (det_encrypt v _ _); [|done].
      rewrite encrypt_merged_det by done. by destruct (det_encrypt k _ _).
    + unfold encrypt_merged_not_bytes, rand_lift.
      destruct (thk key) as [|b hk] eqn:E; [done|]. done.
Qed.

Lemma update_tags_det key l g :
  thk key ≠ [] →
  rand_mapM (update_tag key) l g = (exc_mapM (det_update_tag key) l, g).
Proof.
  intros Hk. induction l as [|t l IH]; [done|].
  cbn [rand_mapM exc_mapM]. unfold mbind, Rand_bind, exc_bind in *.
  rewrite update_tag_det by done. destruct (det_update_tag key t); [|done].
  rewrite IH. by destruct (exc_mapM _ l).
Qed.

(** A successful [update_item], field by field. *)
Lemma update_item_fields it key g u g' :
  ihk key ≠ [] → thk key ≠ [] →
  update_item it key g = (Ok u, g') →
  upd_id u = item_id it
  ∧ det_encrypt (item_type it) (ick key) (ihk key) = Ok (upd_category u)
  ∧ det_encrypt (item_name it) (ink key) (ihk key) = Ok (upd_name u)
  ∧ encrypt_value (item_type it) (item_name it) (item_value it) (ihk key) g
    = (Ok (upd_value u), g')
  ∧ Forall2 (λ t t', det_update_tag key t = Ok t') (item_tags it) (upd_tags u).
Proof.
  intros Hi Ht. unfold update_item, mbind, Rand_bind.
  rewrite update_tags_det by done.
  destruct (exc_mapM _ _) as [tags|] eqn:Htags; [|done].
  rewrite encrypt_merged_det by done.
  destruct (det_encrypt (item_type it) _ _) as [c|]; [|done].
  rewrite encrypt_merged_det by done.
  destruct (det_encrypt (item_name it) _ _) as [n|]; [|done].
  destruct (encrypt_value _ _ _ _ g) as [[v|] g''] eqn:Hv; [|done].
  unfold mret, Rand_ret. intros [= <- <-]. simpl.
  repeat split; try done. by apply exc_mapM_Forall2.
Qed.

End codec_facts.

Lemma det_update_tag_rekeyed `{L : Library} key t t' :
  det_update_tag key t = Ok t' → tag_rekeyed key t t'.
Proof.
  destruct t as [[plain k] v], t' as [[plain' k'] v'].
  unfold det_update_tag, tag_rekeyed, mbind, exc_bind, fmap, exc_fmap. simpl.
  destruct plain; simpl.
  - destruct (det_encrypt k _ _); [|done]. by intros [= <- <- <-].
  - destruct v as [v|s]; [|done].
    destruct (det_encrypt v _ _) as [w|] eqn:Hw; [|done].
    destruct (det_encrypt k _ _); [|done]. intros [= <- <- <-].
    split; [done|]. split; [done|]. by exists v, w.
Qed.

(** ** The merged-value codec (C1, C2, C3) *)

(** C1: for every message and every 32-byte key, [encrypt_merged] gives
    [nonce ++ ciphertext] with a 12-byte nonce and the AEAD output for that
    nonce (the ciphertext and its 16-byte tag), and [decrypt_merged] with the
    same key gives the message back; this holds whether an HMAC key is
    passed or not. *)
Theorem encrypt_merged_roundtrip {L : Library} {LC : LibraryContract L}
    (message key : bytes) (hmac_key : option bytes) (g : entropy) :
  length key = CHACHAPOLY_KEY_LEN →
  ∃ nonce ciphertext g',
    encrypt_merged message key hmac_key g = (Ok (nonce ++ ciphertext), g')
    ∧ length nonce = CHACHAPOLY_NONCE_LEN
    ∧ aead_encrypt message nonce key = Ok ciphertext
    ∧ length ciphertext = length message + CHACHAPOLY_TAG_LEN
    ∧ decrypt_merged (nonce ++ ciphertext) key false = Ok message.
Proof.
  intros Hk.
  assert (Hopen : ∀ nonce, length nonce = CHACHAPOLY_NONCE_LEN →
    ∃ ciphertext,
      (λ c, nonce ++ c) <$> aead_encrypt message nonce key = Ok (nonce ++ ciphertext)
      ∧ aead_encrypt message nonce key = Ok ciphertext
      ∧ length ciphertext = length message + CHACHAPOLY_TAG_LEN
      ∧ decrypt_merged (nonce ++ ciphertext) key false = Ok message).
  { intros nonce Hn.
    destruct (aead_seal_open message nonce key Hn Hk) as (c & Hc & Hl & Hd).
    exists c. rewrite Hc. repeat split; try done.
    unfold decrypt_merged, mbind, exc_bind.
    by rewrite take_app_length', drop_app_length'. }
  destruct (bytes_truthy hmac_key) eqn:Ht.
  - destruct hmac_key as [[|b k]|]; try done.
    set (nonce := take CHACHAPOLY_NONCE_LEN (hmac_sha256 (b :: k) message)).
    assert (Hn : length nonce = CHACHAPOLY_NONCE_LEN).
    { subst nonce. rewrite length_take, hmac_digest_size.
      unfold CHACHAPOLY_NONCE_LEN. lia. }
    destruct (Hopen nonce Hn) as (c & Hc & ?).
    exists nonce, c, g. split; [|done].
    rewrite encrypt_merged_det by done. unfold det_encrypt. fold nonce. by rewrite Hc.
  - set (nonce := map (tape g) (seq (cursor g) CHACHAPOLY_NONCE_LEN)).
    assert (Hn : length nonce = CHACHAPOLY_NONCE_LEN).
    { subst nonce. by rewrite length_map, length_seq. }
    destruct (Hopen nonce Hn) as (c & Hc & ?).
    exists nonce, c. eexists. split; [|done].
    rewrite encrypt_merged_random by done. cbv zeta. fold nonce. by rewrite Hc.
Qed.

Lemma encrypt_merged_roundtrip_witness :
  ∃ nonce ciphertext g',
    encrypt_merged (L := plain_toy_library) [x68; x69] (replicate 32 x2a)
      (Some [x6b]) (counting_tape 0) = (Ok (nonce ++ ciphertext), g')
    ∧ length nonce = CHACHAPOLY_NONCE_LEN
    ∧ aead_encrypt (Library := plain_toy_library) [x68; x69] nonce (replicate 32 x2a)
      = Ok ciphertext
    ∧ length ciphertext = length [x68; x69] + CHACHAPOLY_TAG_LEN
    ∧ decrypt_merged (L := plain_toy_library) (nonce ++ ciphertext)
        (replicate 32 x2a) false = Ok [x68; x69].
Proof.
  apply (encrypt_merged_roundtrip (LC := toy_library_contract _ _)). reflexivity.
Defined.

(** C2, as the claim states it, fails: with the empty HMAC key [b""] the
    nonce is drawn from [os.urandom], so two calls with the same message, key
    and HMAC key differ. *)
Lemma encrypt_merged_empty_hmac_key_random :
  ¬ (∀ (L : Library) (LC : LibraryContract L) (message key hmac_key : bytes)
       (g1 g2 : entropy),
       (encrypt_merged message key (Some hmac_key) g1).1
       = (encrypt_merged message key (Some hmac_key) g2).1).
Proof.
  intros H.
  specialize (H plain_toy_library (toy_library_contract _ _)
                [x68; x69] (replicate 32 x2a) [] (counting_tape 0) (counting_tape 1)).
  vm_compute in H. discriminate H.
Qed.

(** C2, amended: for every message, key and non-empty HMAC key,
    [encrypt_merged] is deterministic: its nonce is the HMAC-SHA-256 of the
    message under the HMAC key cut to 12 bytes, the entropy is not touched and
    two calls give the same bytes; when no HMAC key or an empty one is
    passed, the nonce is the next 12 bytes of [os.urandom]. [update_item]
    encrypts the category, the name, every tag name and the value of every
    encrypted tag with the item or tag HMAC key, so with non-empty HMAC keys
    they are the deterministic encryptions of their plaintexts. *)
Theorem encrypt_merged_deterministic {L : Library} {LC : LibraryContract L}
    (message key hmac_key : bytes) :
  hmac_key ≠ [] →
  let nonce := take CHACHAPOLY_NONCE_LEN (hmac_sha256 hmac_key message) in
  length nonce = CHACHAPOLY_NONCE_LEN
  ∧ (∀ g, encrypt_merged message key (Some hmac_key) g
          = ((λ ciphertext, nonce ++ ciphertext) <$> aead_encrypt message nonce key, g))
  ∧ (∀ g1 g2, (encrypt_merged message key (Some hmac_key) g1).1
              = (encrypt_merged message key (Some hmac_key) g2).1)
  ∧ (∀ g no_key, no_key = None ∨ no_key = Some [] →
       let random := map (tape g) (seq (cursor g) CHACHAPOLY_NONCE_LEN) in
       (os_urandom CHACHAPOLY_NONCE_LEN g).1 = Ok random
       ∧ length random = CHACHAPOLY_NONCE_LEN
       ∧ encrypt_merged message key no_key g
         = ((λ ciphertext, random ++ ciphertext) <$> aead_encrypt message random key,
            (os_urandom CHACHAPOLY_NONCE_LEN g).2))
  ∧ (∀ it pk g u g',
       ihk pk ≠ [] → thk pk ≠ [] →
       update_item it pk g = (Ok u, g') →
       det_encrypt (item_type it) (ick pk) (ihk pk) = Ok (upd_category u)
       ∧ det_encrypt (item_name it) (ink pk) (ihk pk) = Ok (upd_name u)
       ∧ Forall2 (tag_rekeyed pk) (item_tags it) (upd_tags u)).
Proof.
  intros Hk nonce. split; [|split; [|split; [|split]]].
  - subst nonce. rewrite length_take, hmac_digest_size.
    unfold CHACHAPOLY_NONCE_LEN. lia.
  - intros g. by rewrite encrypt_merged_det.
  - intros g1 g2. by rewrite !encrypt_merged_det.
  - intros g no_key Hno random. split; [done|]. split.
    + subst random. by rewrite length_map, length_seq.
    + apply encrypt_merged_random. by destruct Hno as [-> | ->].
  - intros it pk g u g' Hi Ht Hu.
    destruct (update_item_fields it pk g u g' Hi Ht Hu) as (_ & Hc & Hn & _ & Htags).
    repeat split; try done.
    eapply Forall2_impl; [exact Htags|]. intros t t'. apply det_update_tag_rekeyed.
Qed.

Lemma encrypt_merged_deterministic_witness :
  length (take CHACHAPOLY_NONCE_LEN
            (hmac_sha256 (Library := plain_toy_library) [x6b] [x68; x69]))
  = CHACHAPOLY_NONCE_LEN.
Proof.
  apply (encrypt_merged_deterministic (LC := toy_library_contract _ _)
           [x68; x69] (replicate 32 x2a) [x6b]).
  discriminate.
Defined.

(** C3: the key under which [encrypt_value] encrypts a value is the
    HMAC-SHA-256, under the HMAC key, of the 4-byte big-endian length of the
    category, the category, the 4-byte big-endian length of the name and the
    name; it depends on nothing else, and the value is encrypted under it by
    [encrypt_merged] without an HMAC key, that is with a nonce of 12 random
    bytes. *)
Theorem encrypt_value_key {L : Library} (category name hmac_key : bytes) :
  (N.of_nat (length category) < 2 ^ 32)%N →
  (N.of_nat (length name) < 2 ^ 32)%N →
  ∃ len_category len_name,
    length len_category = 4
    ∧ big_endian len_category = N.of_nat (length category)
    ∧ length len_name = 4
    ∧ big_endian len_name = N.of_nat (length name)
    ∧ let value_key :=
        hmac_sha256 hmac_key (len_category ++ category ++ len_name ++ name) in
      ∀ value g,
        let nonce := map (tape g) (seq (cursor g) CHACHAPOLY_NONCE_LEN) in
        encrypt_value category name (Some value) hmac_key g
        = encrypt_merged value value_key None g
        ∧ (os_urandom CHACHAPOLY_NONCE_LEN g).1 = Ok nonce
        ∧ encrypt_merged value value_key None g
          = ((λ ciphertext, nonce ++ ciphertext) <$> aead_encrypt value nonce value_key,
             (os_urandom CHACHAPOLY_NONCE_LEN g).2).
Proof.
  intros Hc Hn.
  destruct (to_bytes_4_big_spec _ Hc) as (lc & Elc & Hlc & Vlc).
  destruct (to_bytes_4_big_spec _ Hn) as (ln & Eln & Hln & Vln).
  exists lc, ln. repeat split; try done.
  - unfold encrypt_value, mbind, Rand_bind, rand_lift. rewrite Elc, Eln.
    unfold HMAC_digest, HMAC_update, HMAC_new. simpl.
    by rewrite <- !app_assoc.
  - by apply encrypt_merged_random.
Qed.

Lemma encrypt_value_key_witness :
  ∃ len_category len_name,
    length len_category = 4
    ∧ big_endian len_category = 3%N
    ∧ length len_name = 4
    ∧ big_endian len_name = 2%N
    ∧ ∀ value g,
        encrypt_value (L := plain_toy_library) [x63; x61; x74] [x6e; x6d]
          (Some value) [x6b] g
        = encrypt_merged (L := plain_toy_library) value
            (hmac_sha256 (Library := plain_toy_library) [x6b]
               (len_category ++ [x63; x61; x74] ++ len_name ++ [x6e; x6d]))
            None g.
Proof.
  destruct (encrypt_value_key (L := plain_toy_library) [x63; x61; x74] [x6e; x6d] [x6b])
    as (lc & ln & H1 & H2 & H3 & H4 & H5); [reflexivity|reflexivity|].
  exists lc, ln. repeat split; try done. intros value g. apply H5.
Defined.

(** ** Plaintext tags (C10) *)

Lemma split_cons sep s : ∃ hd tl, split sep s = hd :: tl.
Proof.
  destruct s as [|c s]; simpl; [eauto|].
  destruct (decide (c = sep)); [eauto|]. destruct (split sep s); eauto.
Qed.

Lemma split_one sep s b : split sep s = [b] → s = b.
Proof.
  revert b. induction s as [|c s IH]; intros b; simpl.
  { by intros [= <-]. }
  destruct (split_cons sep s) as (hd & tl & Hs). rewrite Hs.
  destruct (decide (c = sep)) as [->|Hc]; [done|].
  intros [= <- ->]. f_equal. by apply IH.
Qed.

(** A string cut in two by its only separator is the two parts around it. *)
Lemma split_two sep s a b : split sep s = [a; b] → s = a +:+ String sep b.
Proof.
  revert a. induction s as [|c s IH]; intros a; simpl; [done|].
  destruct (decide (c = sep)) as [->|Hc].
  - intros [= <- Hs]. apply split_one in Hs as ->. reflexivity.
  - destruct (split_cons sep s) as (hd & tl & Hs). rewrite Hs.
    intros [= <- ->]. change (String c s = String c (hd +:+ String sep b)).
    f_equal. by apply IH.
Qed.

Lemma rand_mapM_Forall2 {A B} (f : A → Rand B) l g l' g' :
  rand_mapM f l g = (Ok l', g') →
  Forall2 (λ x y, ∃ g1 g2, f x g1 = (Ok y, g2)) l l'.
Proof.
  revert g l'. induction l as [|x l IH]; intros g l' H; simpl in H.
  - injection H as <- <-. constructor.
  - unfold mbind, Rand_bind in H. destruct (f x g) as [[y|] g1] eqn:Hy; [|done].
    destruct (rand_mapM f l g1) as [[ys|] g2] eqn:Hys; [|done].
    injection H as <- <-. constructor; [eauto|]. by eapply IH.
Qed.

(** C10: a plaintext-tag string that [decrypt_tags] decodes without a value
    key yields, for each of its tags [hexName:hexValue], the name decrypted
    from [hexName] and as value the one-character string at index 1 of the
    tag, which is the second character of [hexName]; [hexValue] is decoded
    from hexadecimal but is neither decrypted nor used. [decrypt_item] decodes
    the plaintext tags in this way and flags them as plain, and [update_item]
    carries the value of a tag flagged as plain into the re-keyed record as it
    is. *)
Theorem plaintext_tag_value_is_second_character {L : Library} :
  (∀ tags name_key value_key l,
     bytes_truthy value_key = false →
     decrypt_tags tags name_key value_key = Ok l →
     Forall2 (λ tag nv,
                ∃ hex_name hex_value enc_name enc_value c,
                  split ":" tag = [hex_name; hex_value]
                  ∧ tag = hex_name +:+ ":" +:+ hex_value
                  ∧ fromhex hex_name = Ok enc_name
                  ∧ fromhex hex_value = Ok enc_value
                  ∧ decrypt_merged enc_name name_key false = Ok nv.1
                  ∧ String.get 1 tag = Some c
                  ∧ (2 ≤ String.length hex_name → String.get 1 hex_name = Some c)
                  ∧ nv.2 = TagStr (String c ""))
             (split "," tags) l)
  ∧ (∀ r keys b64 it,
       str_truthy (tags_plain r) = true →
       decrypt_item r keys b64 = Ok it →
       ∃ name_key encrypted kvs,
         keys !! "tag_name" = Some name_key
         ∧ decrypt_tags (default "" (tags_plain r)) name_key None = Ok kvs
         ∧ item_tags it = encrypted ++ map (λ kv, (true, kv.1, kv.2)) kvs)
  ∧ (∀ it key g u g',
       update_item it key g = (Ok u, g') →
       Forall2 (λ t t' : tag, t.1.1 = true → t'.1.1 = true ∧ t'.2 = t.2)
               (item_tags it) (upd_tags u)).
Proof.
  split; [|split].
  - intros tags name_key value_key l Hv Hl.
    apply exc_mapM_Forall2 in Hl. eapply Forall2_impl; [exact Hl|].
    intros tag [name value]. unfold decrypt_tag, mbind, exc_bind. rewrite Hv.
    destruct (exc_mapM fromhex (split ":" tag)) as [parts|] eqn:Hparts; [|done].
    apply exc_mapM_Forall2 in Hparts.
    destruct parts as [|tn [|tv [|]]]; try done.
    destruct (decrypt_merged tn name_key false) as [n|] eqn:Hn; [|done].
    destruct (String.get 1 tag) as [c|] eqn:Hc; [|done].
    intros [= <- <-].
    apply Forall2_cons_inv_r in Hparts as (hn & rest & Hhn & Hrest & Es).
    apply Forall2_cons_inv_r in Hrest as (hv & rest' & Hhv & Hrest' & ->).
    apply Forall2_nil_inv_r in Hrest' as ->.
    pose proof (split_two _ _ _ _ Es) as Etag.
    exists hn, hv, tn, tv, c. repeat split; try done.
    intros Hlen. rewrite <- Hc, Etag. apply append_correct1. lia.
  - intros r keys b64 it Hp. unfold decrypt_item, mbind, exc_bind. rewrite Hp.
    destruct (keys_getitem keys "value"); [|done].
    destruct (decrypt_merged (row_key r) _ _); [|done].
    destruct (if bytes_truthy (row_value r) then _ else _); [|done].
    destruct (if str_truthy (tags_enc r) then _ else _) as [enc|]; [|done].
    unfold keys_getitem at 1. destruct (keys !! "tag_name") as [nk|]; [|done].
    destruct (decrypt_tags _ nk None) as [kvs|] eqn:Hkvs; [|done].
    destruct (keys_getitem keys "type"); [|done].
    destruct (decrypt_merged (row_type r) _ _); [|done].
    destruct (keys_getitem keys "name"); [|done].
    destruct (decrypt_merged (row_name r) _ _); [|done].
    intros [= <-]. simpl. by exists nk, enc, kvs.
  - intros it key g u g'. unfold update_item, mbind, Rand_bind.
    destruct (rand_mapM _ _ g) as [[tags|] g1] eqn:Htags; [|done].
    destruct (encrypt_merged (item_type it) _ _ g1) as [[c|] g2]; [|done].
    destruct (encrypt_merged (item_name it) _ _ g2) as [[n|] g3]; [|done].
    destruct (encrypt_value _ _ _ _ g3) as [[v|] g4]; [|done].
    intros [= <- <-]. simpl.
    apply rand_mapM_Forall2 in Htags. eapply Forall2_impl; [exact Htags|].
    intros [[plain k] w] t' (g5 & g6 & Ht) Hplain. simpl in Hplain. subst plain.
    unfold update_tag, mbind, Rand_bind, mret, Rand_ret in Ht. simpl in Ht.
    destruct (encrypt_merged k _ _ g5) as [[k'|] g7]; [|done].
    by injection Ht as <- <-.
Qed.

Lemma plaintext_tag_value_witness :
  decrypt_tags (L := plain_toy_library) example_plain_tags example_tag_name_key None
  = Ok [([x6e], TagStr "1")]
  ∧ Forall2 (λ tag nv,
               ∃ hex_name hex_value enc_name enc_value c,
                 split ":" tag = [hex_name; hex_value]
                 ∧ tag = hex_name +:+ ":" +:+ hex_value
                 ∧ fromhex hex_name = Ok enc_name
                 ∧ fromhex hex_value = Ok enc_value
                 ∧ decrypt_merged (L := plain_toy_library) enc_name
                     example_tag_name_key false = Ok nv.1
                 ∧ String.get 1 tag = Some c
                 ∧ (2 ≤ String.length hex_name → String.get 1 hex_name = Some c)
                 ∧ nv.2 = TagStr (String c ""))
            (split "," example_plain_tags) [([x6e], TagStr "1")].
Proof.
  split; [reflexivity|].
  apply (proj1 (plaintext_tag_value_is_second_character (L := plain_toy_library))
           example_plain_tags example_tag_name_key None); reflexivity.
Defined.

(** ** Identifiers and credential tags (C6, C7) *)

Lemma append_cons c x r : String c x +:+ r = String c (x +:+ r).
Proof. reflexivity. Qed.

Lemma append_nil_l r : "" +:+ r = r.
Proof. reflexivity. Qed.

Lemma string_length_append a b :
  String.length (a +:+ b) = String.length a + String.length b.
Proof. induction a as [|c a IH]; [done|]. rewrite append_cons. simpl. by rewrite IH. Qed.

Lemma append_inv_tail a b s : a +:+ s = b +:+ s → a = b.
Proof.
  revert b. induction a as [|c a IH]; intros [|d b] H.
  - done.
  - apply (f_equal String.length) in H.
    rewrite append_nil_l, append_cons in H. simpl in H.
    rewrite string_length_append in H. lia.
  - apply (f_equal String.length) in H.
    rewrite append_nil_l, append_cons in H. simpl in H.
    rewrite string_length_append in H. lia.
  - rewrite !append_cons in H. injection H as -> H. f_equal. by apply IH.
Qed.

Lemma span_app p x r :
  string_forall p x = true → stops p r → span p (x +:+ r) = (x, r).
Proof.
  intros Hx Hr. induction x as [|c x IH].
  - rewrite append_nil_l. destruct r as [|d r]; [done|]. simpl in *. by rewrite Hr.
  - rewrite append_cons. simpl in *. apply andb_true_iff in Hx as [-> Hx].
    by rewrite IH.
Qed.

Lemma span_inv p s x r :
  span p s = (x, r) → s = x +:+ r ∧ string_forall p x = true ∧ stops p r.
Proof.
  revert x. induction s as [|c s IH]; intros x; simpl.
  - by intros [= <- <-].
  - destruct (p c) eqn:Hc.
    + destruct (span p s) as [x' r'] eqn:Hs. intros [= <- <-].
      destruct (IH x' eq_refl) as (-> & Hx & Hr).
      rewrite append_cons. simpl. by rewrite Hc, Hx.
    + intros [= <- <-]. rewrite append_nil_l. done.
Qed.

Lemma re_group_app p x r :
  x ≠ "" → string_forall p x = true → stops p r →
  re_group p (x +:+ r) = Some (x, r).
Proof.
  intros Hne Hx Hr. unfold re_group. rewrite span_app by done.
  by destruct x.
Qed.

Lemma re_group_inv p s x r :
  re_group p s = Some (x, r) →
  s = x +:+ r ∧ x ≠ "" ∧ string_forall p x = true ∧ stops p r.
Proof.
  unfold re_group. destruct (span p s) as [g r'] eqn:Hs.
  destruct g as [|c g]; [done|]. intros [= <- <-].
  destruct (span_inv _ _ _ _ Hs) as (-> & ? & ?). done.
Qed.

Lemma re_literal_app lit r : re_literal lit (lit +:+ r) = Some r.
Proof.
  induction lit as [|c lit IH]; [by destruct r|].
  rewrite append_cons. simpl. by rewrite decide_True.
Qed.

Lemma re_literal_inv lit s r : re_literal lit s = Some r → s = lit +:+ r.
Proof.
  revert s. induction lit as [|c lit IH]; intros s; simpl.
  - by intros [= ->].
  - destruct s as [|d s]; [done|]. destruct (decide (c = d)) as [->|]; [|done].
    intros H. rewrite append_cons. f_equal. by apply IH.
Qed.

Lemma re_end_inv s u : re_end s = Some u → s = "".
Proof. by destruct s. Qed.

(** The matcher of the schema identifiers accepts exactly the strings of the
    pattern, and gives their three parts; likewise for the credential
    definition identifiers. *)
Lemma append_nil_r s : s +:+ "" = s.
Proof. induction s as [|c s IH]; [done|]. rewrite append_cons. by f_equal. Qed.

Lemma match_schema_id_iff s did name version :
  match_schema_id s = Some (did, name, version) ↔ is_schema_id s did name version.
Proof.
  unfold match_schema_id, is_schema_id. split.
  - destruct (re_group is_word s) as [[g1 s1]|] eqn:H1; cbn [mbind option_bind]; [|done].
    destruct (re_literal ":2:" s1) as [s2|] eqn:H2; cbn [mbind option_bind]; [|done].
    destruct (re_group not_colon s2) as [[g2 s3]|] eqn:H3; cbn [mbind option_bind]; [|done].
    destruct (re_literal ":" s3) as [s4|] eqn:H4; cbn [mbind option_bind]; [|done].
    destruct (re_group not_colon s4) as [[g3 s5]|] eqn:H5; cbn [mbind option_bind]; [|done].
    destruct (re_end s5) as [u|] eqn:H6; cbn [mbind option_bind]; [|done]. intros [= <- <- <-].
    apply re_group_inv in H1 as (-> & ? & ? & _).
    apply re_literal_inv in H2 as ->.
    apply re_group_inv in H3 as (-> & ? & ? & _).
    apply re_literal_inv in H4 as ->.
    apply re_group_inv in H5 as (-> & ? & ? & _).
    apply re_end_inv in H6 as ->.
    rewrite append_nil_r. done.
  - intros (-> & ? & ? & ? & ? & ? & ?).
    rewrite re_group_app by done. cbn [mbind option_bind]. rewrite re_literal_app. cbn [mbind option_bind].
    rewrite re_group_app by done. cbn [mbind option_bind]. rewrite re_literal_app. cbn [mbind option_bind].
    rewrite <- (append_nil_r version) at 1.
    rewrite re_group_app by done. done.
Qed.

Lemma match_cred_def_id_iff s did seq_no tag :
  match_cred_def_id s = Some (did, seq_no, tag) ↔ is_cred_def_id s did seq_no tag.
Proof.
  unfold match_cred_def_id, is_cred_def_id. split.
  - destruct (re_group is_word s) as [[g1 s1]|] eqn:H1; cbn [mbind option_bind]; [|done].
    destruct (re_literal ":3:CL:" s1) as [s2|] eqn:H2; cbn [mbind option_bind]; [|done].
    destruct (re_group not_colon s2) as [[g2 s3]|] eqn:H3; cbn [mbind option_bind]; [|done].
    destruct (re_literal ":" s3) as [s4|] eqn:H4; cbn [mbind option_bind]; [|done].
    destruct (re_group not_colon s4) as [[g3 s5]|] eqn:H5; cbn [mbind option_bind]; [|done].
    destruct (re_end s5) as [u|] eqn:H6; cbn [mbind option_bind]; [|done]. intros [= <- <- <-].
    apply re_group_inv in H1 as (-> & ? & ? & _).
    apply re_literal_inv in H2 as ->.
    apply re_group_inv in H3 as (-> & ? & ? & _).
    apply re_literal_inv in H4 as ->.
    apply re_group_inv in H5 as (-> & ? & ? & _).
    apply re_end_inv in H6 as ->.
    rewrite append_nil_r. done.
  - intros (-> & ? & ? & ? & ? & ? & ?).
    rewrite re_group_app by done. cbn [mbind option_bind]. rewrite re_literal_app. cbn [mbind option_bind].
    rewrite re_group_app by done. cbn [mbind option_bind]. rewrite re_literal_app. cbn [mbind option_bind].
    rewrite <- (append_nil_r tag) at 1.
    rewrite re_group_app by done. done.
Qed.

(** The loop of [_credential_tags] over the attributes: every attribute
    writes the tag of its name, so a tag holds the raw value of the last
    attribute that has its name once the spaces are stripped. *)
Lemma attr_fold_spec (attrs : list (string * json)) (base : gmap string json) :
  Forall (λ kv, ∃ raw, json_getitem kv.2 "raw" = Ok raw) attrs →
  ∃ tags, foldl attr_step (Ok base) attrs = Ok tags
    ∧ ∀ key v, tags !! key = Some v ↔
        (∃ pre k attr post,
            attrs = pre ++ (k, attr) :: post ∧ key = attr_tag k
            ∧ json_getitem attr "raw" = Ok v
            ∧ Forall (λ kv, attr_tag kv.1 ≠ key) post)
        ∨ (base !! key = Some v ∧ Forall (λ kv, attr_tag kv.1 ≠ key) attrs).
Proof.
  induction attrs as [|[k a] l IH] using rev_ind; intros Hraw.
  - exists base. split; [done|]. intros key v. split.
    + intros H. right. by split.
    + intros [(pre & k & attr & post & E & _)|[H _]]; [|done].
      by destruct pre.
  - apply Forall_app in Hraw as [Hl Hk]. apply Forall_inv in Hk as [raw Hraw]. simpl in Hraw.
    destruct (IH Hl) as (tags & Etags & Htags).
    rewrite foldl_app. cbn [foldl]. rewrite Etags. cbn [attr_step mbind exc_bind].
    rewrite Hraw. cbn [mbind exc_bind]. eexists; split; [done|].
    fold (attr_tag k). intros key v. rewrite lookup_insert_Some, Htags. split.
    + intros [[<- <-]|[Hne [(pre & k' & attr & post & -> & -> & Hv & Hpost)|[Hb Hall]]]].
      * left. exists l, k, a, []. by repeat split.
      * left. exists pre, k', attr, (post ++ [(k, a)]). rewrite <- app_assoc.
        repeat split; try done. apply Forall_app. split; [done|].
        by apply Forall_singleton.
      * right. split; [done|]. apply Forall_app. split; [done|].
        by apply Forall_singleton.
    + intros [(pre & k' & attr & post & E & -> & Hv & Hpost)|[Hb Hall]].
      * destruct post as [|p post _] using rev_ind.
        -- apply app_inj_tail in E as [-> E2]. injection E2 as -> ->.
           left. split; [done|]. congruence.
        -- rewrite app_comm_cons, app_assoc in E.
           apply app_inj_tail in E as [-> <-].
           apply Forall_app in Hpost as [Hpost Hp]. apply Forall_inv in Hp. simpl in Hp.
           right. split; [done|]. left. exists pre, k', attr, post. by repeat split.
      * apply Forall_app in Hall as [Hall Hp]. apply Forall_inv in Hp. simpl in Hp.
        right. split; [done|]. right. by split.
Qed.
Lemma attr_tag_inj a b : attr_tag a = attr_tag b → strip_spaces a = strip_spaces b.
Proof.
  unfold attr_tag. intros H. apply (inj (String.app "attr::")) in H.
  by apply append_inv_tail in H.
Qed.

(** No attribute tag is one of the seven fixed tags. *)
Lemma attr_tag_not_fixed k key :
  key ∈ ["schema_id"; "schema_issuer_did"; "schema_name"; "schema_version";
         "issuer_did"; "cred_def_id"; "rev_reg_id"] →
  attr_tag k ≠ key.
Proof.
  unfold attr_tag. change ("attr::" +:+ ?x) with (String "a" ("ttr::" +:+ x)).
  rewrite !elem_of_cons, elem_of_nil.
  intros [->|[->|[->|[->|[->|[->|[->|[]]]]]]]]; discriminate.
Qed.

Lemma json_getitem_obj x k v : json_getitem x k = Ok v → ∃ o, x = JObj o.
Proof. destruct x; try done. eauto. Qed.

(** C6, amended: for a credential whose [schema_id] and [cred_def_id] match
    their patterns and whose attributes each have a raw value, the derived
    tags are exactly schema_id, schema_issuer_did, schema_name,
    schema_version, issuer_did (the DID of the credential definition
    identifier), cred_def_id, rev_reg_id (the string "None" when the
    credential has no rev_reg_id, or an empty one) and, for every attribute
    name with its spaces stripped, one tag attr::<name>::value holding the raw
    value of the last attribute that has this stripped name; when the
    stripped names are pairwise distinct this is one tag per attribute, with
    that attribute's raw value. *)
Theorem credential_tags_exact (cred_data : json)
    (schema_id did name version cred_def_id cred_def_did seq_no tag : string)
    (attrs : list (string * json)) :
  json_getitem cred_data "schema_id" = Ok (JStr schema_id) →
  is_schema_id schema_id did name version →
  json_getitem cred_data "cred_def_id" = Ok (JStr cred_def_id) →
  is_cred_def_id cred_def_id cred_def_did seq_no tag →
  json_getitem cred_data "values" = Ok (JObj attrs) →
  Forall (λ kv, ∃ raw, json_getitem kv.2 "raw" = Ok raw) attrs →
  let rev_reg_id :=
    match json_getitem cred_data "rev_reg_id" with
    | Ok v => if json_truthy v then v else JStr "None"
    | Raise _ => JStr "None"
    end in
  ∃ tags,
    _credential_tags cred_data = Ok tags
    ∧ (∀ key v,
         tags !! key = Some v ↔
           (key, v) ∈ [("schema_id", JStr schema_id);
                       ("schema_issuer_did", JStr did);
                       ("schema_name", JStr name);
                       ("schema_version", JStr version);
                       ("issuer_did", JStr cred_def_did);
                       ("cred_def_id", JStr cred_def_id);
                       ("rev_reg_id", rev_reg_id)]
           ∨ ∃ pre k attr post,
               attrs = pre ++ (k, attr) :: post
               ∧ key = attr_tag k
               ∧ json_getitem attr "raw" = Ok v
               ∧ Forall (λ kv, attr_tag kv.1 ≠ key) post)
    ∧ (NoDup (map (λ kv, strip_spaces kv.1) attrs) →
       ∀ k attr raw,
         (k, attr) ∈ attrs → json_getitem attr "raw" = Ok raw →
         tags !! attr_tag k = Some raw).
Proof.
  intros Hs Hsid Hc Hcid Hv Hraw rev_reg_id.
  destruct (json_getitem_obj _ _ _ Hs) as [o ->].
  apply match_schema_id_iff in Hsid. apply match_cred_def_id_iff in Hcid.
  unfold _credential_tags. rewrite Hs. cbn [mbind exc_bind re_match].
  rewrite Hsid. rewrite Hc. cbn [mbind exc_bind re_match]. rewrite Hcid.
  rewrite Hv. cbn [mbind exc_bind].
  match goal with |- context [foldl attr_step (Ok ?b) _] => set (base := b) end.
  destruct (attr_fold_spec attrs base Hraw) as (tags & Etags & Htags).
  exists tags. split; [done|].
  assert (Hrev : match dict_get o "rev_reg_id" with
                 | Some v => if json_truthy v then v else JStr "None"
                 | None => JStr "None"
                 end = rev_reg_id).
  { subst rev_reg_id. unfold dict_get. cbn [json_getitem].
    by destruct (dict_getitem o "rev_reg_id"). }
  assert (Hbase : ∀ key v, base !! key = Some v ↔
            (key, v) ∈ [("schema_id", JStr schema_id);
                        ("schema_issuer_did", JStr did);
                        ("schema_name", JStr name);
                        ("schema_version", JStr version);
                        ("issuer_did", JStr cred_def_did);
                        ("cred_def_id", JStr cred_def_id);
                        ("rev_reg_id", rev_reg_id)]).
  { intros key v. subst base. rewrite Hrev.
    rewrite !lookup_insert_Some, lookup_empty, !elem_of_cons, elem_of_nil.
    split.
    - intros [[<- <-]|[_ [[<- <-]|[_ [[<- <-]|[_ [[<- <-]|[_ [[<- <-]|[_ [[<- <-]|[_ [[<- <-]|[_ ?]]]]]]]]]]]]]]; try done; tauto.
    - intros [[= -> ->]|[[= -> ->]|[[= -> ->]|[[= -> ->]|[[= -> ->]|[[= -> ->]|[[= -> ->]|[]]]]]]]];
        repeat (first [left; split; [reflexivity|reflexivity] | right; split; [discriminate|]]). }
  assert (Hfixed : ∀ key v, base !! key = Some v →
            Forall (λ kv : string * json, attr_tag kv.1 ≠ key) attrs).
  { intros key v Hk. apply Forall_forall. intros kv _. apply attr_tag_not_fixed.
    apply Hbase in Hk. revert Hk. rewrite !elem_of_cons, !elem_of_nil.
    intros [[= -> _]|[[= -> _]|[[= -> _]|[[= -> _]|[[= -> _]|[[= -> _]|[[= -> _]|[]]]]]]]]; tauto. }
  split.
  - intros key v. rewrite Htags, <- Hbase. split.
    + intros [H|[H _]]; [by right|by left].
    + intros [H|H]; [right|by left]. split; [done|]. by eapply Hfixed.
  - intros Hnd k attr raw Hin Hr. apply Htags. left.
    apply list_elem_of_split in Hin as (pre & post & ->).
    exists pre, k, attr, post. repeat split; try done.
    rewrite map_app in Hnd. apply NoDup_app in Hnd as (_ & _ & Hnd).
    cbn [map] in Hnd. apply NoDup_cons in Hnd as [Hnot _].
    apply Forall_forall. intros kv Hkv E. apply attr_tag_inj in E.
    apply Hnot. simpl. rewrite <- E.
    apply (list_elem_of_fmap_2 (λ kv, strip_spaces kv.1)) in Hkv. exact Hkv.
Qed.

Lemma example_schema_id_matches :
  is_schema_id example_schema_id "Th7MpTaRZVRYnPiabds81Y" "gvt" "1.0".
Proof. by apply match_schema_id_iff. Qed.

Lemma example_cred_def_id_matches :
  is_cred_def_id example_cred_def_id "Th7MpTaRZVRYnPiabds81Y" "12" "tag".
Proof. by apply match_cred_def_id_iff. Qed.

Lemma credential_tags_exact_witness :
  ∃ tags,
    _credential_tags (example_credential example_attrs) = Ok tags
    ∧ tags !! "schema_issuer_did" = Some (JStr "Th7MpTaRZVRYnPiabds81Y")
    ∧ tags !! "rev_reg_id" = Some (JStr "None")
    ∧ tags !! "attr::dateofbirth::value" = Some (JStr "2000-01-01").
Proof.
  destruct (credential_tags_exact (example_credential example_attrs)
              example_schema_id "Th7MpTaRZVRYnPiabds81Y" "gvt" "1.0"
              example_cred_def_id "Th7MpTaRZVRYnPiabds81Y" "12" "tag" example_attrs)
    as (tags & Htags & Hall & Hattr).
  - reflexivity.
  - exact example_schema_id_matches.
  - reflexivity.
  - exact example_cred_def_id_matches.
  - reflexivity.
  - repeat constructor; eexists; reflexivity.
  - exists tags. split; [exact Htags|]. split; [|split].
    + apply Hall. left. apply list_elem_of_In. simpl. tauto.
    + apply Hall. left. apply list_elem_of_In. simpl. tauto.
    + assert (Hnd : NoDup (map (λ kv : string * json, strip_spaces kv.1) example_attrs)).
      { apply (bool_decide_unpack _). reflexivity. }
      apply (Hattr Hnd "date of birth" (attr_value "2000-01-01" "20000101")).
      * apply list_elem_of_In. simpl. tauto.
      * reflexivity.
Defined.

(** C6, as the claim states it, fails: of two attributes whose names differ
    only by spaces, ["a b"] and ["ab"], only the second has its raw value in
    the tags. *)
Lemma credential_tags_colliding_attributes :
  ¬ (∀ (cred_data : json)
       (schema_id did name version cred_def_id cred_def_did seq_no tag : string)
       (attrs : list (string * json)),
       json_getitem cred_data "schema_id" = Ok (JStr schema_id) →
       is_schema_id schema_id did name version →
       json_getitem cred_data "cred_def_id" = Ok (JStr cred_def_id) →
       is_cred_def_id cred_def_id cred_def_did seq_no tag →
       json_getitem cred_data "values" = Ok (JObj attrs) →
       Forall (λ kv, ∃ raw, json_getitem kv.2 "raw" = Ok raw) attrs →
       ∃ tags,
         _credential_tags cred_data = Ok tags
         ∧ ∀ k attr raw,
             (k, attr) ∈ attrs → json_getitem attr "raw" = Ok raw →
             tags !! attr_tag k = Some raw).
Proof.
  intros H.
  destruct (H (example_credential colliding_attrs)
              example_schema_id "Th7MpTaRZVRYnPiabds81Y" "gvt" "1.0"
              example_cred_def_id "Th7MpTaRZVRYnPiabds81Y" "12" "tag" colliding_attrs)
    as (tags & Htags & Hattr).
  - reflexivity.
  - exact example_schema_id_matches.
  - reflexivity.
  - exact example_cred_def_id_matches.
  - reflexivity.
  - repeat constructor; eexists; reflexivity.
  - assert (H1 : tags !! attr_tag "a b" = Some (JStr "1")).
    { apply (Hattr "a b" (attr_value "1" "1")); [|reflexivity].
      apply list_elem_of_In. simpl. tauto. }
    assert (H2 : tags !! attr_tag "ab" = Some (JStr "2")).
    { apply (Hattr "ab" (attr_value "2" "2")); [|reflexivity].
      apply list_elem_of_In. simpl. tauto. }
    change (attr_tag "a b") with (attr_tag "ab") in H1. congruence.
Qed.

(** ** The monad of the strategies *)

Section monad_facts.
Context `{L : Library} {World Wallet AskarKey : Type}.
Local Abbreviation event := (event (Wallet := Wallet) (AskarKey := AskarKey)).
Local Abbreviation M := (M (World := World) (Wallet := Wallet) (AskarKey := AskarKey)).
Local Abbreviation run := (run (World := World) (Wallet := Wallet) (AskarKey := AskarKey)).
Implicit Types P : event → Prop.

Lemma bind_run {A B} (m : M A) (f : A → M B) s :
  (m ≫= f) s =
    match result (m s) with
    | Some (Ok a) =>
        Run (result (f a (final (m s)))) (final (f a (final (m s))))
            (events (m s) ++ events (f a (final (m s))))
    | Some (Raise e) => Run (Some (Raise e)) (final (m s)) (events (m s))
    | None => Run None (final (m s)) (events (m s))
    end.
Proof. reflexivity. Qed.

Lemma bind_ok {A B} (m : M A) (f : A → M B) s a s1 t1 :
  m s = Run (Some (Ok a)) s1 t1 →
  (m ≫= f) s = Run (result (f a s1)) (final (f a s1)) (t1 ++ events (f a s1)).
Proof. intros H. rewrite bind_run, H. reflexivity. Qed.

Lemma bind_raise {A B} (m : M A) (f : A → M B) s e s1 t1 :
  m s = Run (Some (Raise e)) s1 t1 → (m ≫= f) s = Run (Some (Raise e)) s1 t1.
Proof. intros H. rewrite bind_run, H. reflexivity. Qed.

Lemma bind_cut {A B} (m : M A) (f : A → M B) s s1 t1 :
  m s = Run None s1 t1 → (m ≫= f) s = Run None s1 t1.
Proof. intros H. rewrite bind_run, H. reflexivity. Qed.

Lemma run_eta {A} (r : run A) : r = Run (result r) (final r) (events r).
Proof. by destruct r. Qed.

Lemma after_nil {A} (r : run A) : after [] r = r.
Proof. by destruct r. Qed.


Lemma bind_ret {A B} (a : A) (f : A → M B) s : (mret a ≫= f) s = f a s.
Proof. rewrite bind_run. simpl. apply after_nil. Qed.

Lemma bind_lift {A B} (x : exc A) (f : A → M B) s :
  (lift x ≫= f) s =
    match x with
    | Ok a => f a s
    | Raise e => Run (Some (Raise e)) s []
    end.
Proof. rewrite bind_run. destruct x; simpl; [apply after_nil|done]. Qed.

Lemma bind_print {B} text (f : unit → M B) s :
  (print text ≫= f) s = after [EvPrint text] (f tt s).
Proof. reflexivity. Qed.

Lemma bind_call {R B} (ev : exc R → event) (op : World → exc R * World)
    (f : R → M B) s :
  (call ev op ≫= f) s =
    match op (world s) with
    | (Ok a, w) => after [ev (Ok a)] (f a (State w (rng s)))
    | (Raise e, w) => Run (Some (Raise e)) (State w (rng s)) [ev (Raise e)]
    end.
Proof. rewrite bind_run. unfold call. by destruct (op (world s)) as [[a|e] w]. Qed.

Lemma call_run {R} (ev : exc R → event) (op : World → exc R * World) s :
  call ev op s
  = Run (Some (op (world s)).1) (State (op (world s)).2 (rng s)) [ev (op (world s)).1].
Proof. unfold call. by destruct (op (world s)). Qed.

Lemma bind_rand {A B} (x : Rand A) (f : A → M B) s :
  (rand x ≫= f) s =
    match x (rng s) with
    | (Ok a, g) => f a (State (world s) g)
    | (Raise e, g) => Run (Some (Raise e)) (State (world s) g) []
    end.
Proof.
  rewrite bind_run. unfold rand. destruct (x (rng s)) as [[a|e] g]; simpl; [|done].
  apply after_nil.
Qed.

Lemma bind_assoc {A B C} (m : M A) (f : A → M B) (g : B → M C) s :
  ((m ≫= f) ≫= g) s = (m ≫= λ a, f a ≫= g) s.
Proof.
  rewrite !bind_run. destruct (result (m s)) as [[a|e]|]; simpl; try done.
  rewrite bind_run. destruct (result (f a _)) as [[b|e]|]; simpl; try done.
  by rewrite app_assoc.
Qed.

Lemma bind_after {A B} (m : M A) (f : A → M B) s :
  (m ≫= f) s =
    match result (m s) with
    | Some (Ok a) => after (events (m s)) (f a (final (m s)))
    | Some (Raise e) => Run (Some (Raise e)) (final (m s)) (events (m s))
    | None => Run None (final (m s)) (events (m s))
    end.
Proof. apply bind_run. Qed.

Lemma try_finally_call {A} (body : M A) (ev : exc unit → event)
    (op : World → exc unit * World) s :
  try_finally body (call ev op) s =
    match result (body s) with
    | None => body s
    | Some x =>
        Run (Some (match (op (world (final (body s)))).1 with
                   | Ok _ => x
                   | Raise e => Raise e
                   end))
            (State (op (world (final (body s)))).2 (rng (final (body s))))
            (events (body s) ++ [ev (op (world (final (body s)))).1])
    end.
Proof.
  unfold try_finally. destruct (result (body s)); [|done]. rewrite call_run. simpl.
  by destruct (op _).1.
Qed.

Lemma emits_ret {A} P (a : A) : emits P (mret a : M A).
Proof. intros s. constructor. Qed.

Lemma emits_lift {A} P (x : exc A) : emits P (lift x : M A).
Proof. intros s. constructor. Qed.

Lemma emits_rand {A} P (x : Rand A) : emits P (rand x : M A).
Proof. intros s. unfold rand. destruct (x (rng s)). constructor. Qed.

Lemma emits_out_of_fuel {A} P : emits P (out_of_fuel : M A).
Proof. intros s. constructor. Qed.

Lemma emits_print P text : P (EvPrint text) → emits P (print text : M unit).
Proof. intros H s. by repeat constructor. Qed.

Lemma emits_call {R} P (ev : exc R → event) (op : World → exc R * World) :
  (∀ r, P (ev r)) → emits P (call ev op : M R).
Proof. intros H s. unfold call. destruct (op (world s)). by repeat constructor. Qed.


Lemma emits_bind {A B} P (m : M A) (f : A → M B) :
  emits P m → (∀ a, emits P (f a)) → emits P (m ≫= f).
Proof.
  intros Hm Hf s. rewrite bind_run. specialize (Hm s).
  destruct (result (m s)) as [[a|e]|]; simpl; try done.
  apply Forall_app. split; [done|]. apply Hf.
Qed.

Lemma emits_bind_lift {A B} P (x : exc A) (f : A → M B) :
  (∀ a, x = Ok a → emits P (f a)) → emits P (lift x ≫= f).
Proof.
  intros Hf s. rewrite bind_run. destruct x as [a|e]; simpl; [|done]. by apply Hf.
Qed.

Lemma emits_try_finally {A} P (body : M A) (cleanup : M unit) :
  emits P body → emits P cleanup → emits P (try_finally body cleanup).
Proof.
  intros Hb Hc s. unfold try_finally. specialize (Hb s).
  destruct (result (body s)); [|done]. simpl.
  apply Forall_app. split; [done|]. apply Hc.
Qed.

Lemma emits_while_true {A} P fuel (body : A → M (bool * A)) a :
  (∀ a, emits P (body a)) → emits P (while_true fuel body a).
Proof.
  intros Hb. revert a. induction fuel as [|fuel IH]; intros a; simpl.
  - apply emits_out_of_fuel.
  - apply emits_bind; [done|]. intros [[] a']; [apply IH|apply emits_ret].
Qed.

Lemma emits_for_each {A X} P (l : list X) (body : X → A → M A) a :
  (∀ x a, emits P (body x a)) → emits P (for_each l body a).
Proof.
  intros Hb. revert a. induction l as [|x l IH]; intros a; simpl.
  - apply emits_ret.
  - apply emits_bind; [done|]. intros a'. apply IH.
Qed.

Lemma emits_impl {A} P Q (m : M A) :
  (∀ e, P e → Q e) → emits P m → emits Q m.
Proof. intros H Hm s. eapply Forall_impl; [apply Hm|done]. Qed.

End monad_facts.

(** Proves [emits P m] for a computation [m] written with the combinators
    of the monad, when every call in it satisfies [P]. *)
Ltac emits_step :=
  match goal with
  | |- emits _ (lift _ ≫= _) => apply emits_bind_lift
  | |- emits _ (_ ≫= _) => apply emits_bind
  | |- emits _ (mret _) => apply emits_ret
  | |- emits _ (lift _) => apply emits_lift
  | |- emits _ (rand _) => apply emits_rand
  | |- emits _ out_of_fuel => apply emits_out_of_fuel
  | |- emits _ (print _) => apply emits_print
  | |- emits _ (call _ _) => apply emits_call
  | |- emits _ (try_finally _ _) => apply emits_try_finally
  | |- emits _ (while_true _ _ _) => apply emits_while_true
  | |- emits _ (for_each _ _ _) => apply emits_for_each
  | |- emits _ (match ?x with _ => _ end) => destruct x
  | |- emits _ (if ?x then _ else _) => destruct x
  | |- emits _ (let '(_, _) := ?x in _) => destruct x
  | |- emits _ ((let '(_, _) := ?x in _) _) => destruct x
  | |- ∀ _, _ => intro
  end.
Ltac solve_emits := repeat emits_step; try done.

(** ** Malformed identifiers (C7) *)

Lemma credential_tags_bad_schema_id cred_data schema_id :
  json_getitem cred_data "schema_id" = Ok (JStr schema_id) →
  (∀ did name version, ¬ is_schema_id schema_id did name version) →
  _credential_tags cred_data
  = Raise (UpgradeError ("Error parsing credential schema ID: " +:+ schema_id)).
Proof.
  intros Hs Hbad. unfold _credential_tags. rewrite Hs. cbn [mbind exc_bind re_match].
  destruct (match_schema_id schema_id) as [[[d n] v]|] eqn:Hm; [|done].
  apply match_schema_id_iff in Hm. by destruct (Hbad d n v).
Qed.

Lemma credential_tags_bad_cred_def_id cred_data schema_id did name version cred_def_id :
  json_getitem cred_data "schema_id" = Ok (JStr schema_id) →
  is_schema_id schema_id did name version →
  json_getitem cred_data "cred_def_id" = Ok (JStr cred_def_id) →
  (∀ did' seq_no tag, ¬ is_cred_def_id cred_def_id did' seq_no tag) →
  _credential_tags cred_data
  = Raise (UpgradeError ("Error parsing credential definition ID: " +:+ cred_def_id)).
Proof.
  intros Hs Hsid Hc Hbad. apply match_schema_id_iff in Hsid.
  unfold _credential_tags. rewrite Hs. cbn [mbind exc_bind re_match].
  rewrite Hsid, Hc. cbn [mbind exc_bind re_match].
  destruct (match_cred_def_id cred_def_id) as [[[d n] v]|] eqn:Hm; [|done].
  apply match_cred_def_id_iff in Hm. by destruct (Hbad d n v).
Qed.

Lemma not_an_id_is_no_schema_id did name version :
  ¬ is_schema_id "not-an-id" did name version.
Proof. intros H. by apply match_schema_id_iff in H. Qed.

Section conversion_facts.
Context `{L : Library} {World Wallet AskarKey : Type}.
Variable store : StoreOps (World := World) (AskarKey := AskarKey).
Local Abbreviation event := (event (Wallet := Wallet) (AskarKey := AskarKey)).
Local Abbreviation M := (M (World := World) (Wallet := Wallet) (AskarKey := AskarKey)).
Local Abbreviation run := (run (World := World) (Wallet := Wallet) (AskarKey := AskarKey)).

(** Whatever the store answers, the conversion only inserts into the
    category of the credentials what [_credential_tags] has derived. *)
Lemma convert_items_to_askar_inserts fuel uri wallet_key profile :
  emits is_derived_insert
    (convert_items_to_askar store fuel uri wallet_key profile : M unit).
Proof.
  unfold convert_items_to_askar, convert_keys, convert_master_secrets,
    convert_master_secrets_batch, convert_dids, convert_schemas, convert_cred_defs,
    convert_rev_reg_defs, convert_rev_reg_keys, convert_rev_reg_states,
    convert_rev_reg_info, convert_credentials, convert_credentials_batch,
    convert_credential, copy_category, print_updated, transaction,
    txn_fetch_all, txn_fetch, txn_remove, txn_insert, txn_insert_key, txn_commit.
  solve_emits.
  all: try (intros ?; discriminate).
  intros _. by eexists _, _, _.
Qed.

(** The conversion of a credential whose tags cannot be derived stops after
    the removal of the legacy row. *)
Lemma convert_credential_malformed (row : entry) cred_data e upd_count s :
  json_loads_bytes (entry_value row) = Ok cred_data →
  _credential_tags cred_data = Raise e →
  ∃ r,
    events (convert_credential store row upd_count s : run nat)
      = [EvRemove "Indy::Credential" (entry_name row) r]
    ∧ result (convert_credential store row upd_count s : run nat)
      = Some (Raise (match r with Ok _ => e | Raise e' => e' end)).
Proof.
  intros Hj Ht.
  unfold convert_credential, txn_remove, txn_insert, call, lift, mbind, M_bind.
  destruct (askar_remove store _ _ (world s)) as [[[]|e'] w]; simpl.
  - rewrite Hj. simpl. rewrite Ht. simpl. by eexists.
  - by eexists.
Qed.

Lemma convert_credential_returns (row : entry) upd_count s :
  result (convert_credential store row upd_count s : run nat) ≠ None.
Proof.
  unfold convert_credential, txn_remove, txn_insert, call, lift, mbind, M_bind.
  destruct (askar_remove store _ _ (world s)) as [[[]|e'] w]; simpl; [|done].
  destruct (json_loads_bytes (entry_value row)); simpl; [|done].
  destruct (_credential_tags _); simpl; [|done].
  destruct (askar_insert store _ _ _ _ w) as [[[]|e''] w']; simpl; done.
Qed.

Lemma convert_credential_calls (row : entry) upd_count :
  emits (λ ev, match ev with EvRemove _ _ _ | EvInsert _ _ _ _ _ => True | _ => False end)
    (convert_credential store row upd_count : M nat).
Proof. unfold convert_credential, txn_remove, txn_insert. solve_emits. Qed.

(** A batch of credentials with one whose tags cannot be derived fails as a
    whole. *)
Lemma for_each_credential_malformed creds (row : entry) cred_data e upd_count s :
  row ∈ creds →
  json_loads_bytes (entry_value row) = Ok cred_data →
  _credential_tags cred_data = Raise e →
  ∃ e', result (for_each creds (convert_credential store) upd_count s : run nat)
        = Some (Raise e').
Proof.
  intros Hin Hj Ht. revert upd_count s.
  induction creds as [|x creds IH]; intros upd_count s; [by apply elem_of_nil in Hin|].
  cbn [for_each]. rewrite bind_run.
  apply elem_of_cons in Hin as [->|Hin].
  - destruct (convert_credential_malformed x cred_data e upd_count s Hj Ht)
      as (r & _ & ->). by eexists.
  - pose proof (convert_credential_returns x upd_count s) as Hret.
    destruct (result (convert_credential store x upd_count s)) as [[n|e']|]; simpl.
    + apply (IH Hin).
    + by eexists.
    + done.
Qed.

Local Arguments for_each : simpl never.

Lemma convert_credentials_batch_malformed upd_count s creds (row : entry) cred_data e :
  EvFetchAll "Indy::Credential" (Some 50) (Ok creds)
    ∈ events (convert_credentials_batch store upd_count s : run (bool * nat)) →
  row ∈ creds →
  json_loads_bytes (entry_value row) = Ok cred_data →
  _credential_tags cred_data = Raise e →
  (∃ e', result (convert_credentials_batch store upd_count s : run (bool * nat))
         = Some (Raise e'))
  ∧ Forall (λ ev, ¬ is_commit ev)
      (events (convert_credentials_batch store upd_count s : run (bool * nat))).
Proof.
  intros Hev Hin Hj Ht. revert Hev.
  unfold convert_credentials_batch, transaction, txn_fetch_all, txn_commit.
  match goal with |- context [try_finally ?b _] => set (body := b) end.
  assert (Hbody : ∀ s0 : state,
    EvFetchAll "Indy::Credential" (Some 50) (Ok creds) ∈ events (body s0) →
    (∃ e', result (body s0) = Some (Raise e'))
    ∧ Forall (λ ev : event, ¬ is_commit ev) (events (body s0))).
  { intros s0. subst body. rewrite bind_call.
    destruct (askar_fetch_all store _ _ _) as [[creds'|e1] w1]; simpl.
    2:{ rewrite !elem_of_cons, elem_of_nil. intros [?|[]]; done. }
    set (s1 := State w1 (rng s0)).
    destruct creds' as [|c creds'].
    { simpl. rewrite !elem_of_cons, elem_of_nil. intros [[= ->]|[]].
      by apply elem_of_nil in Hin. }
    rewrite bind_after.
    pose proof (emits_for_each _ (c :: creds') (convert_credential store) upd_count
                  (λ x a, convert_credential_calls x a) s1) as Hcalls.
    intros Hev.
    assert (creds = c :: creds') as ->.
    { revert Hev. destruct (result (for_each (c :: creds') _ _ _)) as [[n|e']|]; simpl.
      - rewrite elem_of_cons, elem_of_app. intros [[= ->]|[Hev|Hev]]; [done|..].
        + eapply Forall_forall in Hcalls; [|exact Hev]. done.
        + revert Hev. rewrite bind_call. destruct (askar_commit store _) as [[[]|?] ?];
            simpl; rewrite !elem_of_cons, elem_of_nil; intros [?|[]]; done.
      - rewrite elem_of_cons. intros [[= ->]|Hev]; [done|].
        eapply Forall_forall in Hcalls; [|exact Hev]. done.
      - rewrite elem_of_cons. intros [[= ->]|Hev]; [done|].
        eapply Forall_forall in Hcalls; [|exact Hev]. done. }
    destruct (for_each_credential_malformed (c :: creds') row cred_data e upd_count s1
                Hin Hj Ht) as [e' He'].
    rewrite He'. simpl. split; [by eexists|].
    constructor; [by intros []|]. eapply Forall_impl; [exact Hcalls|].
    intros ev Hev' Hc. by destruct ev. }
  clearbody body. rewrite bind_call.
  destruct (askar_transaction store (world s)) as [[[]|e0] w0].
  2:{ simpl. rewrite !elem_of_cons, elem_of_nil. intros [?|[]]; done. }
  rewrite try_finally_call. specialize (Hbody (State w0 (rng s))).
  destruct (result (body _)) as [x|] eqn:Hres; simpl.
  - rewrite elem_of_cons, elem_of_app, !elem_of_cons, elem_of_nil.
    intros [?|[Hev|[?|[]]]]; try done.
    destruct (Hbody Hev) as [[e' [= ->]] Hnc]. split.
    + destruct (askar_transaction_exit store _).1; by eexists.
    + constructor; [by intros []|]. apply Forall_app. split; [done|].
      constructor; [by intros []|constructor].
  - rewrite elem_of_cons. intros [?|Hev]; [done|].
    by destruct (Hbody Hev) as [[e' ?] _].
Qed.

End conversion_facts.

(** C7: a credential whose [schema_id] is a string that fails the pattern
    [<issuerDid>:2:<name>:<version>] (as ["not-an-id"] does), or whose
    [cred_def_id] is a string that fails [<issuerDid>:3:CL:<schemaSeqNo>:<tag>],
    makes [_credential_tags] raise [UpgradeError] with a message that ends
    with the offending identifier. In the conversion such a credential is
    removed from the legacy category and the error leaves the loop before any
    insert: its batch fails without a commit, and every insert into the
    category of the credentials that the conversion ever makes carries tags
    that [_credential_tags] has derived. *)
Theorem malformed_identifier_is_fatal {L : Library} {World Wallet AskarKey : Type}
    (store : StoreOps (World := World) (AskarKey := AskarKey)) :
  (∀ cred_data schema_id,
     json_getitem cred_data "schema_id" = Ok (JStr schema_id) →
     (∀ did name version, ¬ is_schema_id schema_id did name version) →
     _credential_tags cred_data
     = Raise (UpgradeError ("Error parsing credential schema ID: " +:+ schema_id)))
  ∧ (∀ did name version, ¬ is_schema_id "not-an-id" did name version)
  ∧ (∀ cred_data schema_id did name version cred_def_id,
       json_getitem cred_data "schema_id" = Ok (JStr schema_id) →
       is_schema_id schema_id did name version →
       json_getitem cred_data "cred_def_id" = Ok (JStr cred_def_id) →
       (∀ did' seq_no tag, ¬ is_cred_def_id cred_def_id did' seq_no tag) →
       _credential_tags cred_data
       = Raise (UpgradeError ("Error parsing credential definition ID: "
                                +:+ cred_def_id)))
  ∧ (∀ (row : entry) cred_data e upd_count s,
       json_loads_bytes (entry_value row) = Ok cred_data →
       _credential_tags cred_data = Raise e →
       ∃ r,
         events (convert_credential (Wallet := Wallet) store row upd_count s)
         = [EvRemove "Indy::Credential" (entry_name row) r]
         ∧ result (convert_credential (Wallet := Wallet) store row upd_count s)
           = Some (Raise (match r with Ok _ => e | Raise e' => e' end)))
  ∧ (∀ upd_count s creds (row : entry) cred_data e,
       EvFetchAll "Indy::Credential" (Some 50) (Ok creds)
         ∈ events (convert_credentials_batch (Wallet := Wallet) store upd_count s) →
       row ∈ creds →
       json_loads_bytes (entry_value row) = Ok cred_data →
       _credential_tags cred_data = Raise e →
       (∃ e', result (convert_credentials_batch (Wallet := Wallet) store upd_count s)
              = Some (Raise e'))
       ∧ Forall (λ ev, ¬ is_commit ev)
           (events (convert_credentials_batch (Wallet := Wallet) store upd_count s)))
  ∧ (∀ fuel uri wallet_key profile s category name value tags r,
       EvInsert category name value tags r
         ∈ events (convert_items_to_askar (Wallet := Wallet) store fuel uri
                     wallet_key profile s) →
       category = "credential" →
       ∃ payload cred_data derived,
         value = Value payload ∧ tags = Some derived
         ∧ json_loads_bytes payload = Ok cred_data
         ∧ _credential_tags cred_data = Ok derived).
Proof.
  split; [exact credential_tags_bad_schema_id|].
  split; [exact not_an_id_is_no_schema_id|].
  split; [exact credential_tags_bad_cred_def_id|].
  split; [apply convert_credential_malformed|].
  split; [apply convert_credentials_batch_malformed|].
  intros fuel uri wallet_key profile s category name value tags r Hin.
  pose proof (convert_items_to_askar_inserts (Wallet := Wallet) store fuel uri
                wallet_key profile s) as Hall.
  eapply Forall_forall in Hall; [|exact Hin]. exact Hall.
Qed.

Lemma malformed_identifier_witness :
  _credential_tags malformed_credential
  = Raise (UpgradeError "Error parsing credential schema ID: not-an-id")
  ∧ ((∃ e', result (convert_credentials_batch (L := malformed_library)
                      (Wallet := string) (mem_store (λ _, [])) 0
                      (State (example_db [example_credential_entry]) (counting_tape 0)))
            = Some (Raise e'))
     ∧ Forall (λ ev, ¬ is_commit ev)
         (events (convert_credentials_batch (L := malformed_library)
                    (Wallet := string) (mem_store (λ _, [])) 0
                    (State (example_db [example_credential_entry]) (counting_tape 0))))).
Proof.
  pose proof (malformed_identifier_is_fatal (L := malformed_library)
                (Wallet := string) (mem_store (λ _, []))) as (H1 & H2 & _ & _ & H5 & _).
  split.
  - apply (H1 malformed_credential "not-an-id"); [reflexivity|exact H2].
  - apply (H5 0 _ [example_credential_entry] example_credential_entry
              malformed_credential
              (UpgradeError "Error parsing credential schema ID: not-an-id")).
    + apply list_elem_of_In. vm_compute. tauto.
    + apply list_elem_of_In. simpl. tauto.
    + reflexivity.
    + reflexivity.
Defined.

(** ** The master secret (C8) *)

Section master_secret_facts.
Context `{L : Library} {World Wallet AskarKey : Type}.
Variable store : StoreOps (World := World) (AskarKey := AskarKey).
Local Abbreviation event := (event (Wallet := Wallet) (AskarKey := AskarKey)).
Local Abbreviation M := (M (World := World) (Wallet := Wallet) (AskarKey := AskarKey)).
Local Abbreviation run := (run (World := World) (Wallet := Wallet) (AskarKey := AskarKey)).

Lemma convert_master_secrets_batch_cases upd_count s ms :
  EvFetchAll "Indy::MasterSecret" None (Ok ms)
    ∈ events (convert_master_secrets_batch store upd_count s : run (bool * nat)) →
  ∃ x,
    match ms with
    | [] =>
        events (convert_master_secrets_batch store upd_count s : run (bool * nat))
        = [EvTransaction (Ok tt); EvFetchAll "Indy::MasterSecret" None (Ok []);
           EvTransactionExit x]
        ∧ result (convert_master_secrets_batch store upd_count s : run (bool * nat))
          = Some (match x with Ok _ => Ok (false, upd_count) | Raise e => Raise e end)
    | [row] =>
        ∃ r1 r2 r3,
          events (convert_master_secrets_batch store upd_count s : run (bool * nat))
          = [EvTransaction (Ok tt); EvFetchAll "Indy::MasterSecret" None (Ok [row]);
             EvRemove "Indy::MasterSecret" (entry_name row) r1]
            ++ match r1 with
               | Ok _ =>
                   EvInsert "master_secret" "default" (Value (entry_value row)) None r2
                   :: match r2 with Ok _ => [EvCommit r3] | Raise _ => [] end
               | Raise _ => []
               end
            ++ [EvTransactionExit x]
          ∧ result (convert_master_secrets_batch store upd_count s : run (bool * nat))
            = Some (match x with
                    | Ok _ => r1;; r2;; r3;; Ok (true, upd_count + 1)
                    | Raise e => Raise e
                    end)
    | _ :: _ :: _ =>
        events (convert_master_secrets_batch store upd_count s : run (bool * nat))
        = [EvTransaction (Ok tt); EvFetchAll "Indy::MasterSecret" None (Ok ms);
           EvTransactionExit x]
        ∧ result (convert_master_secrets_batch store upd_count s : run (bool * nat))
          = Some (Raise (match x with
                         | Ok _ => PyException "Encountered multiple master secrets"
                         | Raise e => e
                         end))
    end.
Proof.
  unfold convert_master_secrets_batch, transaction, txn_fetch_all, txn_remove,
    txn_insert, txn_commit.
  rewrite bind_call. destruct (askar_transaction store (world s)) as [[[]|e0] w0].
  2:{ simpl. rewrite !elem_of_cons, elem_of_nil. intros [?|[]]; done. }
  rewrite try_finally_call, bind_call.
  destruct (askar_fetch_all store _ _ _) as [[ms'|e1] w1].
  2:{ simpl. rewrite !elem_of_cons, elem_of_nil. intros [?|[?|[?|[]]]]; done. }
  destruct ms' as [|row [|row' rest]].
  - simpl. rewrite !elem_of_cons, elem_of_nil. intros [?|[[= ->]|[?|[]]]]; try done.
    eexists. split; [done|]. by destruct (askar_transaction_exit store w1).1.
  - rewrite decide_False by (simpl; lia). rewrite bind_call.
    destruct (askar_remove store _ _ _) as [[[]|e2] w2].
    2:{ simpl. rewrite !elem_of_cons, elem_of_nil. intros [?|[[= ->]|[?|[?|[]]]]]; try done.
        eexists. exists (Raise e2), (Ok tt), (Ok tt). split; [done|].
        by destruct (askar_transaction_exit store w2).1. }
    rewrite bind_call. destruct (askar_insert store _ _ _ _ _) as [[[]|e3] w3].
    2:{ simpl. rewrite !elem_of_cons, elem_of_nil.
        intros [?|[[= ->]|[?|[?|[?|[]]]]]]; try done.
        eexists. exists (Ok tt), (Raise e3), (Ok tt). split; [done|].
        by destruct (askar_transaction_exit store w3).1. }
    rewrite bind_call. destruct (askar_commit store _) as [[[]|e4] w4].
    2:{ simpl. rewrite !elem_of_cons, elem_of_nil.
        intros [?|[[= ->]|[?|[?|[?|[?|[]]]]]]]; try done.
        eexists. exists (Ok tt), (Ok tt), (Raise e4). split; [done|].
        by destruct (askar_transaction_exit store w4).1. }
    simpl. rewrite !elem_of_cons, elem_of_nil.
    intros [?|[[= ->]|[?|[?|[?|[?|[]]]]]]]; try done.
    eexists. exists (Ok tt), (Ok tt), (Ok tt). split; [done|].
    by destruct (askar_transaction_exit store w4).1.
  - rewrite decide_True by (simpl; lia). simpl.
    rewrite !elem_of_cons, elem_of_nil. intros [?|[[= ->]|[?|[]]]]; try done.
    eexists. split; [done|]. by destruct (askar_transaction_exit store w1).1.
Qed.

(** A round that does not say to go on is the last one of its loop. *)
Lemma while_true_last {A} fuel (body : A → M (bool * A)) a s :
  (∀ a', result (body a s) ≠ Some (Ok (true, a'))) →
  events (while_true (S fuel) body a s) = events (body a s)
  ∧ result (while_true (S fuel) body a s)
    = match result (body a s) with
      | Some (Ok (_, a')) => Some (Ok a')
      | Some (Raise e) => Some (Raise e)
      | None => None
      end.
Proof.
  intros Hstop. cbn [while_true]. rewrite bind_run.
  destruct (result (body a s)) as [[[[] a']|e]|]; simpl; try done.
  - by destruct (Hstop a').
  - by rewrite app_nil_r.
Qed.

End master_secret_facts.

(** C8: in a round of the loop over the master secrets, a fetch that returns
    more than one row is followed by no call but the one that leaves the
    transaction, and the round raises the exception "Encountered multiple
    master secrets" (nothing is removed, inserted or committed); a fetch that
    returns exactly one row is followed by its removal from
    [Indy::MasterSecret], its insertion as [master_secret]/[default] with the
    same value, and the commit; a fetch that returns no row ends the loop
    with that round. *)
Theorem master_secret_invariant {World Wallet AskarKey : Type}
    (store : StoreOps (World := World) (AskarKey := AskarKey)) :
  (∀ upd_count s ms,
     EvFetchAll "Indy::MasterSecret" None (Ok ms)
       ∈ events (convert_master_secrets_batch (Wallet := Wallet) store upd_count s) →
     ∃ x,
       match ms with
       | [] =>
           events (convert_master_secrets_batch (Wallet := Wallet) store upd_count s)
           = [EvTransaction (Ok tt); EvFetchAll "Indy::MasterSecret" None (Ok []);
              EvTransactionExit x]
           ∧ result (convert_master_secrets_batch (Wallet := Wallet) store upd_count s)
             = Some (match x with Ok _ => Ok (false, upd_count) | Raise e => Raise e end)
       | [row] =>
           ∃ r1 r2 r3,
             events (convert_master_secrets_batch (Wallet := Wallet) store upd_count s)
             = [EvTransaction (Ok tt);
                EvFetchAll "Indy::MasterSecret" None (Ok [row]);
                EvRemove "Indy::MasterSecret" (entry_name row) r1]
               ++ match r1 with
                  | Ok _ =>
                      EvInsert "master_secret" "default" (Value (entry_value row))
                        None r2
                      :: match r2 with Ok _ => [EvCommit r3] | Raise _ => [] end
                  | Raise _ => []
                  end
               ++ [EvTransactionExit x]
             ∧ result (convert_master_secrets_batch (Wallet := Wallet) store upd_count s)
               = Some (match x with
                       | Ok _ => r1;; r2;; r3;; Ok (true, upd_count + 1)
                       | Raise e => Raise e
                       end)
       | _ :: _ :: _ =>
           events (convert_master_secrets_batch (Wallet := Wallet) store upd_count s)
           = [EvTransaction (Ok tt); EvFetchAll "Indy::MasterSecret" None (Ok ms);
              EvTransactionExit x]
           ∧ result (convert_master_secrets_batch (Wallet := Wallet) store upd_count s)
             = Some (Raise (match x with
                            | Ok _ => PyException "Encountered multiple master secrets"
                            | Raise e => e
                            end))
       end)
  ∧ (∀ fuel upd_count s,
       EvFetchAll "Indy::MasterSecret" None (Ok [])
         ∈ events (convert_master_secrets_batch (Wallet := Wallet) store upd_count s) →
       events (while_true (S fuel) (convert_master_secrets_batch (Wallet := Wallet) store)
                 upd_count s)
       = events (convert_master_secrets_batch (Wallet := Wallet) store upd_count s)
       ∧ ∃ x : exc unit,
           result (while_true (S fuel)
                     (convert_master_secrets_batch (Wallet := Wallet) store) upd_count s)
           = Some (match x with Ok _ => Ok upd_count | Raise e => Raise e end)).
Proof.
  split; [apply convert_master_secrets_batch_cases|].
  intros fuel upd_count s Hev.
  destruct (convert_master_secrets_batch_cases store upd_count s [] Hev) as (x & _ & Hres).
  destruct (while_true_last fuel (convert_master_secrets_batch (Wallet := Wallet) store)
              upd_count s) as [Hevs Hr].
  { intros a'. rewrite Hres. by destruct x. }
  split; [done|]. exists x. rewrite Hr, Hres. by destruct x.
Qed.

Lemma master_secret_invariant_witness :
  ∃ x,
    events (convert_master_secrets_batch (Wallet := string)
              (mem_store (λ _, [])) 0
              (State (example_db [example_master_secret "a"; example_master_secret "b"])
                 (counting_tape 0)))
    = [EvTransaction (Ok tt);
       EvFetchAll "Indy::MasterSecret" None
         (Ok [example_master_secret "a"; example_master_secret "b"]);
       EvTransactionExit x]
    ∧ result (convert_master_secrets_batch (Wallet := string)
                (mem_store (λ _, [])) 0
                (State (example_db [example_master_secret "a"; example_master_secret "b"])
                   (counting_tape 0)))
      = Some (Raise (match x with
                     | Ok _ => PyException "Encountered multiple master secrets"
                     | Raise e => e
                     end)).
Proof.
  apply (proj1 (master_secret_invariant (Wallet := string)
                  (mem_store (λ _, []))) 0 _
           [example_master_secret "a"; example_master_secret "b"]).
  apply list_elem_of_In. vm_compute. tauto.
Defined.

(** ** The re-key loop (C4) *)

Section rekey_facts.
Context `{L : Library} {World Wallet AskarKey : Type}.
Variable wallets : WalletOps (World := World) (Wallet := Wallet).
Local Abbreviation event := (event (Wallet := Wallet) (AskarKey := AskarKey)).
Local Abbreviation M := (M (World := World) (Wallet := Wallet) (AskarKey := AskarKey)).
Local Abbreviation run := (run (World := World) (Wallet := Wallet) (AskarKey := AskarKey)).
Implicit Types (s : state (World := World)) (indy_key : gmap string bytes).

Lemma rekey_row_run wallet indy_key pk (r : row) upd s :
  (rekey_row wallets wallet indy_key pk r upd : M _) s =
    match decrypt_item r indy_key (wallet_is_pg wallets wallet) with
    | Raise e => Run (Some (Raise e)) s []
    | Ok plain =>
        match update_item plain pk (rng s) with
        | (Ok it, g) => Run (Some (Ok (upd ++ [it]))) (State (world s) g) []
        | (Raise e, g) => Run (Some (Raise e)) (State (world s) g) []
        end
    end.
Proof.
  unfold rekey_row. rewrite bind_lift. destruct (decrypt_item _ _ _); [|done].
  rewrite bind_rand. by destruct (update_item _ _ _) as [[it|e] g].
Qed.

(** Re-keying the fetched rows makes no call, leaves the world alone and
    always ends; when it ends normally, it has appended the re-keyed rows. *)
Lemma for_each_rekey_row wallet indy_key pk rows upd s :
  let rf := (for_each rows (rekey_row wallets wallet indy_key pk) upd : M _) s in
  events rf = [] ∧ world (final rf) = world s
  ∧ ((∃ e, result rf = Some (Raise e))
     ∨ ∃ items,
         result rf = Some (Ok (upd ++ items))
         ∧ Forall2 (λ row it, ∃ plain g g',
                      decrypt_item row indy_key (wallet_is_pg wallets wallet) = Ok plain
                      ∧ update_item plain pk g = (Ok it, g'))
                   rows items).
Proof.
  revert upd s. induction rows as [|r rows IH]; intros upd s; cbn [for_each].
  - simpl. repeat split. right. exists []. by rewrite app_nil_r.
  - cbv zeta. rewrite bind_after, rekey_row_run.
    destruct (decrypt_item r _ _) as [plain|e] eqn:Hd; simpl; [|by eauto].
    destruct (update_item plain pk (rng s)) as [[it|e] g] eqn:Hu; simpl; [|by eauto].
    destruct (IH (upd ++ [it]) (State (world s) g)) as (-> & -> & Hres).
    repeat split. destruct Hres as [[e He]|(items & Hi & Hall)]; [by eauto|].
    right. exists (it :: items).
    rewrite Hi, <- app_assoc. split; [done|]. constructor; [|done]. by eauto.
Qed.

(** The four ways in which a round of the loop can go. *)
Lemma update_items_batch_cases wallet indy_key pk s :
  let batch := (update_items_batch wallets wallet indy_key pk : M _) s in
  (∃ e w, wallet_fetch_pending_items wallets wallet 1 (world s) = (Raise e, w)
          ∧ final batch = State w (rng s)
          ∧ events batch = [EvFetchPendingItems wallet 1 (Raise e)]
          ∧ result batch = Some (Raise e))
  ∨ (∃ w, wallet_fetch_pending_items wallets wallet 1 (world s) = (Ok [], w)
          ∧ final batch = State w (rng s)
          ∧ events batch = [EvFetchPendingItems wallet 1 (Ok [])]
          ∧ result batch = Some (Ok (false, tt)))
  ∨ (∃ rows w e,
       rows ≠ []
       ∧ wallet_fetch_pending_items wallets wallet 1 (world s) = (Ok rows, w)
       ∧ world (final batch) = w
       ∧ events batch = [EvFetchPendingItems wallet 1 (Ok rows)]
       ∧ result batch = Some (Raise e))
  ∨ (∃ rows w upd r,
       rows ≠ []
       ∧ wallet_fetch_pending_items wallets wallet 1 (world s) = (Ok rows, w)
       ∧ Forall2 (λ row it, ∃ plain g g',
                    decrypt_item row indy_key (wallet_is_pg wallets wallet) = Ok plain
                    ∧ update_item plain pk g = (Ok it, g'))
                 rows upd
       ∧ wallet_update_items wallets wallet upd w = (r, world (final batch))
       ∧ events batch
         = [EvFetchPendingItems wallet 1 (Ok rows); EvUpdateItems wallet upd r]
       ∧ result batch = Some (r;; Ok (true, tt))).
Proof.
  cbv zeta. unfold update_items_batch. rewrite bind_call.
  destruct (wallet_fetch_pending_items wallets wallet 1 (world s)) as [[rows|e] w] eqn:Hf.
  2:{ left. exists e, w. by repeat split. }
  destruct rows as [|r0 rows].
  { right; left. exists w. by repeat split. }
  right; right. rewrite bind_after.
  pose proof (for_each_rekey_row wallet indy_key pk (r0 :: rows) [] (State w (rng s)))
    as Hrf. cbv zeta in Hrf.
  set (rf := for_each (r0 :: rows) _ _ _) in *. clearbody rf.
  destruct Hrf as (Hev & Hw & Hres). simpl in Hw.
  destruct Hres as [[e He]|(upd & Hupd & Hall)].
  - left. exists (r0 :: rows), w, e. rewrite He. simpl. rewrite Hev.
    by repeat split.
  - right. rewrite Hupd. rewrite bind_call, Hw. simpl in Hall.
    destruct (wallet_update_items wallets wallet upd w) as [[[]|e] w2] eqn:Hu;
      exists (r0 :: rows), w, upd; eexists; simpl; rewrite Hev, ?Hu; simpl;
      by repeat split.
Qed.

End rekey_facts.
Section rekey_loop_facts.
Context `{L : Library} {World Wallet AskarKey : Type}.
Variable wallets : WalletOps (World := World) (Wallet := Wallet).
Local Abbreviation event := (event (Wallet := Wallet) (AskarKey := AskarKey)).
Local Abbreviation M := (M (World := World) (Wallet := Wallet) (AskarKey := AskarKey)).
Local Abbreviation run := (run (World := World) (Wallet := Wallet) (AskarKey := AskarKey)).
Implicit Types (s : state (World := World)) (indy_key : gmap string bytes).

Lemma update_items_calls fuel wallet indy_key pk :
  emits (is_rekey_call wallet) (update_items wallets fuel wallet indy_key pk : M unit).
Proof. unfold update_items, update_items_batch, rekey_row. solve_emits. Qed.



Lemma update_items_rounds fuel wallet indy_key pk s :
  result ((update_items wallets fuel wallet indy_key pk : M unit) s) = Some (Ok tt) →
  rekey_rounds wallet indy_key pk (wallet_is_pg wallets wallet)
    (events ((update_items wallets fuel wallet indy_key pk : M unit) s)).
Proof.
  unfold update_items. revert s. induction fuel as [|fuel IH]; intros s; [done|].
  cbn [while_true]. rewrite bind_after.
  destruct (update_items_batch_cases (AskarKey := AskarKey) wallets wallet indy_key pk s)
    as [(e & w & _ & _ & Hev & Hres)|[(w & _ & _ & Hev & Hres)
       |[(rows & w & e & _ & _ & _ & Hev & Hres)
       |(rows & w & upd & r & Hne & _ & Hall & _ & Hev & Hres)]]];
    rewrite Hres; simpl; try done.
  - intros _. rewrite Hev. simpl. constructor.
  - destruct r as [[]|e]; simpl; [|done]. intros Hok. rewrite Hev. simpl.
    constructor; [done|done|]. by apply IH.
Qed.

End rekey_loop_facts.

Lemma decrypt_item_id `{L : Library} r keys b64 it :
  decrypt_item r keys b64 = Ok it → item_id it = row_id r.
Proof.
  unfold decrypt_item, mbind, exc_bind.
  repeat match goal with
         | |- context [match ?x with Ok _ => _ | Raise _ => _ end] =>
             destruct x; [|done]
         end.
  by intros [= <-].
Qed.

Lemma update_item_id `{L : Library} it key g u g' :
  update_item it key g = (Ok u, g') → upd_id u = item_id it.
Proof.
  unfold update_item, mbind, Rand_bind.
  destruct (rand_mapM _ _ g) as [[tags|] g1]; [|done].
  destruct (encrypt_merged (item_type it) _ _ g1) as [[c|] g2]; [|done].
  destruct (encrypt_merged (item_name it) _ _ g2) as [[n|] g3]; [|done].
  destruct (encrypt_value _ _ _ _ g3) as [[v|] g4]; [|done].
  by intros [= <- <-].
Qed.

Section mem_wallet_facts.
Context `{L : Library} {AskarKey : Type}.
Local Abbreviation event := (event (Wallet := string) (AskarKey := AskarKey)).
Local Abbreviation M := (M (World := mem_db) (Wallet := string) (AskarKey := AskarKey)).
Local Abbreviation run := (run (World := mem_db) (Wallet := string) (AskarKey := AskarKey)).
Implicit Types (s : state (World := mem_db)) (indy_key : gmap string bytes).






End mem_wallet_facts.



(** ** The two strategies (C5, C9) *)

Section run_facts.
Context `{L : Library} {World Wallet AskarKey : Type}.
Variable conn : ConnOps (World := World) (Wallet := Wallet).
Variable wallets : WalletOps (World := World) (Wallet := Wallet).
Variable store : StoreOps (World := World) (AskarKey := AskarKey).
Local Abbreviation event := (event (Wallet := Wallet) (AskarKey := AskarKey)).
Local Abbreviation M := (M (World := World) (Wallet := Wallet) (AskarKey := AskarKey)).
Local Abbreviation run := (run (World := World) (Wallet := Wallet) (AskarKey := AskarKey)).
Implicit Types (s : state (World := World)).

Lemma dbpw_rekey_calls fuel self wallet :
  emits is_upgrade_call (dbpw_rekey conn wallets fuel self wallet : M unit).
Proof.
  unfold dbpw_rekey, fetch_indy_key, create_config, init_profile, update_items,
    update_items_batch, rekey_row.
  solve_emits. all: unfold is_upgrade_call; simpl; tauto.
Qed.

Lemma mwst_rekey_calls fuel self :
  emits is_upgrade_call (mwst_rekey conn wallets fuel self : M unit).
Proof.
  unfold mwst_rekey, mwst_rekey_wallet, fetch_indy_key, create_config,
    mwst_init_profile, update_items, update_items_batch, rekey_row.
  solve_emits. all: unfold is_upgrade_call; simpl; tauto.
Qed.

Lemma convert_items_to_askar_calls fuel uri wallet_key profile :
  emits is_conversion_call
    (convert_items_to_askar store fuel uri wallet_key profile : M unit).
Proof.
  unfold convert_items_to_askar, convert_keys, convert_master_secrets,
    convert_master_secrets_batch, convert_dids, convert_schemas, convert_cred_defs,
    convert_rev_reg_defs, convert_rev_reg_keys, convert_rev_reg_states,
    convert_rev_reg_info, convert_credentials, convert_credentials_batch,
    convert_credential, copy_category, print_updated, transaction,
    txn_fetch_all, txn_fetch, txn_remove, txn_insert, txn_insert_key, txn_commit.
  solve_emits.
Qed.

(** The shape that the two [run] methods share: the re-key steps and
    [finish_upgrade] in a [try] block, [close] in its [finally], and the
    conversion behind. *)
Lemma guarded_run (rekey convert : M unit) s :
  emits is_conversion_call convert →
  let r := (try_finally (rekey;; call EvFinishUpgrade (conn_finish_upgrade conn))
              (call EvClose (conn_close conn));; convert) s in
  match result (rekey s) with
  | Some (Ok _) =>
      ∃ x y t,
        events r = events (rekey s) ++ [EvFinishUpgrade x; EvClose y] ++ t
        ∧ Forall is_conversion_call t
        ∧ (t ≠ [] → x = Ok tt ∧ y = Ok tt)
  | Some (Raise e) =>
      ∃ y,
        events r = events (rekey s) ++ [EvClose y]
        ∧ result r = Some (Raise (match y with Ok _ => e | Raise e' => e' end))
  | None => events r = events (rekey s) ∧ result r = None
  end.
Proof.
  intros Hconv. cbv zeta. rewrite bind_after, try_finally_call, bind_after.
  destruct (result (rekey s)) as [[[]|e]|]; simpl.
  - rewrite call_run. simpl.
    destruct (conn_finish_upgrade conn (world (final (rekey s)))) as [[[]|e1] w1]; simpl.
    + destruct (conn_close conn w1) as [[[]|e2] w2]; simpl.
      * eexists _, _, _. rewrite <- !app_assoc. simpl. split; [done|]. split; [apply Hconv|done].
      * exists (Ok tt), (Raise e2), []. rewrite <- !app_assoc. by repeat split.
    + destruct (conn_close conn w1) as [[[]|e2] w2]; simpl.
      * exists (Raise e1), (Ok tt), []. rewrite <- !app_assoc. by repeat split.
      * exists (Raise e1), (Raise e2), []. rewrite <- !app_assoc. by repeat split.
  - destruct (conn_close conn _) as [[[]|e2] w2]; simpl; by eexists.
  - done.
Qed.

Lemma conn_uri_attr_calls P : emits P (conn_uri_attr conn : M string).
Proof. intros s. constructor. Qed.

Lemma dbpw_run_shape fuel self s wallet s1 t0 :
  (dbpw_open conn : M Wallet) s = Run (Some (Ok wallet)) s1 t0 →
  let rekey := (dbpw_rekey conn wallets fuel self wallet : M unit) s1 in
  let r := (dbpw_run conn wallets store fuel self : M unit) s in
  Forall is_upgrade_call (t0 ++ events rekey)
  ∧ match result rekey with
    | Some (Ok _) =>
        ∃ x y t,
          events r = t0 ++ events rekey ++ [EvFinishUpgrade x; EvClose y] ++ t
          ∧ Forall is_conversion_call t
          ∧ (t ≠ [] → x = Ok tt ∧ y = Ok tt)
    | Some (Raise e) =>
        ∃ y,
          events r = t0 ++ events rekey ++ [EvClose y]
          ∧ result r = Some (Raise (match y with Ok _ => e | Raise e' => e' end))
    | None => events r = t0 ++ events rekey ∧ result r = None
    end.
Proof.
  intros Hopen. cbv zeta. split.
  - apply Forall_app. split; [|apply dbpw_rekey_calls].
    assert (He : emits is_upgrade_call (dbpw_open conn : M Wallet)).
    { unfold dbpw_open. solve_emits. all: unfold is_upgrade_call; simpl; tauto. }
    specialize (He s). by rewrite Hopen in He.
  - unfold dbpw_run. rewrite (bind_ok _ _ _ _ _ _ Hopen).
    match goal with
    | |- context [(try_finally _ _ ≫= ?c) s1] =>
        pose proof (guarded_run (dbpw_rekey conn wallets fuel self wallet)
                      (c tt) s1) as Hg
    end.
    cbv zeta in Hg. simpl.
    match type of Hg with ?H → _ => assert (Hc : H) end.
    { apply emits_bind; [apply conn_uri_attr_calls|].
      intros uri. apply convert_items_to_askar_calls. }
    specialize (Hg Hc).
    destruct (result (dbpw_rekey conn wallets fuel self wallet s1)) as [[[]|e]|].
    + destruct Hg as (x & y & t & -> & Ht & Hxy). by exists x, y, t.
    + destruct Hg as (y & -> & ->). by exists y.
    + by destruct Hg as [-> ->].
Qed.

Lemma dbpw_run_not_opened fuel self s :
  (∀ wallet, result ((dbpw_open conn : M Wallet) s) ≠ Some (Ok wallet)) →
  events ((dbpw_run conn wallets store fuel self : M unit) s)
  = events ((dbpw_open conn : M Wallet) s)
  ∧ Forall is_upgrade_call (events ((dbpw_open conn : M Wallet) s)).
Proof.
  intros Hno. split.
  - unfold dbpw_run. rewrite bind_after.
    destruct (result (dbpw_open conn s)) as [[w|e]|]; try done. by destruct (Hno w).
  - assert (He : emits is_upgrade_call (dbpw_open conn : M Wallet)).
    { unfold dbpw_open. solve_emits. all: unfold is_upgrade_call; simpl; tauto. }
    apply He.
Qed.

Lemma mwst_run_shape fuel self s :
  let opened := (call EvConnect (conn_connect conn) : M unit) s in
  let rekey := (mwst_rekey conn wallets fuel self : M unit) (final opened) in
  let r := (mwst_run conn wallets store fuel self : M unit) s in
  match result opened with
  | Some (Ok _) =>
      Forall is_upgrade_call (events opened ++ events rekey)
      ∧ match result rekey with
        | Some (Ok _) =>
            ∃ x y t,
              events r
              = events opened ++ events rekey ++ [EvFinishUpgrade x; EvClose y] ++ t
              ∧ Forall is_conversion_call t
              ∧ (t ≠ [] → x = Ok tt ∧ y = Ok tt)
        | Some (Raise e) =>
            ∃ y,
              events r = events opened ++ events rekey ++ [EvClose y]
              ∧ result r
                = Some (Raise (match y with Ok _ => e | Raise e' => e' end))
        | None => events r = events opened ++ events rekey ∧ result r = None
        end
  | _ => ∃ e, events r = [EvConnect (Raise e)]
  end.
Proof.
  cbv zeta. unfold mwst_run. rewrite (bind_after (call EvConnect _)), call_run. simpl.
  destruct (conn_connect conn (world s)) as [[[]|e0] w0]; simpl; [|by eexists].
  split.
  - constructor; [unfold is_upgrade_call; simpl; tauto|]. apply mwst_rekey_calls.
  - match goal with
    | |- context [(try_finally _ _ ≫= ?c) ?s1] =>
        pose proof (guarded_run (mwst_rekey conn wallets fuel self) (c tt) s1) as Hg
    end.
    cbv zeta in Hg.
    match type of Hg with ?H → _ => assert (Hc : H) end.
    { apply emits_for_each. intros [wallet_name wallet_key] [].
      apply emits_bind; [apply conn_uri_attr_calls|].
      intros uri. apply convert_items_to_askar_calls. }
    specialize (Hg Hc).
    destruct (result (mwst_rekey conn wallets fuel self _)) as [[[]|e]|].
    + destruct Hg as (x & y & t & -> & Ht & Hxy). by exists x, y, t.
    + destruct Hg as (y & -> & ->). by exists y.
    + by destruct Hg as [-> ->].
Qed.

End run_facts.

(** ** The profile key (C9) *)

Section profile_facts.
Context {L : Library} {World Wallet AskarKey : Type}.
Variable (conn : ConnOps (World := World) (Wallet := Wallet)).
Variable (wallets : WalletOps (World := World) (Wallet := Wallet)).
Variable (store : StoreOps (World := World) (AskarKey := AskarKey)).
Local Abbreviation event := (event (Wallet := Wallet) (AskarKey := AskarKey)).
Local Abbreviation M := (M (World := World) (Wallet := Wallet) (AskarKey := AskarKey)).
Local Abbreviation run := (run (World := World) (Wallet := Wallet) (AskarKey := AskarKey)).
Implicit Types (s : state (World := World)).

(** Without an HMAC key the nonce is the next 12 bytes of the generator, the
    message is sealed under [key] with it, and [decrypt_merged] opens the
    result. *)
Lemma encrypt_merged_fresh_nonce {LC : LibraryContract L} message key g :
  length key = CHACHAPOLY_KEY_LEN →
  let nonce := map (tape g) (seq (cursor g) CHACHAPOLY_NONCE_LEN) in
  ∃ ciphertext,
    encrypt_merged message key None g
    = (Ok (nonce ++ ciphertext),
       {| tape := tape g; cursor := cursor g + CHACHAPOLY_NONCE_LEN |})
    ∧ aead_encrypt message nonce key = Ok ciphertext
    ∧ decrypt_merged (nonce ++ ciphertext) key false = Ok message.
Proof.
  intros Hk nonce.
  assert (Hn : length nonce = CHACHAPOLY_NONCE_LEN).
  { subst nonce. by rewrite length_map, length_seq. }
  destruct (aead_seal_open message nonce key Hn Hk) as (c & Hc & Hl & Hd).
  exists c. rewrite encrypt_merged_random by done. cbv zeta. fold nonce. rewrite Hc.
  split; [done|]. split; [done|].
  unfold decrypt_merged, mbind, exc_bind.
  by rewrite take_app_length', drop_app_length'.
Qed.

Lemma mwst_init_profile_run {LC : LibraryContract L} wallet name base_indy_key indy_key
    pk (master : bytes) s :
  copies_keys indy_key pk →
  base_indy_key !! "master" = Some master →
  length master = CHACHAPOLY_KEY_LEN →
  persists_profile_key wallets wallet name pk master s
    ((mwst_init_profile wallets wallet name base_indy_key indy_key : M _) s).
Proof.
  destruct pk as [v k1 k2 k3 k4 k5 k6]. unfold copies_keys. simpl.
  intros (-> & H1 & H2 & H3 & H4 & H5 & H6) H7 Hlen.
  set (pk := ProfileKey _ _ _ _ _ _ _).
  destruct (encrypt_merged_fresh_nonce (cbor2_dumps pk) master (rng s) Hlen)
    as (c & Henc & Hc & Hd).
  exists c. split; [done|]. split; [done|]. cbv zeta.
  unfold mwst_init_profile, keys_getitem. rewrite H1, H2, H3, H4, H5, H6.
  cbn [mbind exc_bind]. rewrite bind_lift, H7, bind_lift, bind_rand.
  fold pk. rewrite Henc. rewrite bind_call. simpl.
  by destruct (wallet_insert_profile _ _ _ _ _) as [[[]|e] w].
Qed.

(** The calls of [init_profile], whatever the keys are. *)
Lemma mwst_init_profile_calls wallet name base_indy_key indy_key s :
  let r := (mwst_init_profile wallets wallet name base_indy_key indy_key : M _) s in
  (events r = [] ∧ ∀ a, result r ≠ Some (Ok a))
  ∨ ∃ enc_pk x, events r = [EvInsertProfile wallet name enc_pk x]
      ∧ (x = Ok tt ∨ ∀ a, result r ≠ Some (Ok a)).
Proof.
  cbv zeta. unfold mwst_init_profile. rewrite bind_lift.
  match goal with |- context [match ?x with Ok _ => _ | Raise _ => _ end] =>
    destruct x as [pk|e] end; [|by left].
  rewrite bind_lift. destruct (keys_getitem _ _) as [master|e]; [|by left].
  rewrite bind_rand. destruct (encrypt_merged _ _ _ _) as [[enc_pk|e] g]; [|by left].
  rewrite bind_call. right. exists enc_pk.
  destruct (wallet_insert_profile _ _ _ _ _) as [[[]|e] w]; simpl.
  - exists (Ok tt). by split; [|left].
  - exists (Raise e). by split; [|right].
Qed.

Lemma filter_quiet (t : list event) :
  Forall (λ e, ¬ is_profile_or_item_call e) t →
  filter (λ e, Is_true (is_profile_or_item_call e)) t = [].
Proof.
  induction 1 as [|e t He _ IH]; [done|]. by rewrite filter_cons_False.
Qed.

Lemma filter_item_calls wallet (t : list event) :
  Forall (is_item_call wallet) t →
  filter (λ e, Is_true (is_profile_or_item_call e)) t = t.
Proof.
  induction 1 as [|e t He _ IH]; [done|].
  rewrite filter_cons_True, IH; [done|]. by destruct e.
Qed.

Lemma profile_then_items_bind {A B} wallet name (m : M A) (f : A → M B) s :
  emits (λ e, ¬ is_profile_or_item_call e) m →
  (∀ a s', profile_then_items wallet name (f a s')) →
  profile_then_items wallet name ((m ≫= f) s).
Proof.
  intros Hm Hf. unfold profile_then_items. rewrite bind_run.
  pose proof (filter_quiet _ (Hm s)) as Hq.
  destruct (result (m s)) as [[a|e]|]; simpl.
  - rewrite filter_app, Hq. apply Hf.
  - by rewrite Hq.
  - by rewrite Hq.
Qed.

Lemma init_then_update_items fuel wallet name base_indy_key indy_key s :
  profile_then_items wallet name
    ((mwst_init_profile wallets wallet name base_indy_key indy_key
      ≫= update_items wallets fuel wallet indy_key : M unit) s).
Proof.
  unfold profile_then_items. rewrite bind_run.
  destruct (mwst_init_profile_calls wallet name base_indy_key indy_key s)
    as [[He Hr]|(enc_pk & x & He & Hr)]; cbv zeta in *.
  - destruct (result _) as [[pk|e]|]; simpl; rewrite He; try done.
    by destruct (Hr pk).
  - assert (Hu : ∀ pk s', Forall (is_item_call wallet)
                (events ((update_items wallets fuel wallet indy_key pk : M unit) s'))).
    { intros pk s'. eapply Forall_impl; [apply update_items_calls|].
      intros [] Hc; try done; simpl in *; tauto. }
    destruct (result _) as [[pk|e]|]; simpl; rewrite He; simpl.
    + split; [by eexists _, _|].
      rewrite (filter_item_calls wallet) by apply Hu. apply Hu.
    + split; [by eexists _, _|constructor].
    + split; [by eexists _, _|constructor].
Qed.

Lemma dbpw_rekey_profile fuel self wallet s :
  profile_then_items wallet (dbpw_wallet_name self)
    ((dbpw_rekey conn wallets fuel self wallet : M unit) s).
Proof.
  unfold dbpw_rekey.
  apply profile_then_items_bind.
  { solve_emits. simpl. tauto. }
  intros _ s1. apply profile_then_items_bind.
  { unfold fetch_indy_key. solve_emits. all: simpl; tauto. }
  intros indy_key s2. apply profile_then_items_bind.
  { unfold create_config. solve_emits. all: simpl; tauto. }
  intros _ s3. apply (init_then_update_items fuel wallet _ indy_key indy_key).
Qed.

Lemma mwst_rekey_wallet_profile fuel base_indy_key wallet_name wallet_key s :
  let r := (mwst_rekey_wallet conn wallets fuel base_indy_key wallet_name wallet_key
             : M unit) s in
  match (conn_get_wallet conn (Some wallet_name) (world s)).1 with
  | Ok wallet => profile_then_items wallet wallet_name r
  | Raise e =>
      events r = [EvGetWallet (Some wallet_name) (Raise e)]
      ∧ result r = Some (Raise e)
  end.
Proof.
  cbv zeta. unfold mwst_rekey_wallet. rewrite bind_call.
  destruct (conn_get_wallet conn _ _) as [[wallet|e] w]; simpl; [|done].
  match goal with |- context [after _ ?r] => set (rest := r) end.
  assert (Hrest : profile_then_items wallet wallet_name rest).
  { subst rest. apply profile_then_items_bind.
    { unfold fetch_indy_key. solve_emits. all: simpl; tauto. }
    intros indy_key s2. apply init_then_update_items. }
  clearbody rest. unfold profile_then_items, after in *. simpl.
  by rewrite filter_cons_False by (simpl; tauto).
Qed.

Lemma profile_precedes_items_app (t u : list event) :
  profile_precedes_items t → profile_precedes_items u →
  profile_precedes_items (t ++ u).
Proof.
  intros Ht Hu t1 e t2 w E He.
  apply app_eq_app in E as [l [[-> E]|[-> ->]]].
  - destruct l as [|e' l]; simpl in E.
    + destruct (Hu [] e t2 w) as (name & enc_pk & x & Hin); [by rewrite E|done|].
      by apply elem_of_nil in Hin.
    + injection E as <- ->.
      destruct (Ht t1 e l w) as (name & enc_pk & x & Hin); [done|done|].
      by exists name, enc_pk, x.
  - destruct (Hu l e t2 w) as (name & enc_pk & x & Hin); [done|done|].
    exists name, enc_pk, x. apply elem_of_app. by right.
Qed.

Lemma profile_precedes_items_quiet (t : list event) :
  Forall (λ e, ¬ is_profile_or_item_call e) t → profile_precedes_items t.
Proof.
  intros Ht t1 e t2 w -> He. apply Forall_app in Ht as [_ Ht].
  apply Forall_inv in Ht. by destruct e.
Qed.

Lemma profile_then_items_precedes {A} wallet name (r : run A) :
  profile_then_items wallet name r → profile_precedes_items (events r).
Proof.
  unfold profile_then_items. intros Hr t1 e t2 w E He. rewrite E in Hr.
  assert (Hrel : Is_true (is_profile_or_item_call e)) by by destruct e.
  rewrite filter_app, filter_cons_True in Hr by done.
  destruct (filter _ t1) as [|e1 l1] eqn:E1; simpl in Hr.
  - destruct Hr as [(enc_pk & x & ->) _]. done.
  - destruct Hr as [(enc_pk & x & ->) Hrest].
    apply Forall_app in Hrest as [_ Hrest]. apply Forall_inv in Hrest.
    assert (w = wallet) as -> by (destruct e; try done; simpl in *; congruence).
    exists name, enc_pk, x.
    assert (Hin : EvInsertProfile wallet name enc_pk x
                  ∈ filter (λ e, Is_true (is_profile_or_item_call e)) t1).
    { rewrite E1. apply elem_of_cons. by left. }
    by apply list_elem_of_filter in Hin as [_ Hin].
Qed.

Lemma profile_precedes_items_bind {A B} (m : M A) (f : A → M B) s :
  (∀ s', profile_precedes_items (events (m s'))) →
  (∀ a s', profile_precedes_items (events (f a s'))) →
  profile_precedes_items (events ((m ≫= f) s)).
Proof.
  intros Hm Hf. rewrite bind_run. specialize (Hm s).
  destruct (result (m s)) as [[a|e]|]; simpl; try done.
  by apply profile_precedes_items_app.
Qed.

Lemma profile_precedes_items_emits {A} (m : M A) s :
  emits (λ e, ¬ is_profile_or_item_call e) m →
  profile_precedes_items (events (m s)).
Proof. intros Hm. apply profile_precedes_items_quiet, Hm. Qed.

Lemma profile_precedes_items_for_each {X} (l : list X) (body : X → unit → M unit) s :
  (∀ x a s', profile_precedes_items (events (body x a s'))) →
  profile_precedes_items (events (for_each l body tt s)).
Proof.
  intros Hb. revert s. induction l as [|x l IH]; intros s.
  - by apply profile_precedes_items_quiet.
  - cbn [for_each]. apply profile_precedes_items_bind; [apply Hb|].
    intros [] s'. apply IH.
Qed.

Lemma mwst_rekey_wallet_precedes fuel base_indy_key wallet_name wallet_key s :
  profile_precedes_items
    (events ((mwst_rekey_wallet conn wallets fuel base_indy_key wallet_name wallet_key
              : M unit) s)).
Proof.
  pose proof (mwst_rekey_wallet_profile fuel base_indy_key wallet_name wallet_key s)
    as H. cbv zeta in H.
  destruct (conn_get_wallet conn _ _).1 as [wallet|e].
  - by eapply profile_then_items_precedes.
  - destruct H as [-> _]. apply profile_precedes_items_quiet.
    constructor; [simpl; tauto|constructor].
Qed.

Lemma guarded_run_precedes (rekey convert : M unit) s :
  (∀ s', profile_precedes_items (events (rekey s'))) →
  emits is_conversion_call convert →
  profile_precedes_items
    (events ((try_finally (rekey;; call EvFinishUpgrade (conn_finish_upgrade conn))
                (call EvClose (conn_close conn));; convert) s)).
Proof.
  intros Hrekey Hconv.
  pose proof (guarded_run conn rekey convert s Hconv) as H. cbv zeta in H.
  specialize (Hrekey s).
  destruct (result (rekey s)) as [[[]|e]|].
  - destruct H as (x & y & t & -> & Ht & _).
    apply profile_precedes_items_app; [done|].
    apply profile_precedes_items_quiet.
    constructor; [simpl; tauto|]. constructor; [simpl; tauto|].
    eapply Forall_impl; [exact Ht|]. intros []; simpl; tauto.
  - destruct H as (y & -> & _). apply profile_precedes_items_app; [done|].
    apply profile_precedes_items_quiet. constructor; [simpl; tauto|constructor].
  - by destruct H as [-> _].
Qed.

Lemma dbpw_run_precedes fuel self s :
  profile_precedes_items (events ((dbpw_run conn wallets store fuel self : M unit) s)).
Proof.
  unfold dbpw_run. apply profile_precedes_items_bind.
  { intros s'. apply profile_precedes_items_emits.
    unfold dbpw_open. solve_emits. all: simpl; tauto. }
  intros wallet s'. apply guarded_run_precedes.
  - intros s2. eapply profile_then_items_precedes, dbpw_rekey_profile.
  - apply emits_bind; [apply conn_uri_attr_calls|].
    intros uri. apply convert_items_to_askar_calls.
Qed.

Lemma mwst_run_precedes fuel self s :
  profile_precedes_items (events ((mwst_run conn wallets store fuel self : M unit) s)).
Proof.
  unfold mwst_run. apply profile_precedes_items_bind.
  { intros s'. apply profile_precedes_items_emits. solve_emits. simpl. tauto. }
  intros _ s'. apply guarded_run_precedes.
  - intros s2. unfold mwst_rekey. apply profile_precedes_items_bind.
    { intros s3. apply profile_precedes_items_emits. solve_emits. simpl. tauto. }
    intros _ s3. apply profile_precedes_items_bind.
    { intros s4. apply profile_precedes_items_emits. solve_emits. simpl. tauto. }
    intros base_wallet s4. apply profile_precedes_items_bind.
    { intros s5. apply profile_precedes_items_emits.
      unfold fetch_indy_key. solve_emits. all: simpl; tauto. }
    intros base_indy_key s5. apply profile_precedes_items_bind.
    { intros s6. apply profile_precedes_items_emits.
      unfold create_config. solve_emits. all: simpl; tauto. }
    intros _ s6. apply profile_precedes_items_for_each.
    intros [wallet_name wallet_key] [] s7. apply mwst_rekey_wallet_precedes.
  - apply emits_for_each. intros [wallet_name wallet_key] [].
    apply emits_bind; [apply conn_uri_attr_calls|].
    intros uri. apply convert_items_to_askar_calls.
Qed.

End profile_facts.

(** C9: [init_profile] builds the profile key from the six keys of the
    unlocked wallet, copied as they are, with the version tag ["1"]; it
    serializes it, seals it with a fresh 12-byte nonce under the master key
    of the wallet's own keys (of the base wallet's keys in
    [MwstAsProfilesStrategy]), so that [decrypt_merged] with that master key
    gives the serialized key back, and makes exactly one call
    [insert_profile] with the wallet's name and the sealed key. In the steps
    of [DbpwStrategy.run] and in each round of the loop of
    [MwstAsProfilesStrategy.run], that call comes before every call of the
    re-key loop, which is on the same wallet, and no other profile is
    inserted; a round that ends normally has made it. In a whole run of
    either strategy every call of a re-key loop on a wallet comes after an
    [insert_profile] on that wallet. *)
Theorem profile_key_persisted_once_before_rekey {L : Library} {LC : LibraryContract L}
    {World Wallet AskarKey : Type}
    (conn : ConnOps (World := World) (Wallet := Wallet))
    (wallets : WalletOps (World := World) (Wallet := Wallet))
    (store : StoreOps (World := World) (AskarKey := AskarKey)) :
  (∀ wallet name indy_key pk (master : bytes) s,
     copies_keys indy_key pk →
     indy_key !! "master" = Some master →
     length master = CHACHAPOLY_KEY_LEN →
     persists_profile_key (AskarKey := AskarKey) wallets wallet name pk master s
       (init_profile wallets wallet name indy_key s))
  ∧ (∀ wallet name base_indy_key indy_key pk (master : bytes) s,
       copies_keys indy_key pk →
       base_indy_key !! "master" = Some master →
       length master = CHACHAPOLY_KEY_LEN →
       persists_profile_key (AskarKey := AskarKey) wallets wallet name pk master s
         (mwst_init_profile wallets wallet name base_indy_key indy_key s))
  ∧ (∀ fuel self wallet s,
       profile_then_items wallet (dbpw_wallet_name self)
         (dbpw_rekey (AskarKey := AskarKey) conn wallets fuel self wallet s))
  ∧ (∀ fuel base_indy_key wallet_name wallet_key s,
       let r := mwst_rekey_wallet (AskarKey := AskarKey) conn wallets fuel
                  base_indy_key wallet_name wallet_key s in
       match (conn_get_wallet conn (Some wallet_name) (world s)).1 with
       | Ok wallet => profile_then_items wallet wallet_name r
       | Raise e =>
           events r = [EvGetWallet (Some wallet_name) (Raise e)]
           ∧ result r = Some (Raise e)
       end)
  ∧ (∀ fuel self s,
       profile_precedes_items (events (dbpw_run conn wallets store fuel self s)))
  ∧ (∀ fuel self s,
       profile_precedes_items (events (mwst_run conn wallets store fuel self s))).
Proof.
  split; [|split; [|split; [|split; [|split]]]].
  - intros wallet name indy_key pk master s Hpk Hm Hlen.
    by apply (mwst_init_profile_run wallets wallet name indy_key indy_key).
  - intros wallet name base_indy_key indy_key pk master s Hpk Hm Hlen.
    by apply mwst_init_profile_run.
  - intros fuel self wallet s. apply dbpw_rekey_profile.
  - intros fuel base_indy_key wallet_name wallet_key s. apply mwst_rekey_wallet_profile.
  - intros fuel self s. apply dbpw_run_precedes.
  - intros fuel self s. apply mwst_run_precedes.
Qed.

Lemma profile_key_persisted_once_witness :
  persists_profile_key (L := plain_toy_library) (AskarKey := bytes) mem_wallets
    "" "alice" example_profile_key example_key
    (State example_single_db (counting_tape 0))
    (init_profile (L := plain_toy_library) mem_wallets "" "alice" example_indy_key
       (State example_single_db (counting_tape 0)))
  ∧ persists_profile_key (L := plain_toy_library) (AskarKey := bytes) mem_wallets
      "" "alice" example_profile_key (replicate 32 x01)
      (State example_single_db (counting_tape 0))
      (mwst_init_profile (L := plain_toy_library) mem_wallets "" "alice"
         (<["master" := replicate 32 x01]> example_indy_key) example_indy_key
         (State example_single_db (counting_tape 0))).
Proof.
  pose proof (profile_key_persisted_once_before_rekey (L := plain_toy_library)
                (LC := toy_library_contract _ _) (AskarKey := bytes)
                mem_conn mem_wallets (mem_store (λ _, []))) as (Hown & Hbase & _).
  split.
  - apply Hown; [repeat split; reflexivity|reflexivity|reflexivity].
  - apply Hbase; [repeat split; reflexivity|reflexivity|reflexivity].
Defined.

(** * Properties of the remaining code *)

(** ** Re-keyed records open under the profile key *)

Section reopen_facts.
Context {L : Library} {LC : LibraryContract L}.

Lemma encrypt_merged_opens message key hmac_key g :
  length key = CHACHAPOLY_KEY_LEN →
  ∃ c g',
    encrypt_merged message key hmac_key g = (Ok c, g')
    ∧ decrypt_merged c key false = Ok message.
Proof.
  intros Hk.
  assert (Hopen : ∀ nonce, length nonce = CHACHAPOLY_NONCE_LEN →
    ∃ c, (λ c, nonce ++ c) <$> aead_encrypt message nonce key = Ok c
         ∧ decrypt_merged c key false = Ok message).
  { intros nonce Hn.
    destruct (aead_seal_open message nonce key Hn Hk) as (c & Hc & _ & Hd).
    exists (nonce ++ c). rewrite Hc. split; [done|].
    unfold decrypt_merged, mbind, exc_bind.
    by rewrite take_app_length', drop_app_length'. }
  destruct (bytes_truthy hmac_key) eqn:Ht.
  - destruct hmac_key as [[|b k]|]; try done.
    rewrite encrypt_merged_det by done. unfold det_encrypt.
    destruct (Hopen (take CHACHAPOLY_NONCE_LEN (hmac_sha256 (b :: k) message)))
      as (c & -> & Hd).
    { rewrite length_take, hmac_digest_size. unfold CHACHAPOLY_NONCE_LEN. lia. }
    by exists c, g.
  - rewrite encrypt_merged_random by done. cbv zeta.
    destruct (Hopen (map (tape g) (seq (cursor g) CHACHAPOLY_NONCE_LEN)))
      as (c & -> & Hd).
    { by rewrite length_map, length_seq. }
    by eexists c, _.
Qed.

Lemma update_tag_opens key t g :
  length (tnk key) = CHACHAPOLY_KEY_LEN →
  length (tvk key) = CHACHAPOLY_KEY_LEN →
  (t.1.1 = false → ∃ v, t.2 = TagBytes v) →
  ∃ t' g', update_tag key t g = (Ok t', g') ∧ tag_opens key t t'.
Proof.
  intros Hn Hv Hb. destruct t as [[plain k] v]. simpl in Hb.
  unfold update_tag, tag_opens, mbind, Rand_bind, mret, Rand_ret, fmap, Rand_fmap.
  destruct plain; simpl.
  - destruct (encrypt_merged_opens k (tnk key) (Some (thk key)) g Hn)
      as (k' & g' & -> & Hk).
    by exists (true, k', v), g'.
  - destruct (Hb eq_refl) as [b ->].
    destruct (encrypt_merged_opens b (tvk key) (Some (thk key)) g Hv)
      as (b' & g1 & -> & Hb').
    destruct (encrypt_merged_opens k (tnk key) (Some (thk key)) g1 Hn)
      as (k' & g' & -> & Hk).
    exists (false, k', TagBytes b'), g'. repeat split; try done. by exists b, b'.
Qed.

Lemma update_tags_opens key l g :
  length (tnk key) = CHACHAPOLY_KEY_LEN →
  length (tvk key) = CHACHAPOLY_KEY_LEN →
  Forall (λ t : tag, t.1.1 = false → ∃ v, t.2 = TagBytes v) l →
  ∃ l' g', rand_mapM (update_tag key) l g = (Ok l', g')
           ∧ Forall2 (tag_opens key) l l'.
Proof.
  intros Hn Hv Hl. revert g. induction Hl as [|t l Ht _ IH]; intros g.
  - by exists [], g.
  - cbn [rand_mapM]. unfold mbind, Rand_bind.
    destruct (update_tag_opens key t g Hn Hv Ht) as (t' & g1 & -> & Ht').
    destruct (IH g1) as (l' & g' & -> & Hl').
    exists (t' :: l'), g'. split; [done|]. by constructor.
Qed.

End reopen_facts.

(** X1: [update_item] succeeds on an item that has a value, whose type and
    name are shorter than 2^32 bytes and whose encrypted tags have [bytes]
    values, when the category, name, tag-name and tag-value keys of the
    profile key are 32 bytes long; the record it returns keeps the id and
    opens under the profile key: the category and the name decrypt to the
    type and the name of the item, the value decrypts to its value under the
    HMAC of the length-prefixed type and name, and the tags open one by one,
    in the same order. *)
Theorem update_item_opens {L : Library} {LC : LibraryContract L}
    (it : item) (key : profile_key) (value : bytes) (g : entropy) :
  length (ick key) = CHACHAPOLY_KEY_LEN →
  length (ink key) = CHACHAPOLY_KEY_LEN →
  length (tnk key) = CHACHAPOLY_KEY_LEN →
  length (tvk key) = CHACHAPOLY_KEY_LEN →
  (N.of_nat (length (item_type it)) < 2 ^ 32)%N →
  (N.of_nat (length (item_name it)) < 2 ^ 32)%N →
  item_value it = Some value →
  Forall (λ t : tag, t.1.1 = false → ∃ v, t.2 = TagBytes v) (item_tags it) →
  ∃ u g' len_type len_name,
    update_item it key g = (Ok u, g')
    ∧ upd_id u = item_id it
    ∧ decrypt_merged (upd_category u) (ick key) false = Ok (item_type it)
    ∧ decrypt_merged (upd_name u) (ink key) false = Ok (item_name it)
    ∧ to_bytes_4_big (length (item_type it)) = Ok len_type
    ∧ to_bytes_4_big (length (item_name it)) = Ok len_name
    ∧ decrypt_merged (upd_value u)
        (hmac_sha256 (ihk key)
           (len_type ++ item_type it ++ len_name ++ item_name it)) false
      = Ok value
    ∧ Forall2 (tag_opens key) (item_tags it) (upd_tags u).
Proof.
  intros Hc Hn Htn Htv Hlt Hln Hval Htags.
  destruct (to_bytes_4_big_spec _ Hlt) as (lt & Elt & _ & _).
  destruct (to_bytes_4_big_spec _ Hln) as (ln & Eln & _ & _).
  unfold update_item, mbind, Rand_bind.
  destruct (update_tags_opens key (item_tags it) g Htn Htv Htags)
    as (tags & g1 & -> & Hopen).
  destruct (encrypt_merged_opens (item_type it) (ick key) (Some (ihk key)) g1 Hc)
    as (c & g2 & -> & Hdc).
  destruct (encrypt_merged_opens (item_name it) (ink key) (Some (ihk key)) g2 Hn)
    as (n & g3 & -> & Hdn).
  unfold encrypt_value, mbind, Rand_bind, rand_lift. rewrite Elt, Eln, Hval.
  unfold HMAC_digest, HMAC_update, HMAC_new. simpl.
  rewrite <- !app_assoc.
  set (value_key := hmac_sha256 _ _).
  destruct (encrypt_merged_opens value value_key None g3) as (v & g4 & -> & Hdv).
  { apply hmac_digest_size. }
  eexists _, g4, lt, ln. by repeat split.
Qed.

Lemma update_item_opens_witness :
  ∃ u g' len_type len_name,
    update_item (L := plain_toy_library) example_item example_profile_key
      (counting_tape 0) = (Ok u, g')
    ∧ upd_id u = 7%Z
    ∧ decrypt_merged (L := plain_toy_library) (upd_category u) example_key false
      = Ok [x74]
    ∧ decrypt_merged (L := plain_toy_library) (upd_name u) example_key false
      = Ok [x6e]
    ∧ to_bytes_4_big 1 = Ok len_type
    ∧ to_bytes_4_big 1 = Ok len_name
    ∧ decrypt_merged (L := plain_toy_library) (upd_value u)
        (hmac_sha256 (Library := plain_toy_library) example_key
           (len_type ++ [x74] ++ len_name ++ [x6e])) false
      = Ok [x76]
    ∧ Forall2 (tag_opens (L := plain_toy_library) example_profile_key)
        (item_tags example_item) (upd_tags u).
Proof.
  apply (update_item_opens (LC := toy_library_contract _ _) example_item
           example_profile_key [x76] (counting_tape 0));
    try reflexivity.
  repeat constructor; [by eexists|done].
Defined.

(** ** Rows without a value *)

Lemma decrypt_item_no_value `{L : Library} r keys b64 it :
  bytes_truthy (row_value r) = false →
  decrypt_item r keys b64 = Ok it → item_value it = None.
Proof.
  intros Hv. unfold decrypt_item, mbind, exc_bind. rewrite Hv.
  repeat match goal with
         | |- context [match ?x with Ok _ => _ | Raise _ => _ end] =>
             destruct x; [|done]
         end.
  by intros [= <-].
Qed.

Lemma update_item_no_value `{L : Library} it key g :
  item_value it = None → ∃ e, (update_item it key g).1 = Raise e.
Proof.
  intros Hv. unfold update_item, mbind, Rand_bind.
  destruct (rand_mapM _ _ g) as [[tags|] g1]; [|by eexists].
  destruct (encrypt_merged (item_type it) _ _ g1) as [[c|] g2]; [|by eexists].
  destruct (encrypt_merged (item_name it) _ _ g2) as [[n|] g3]; [|by eexists].
  rewrite Hv. unfold encrypt_value, mbind, Rand_bind, rand_lift.
  destruct (to_bytes_4_big (length (item_type it))); [|by eexists].
  destruct (to_bytes_4_big (length (item_name it))); [|by eexists].
  by eexists.
Qed.

Section no_value_facts.
Context `{L : Library} {World Wallet AskarKey : Type}.
Variable wallets : WalletOps (World := World) (Wallet := Wallet).
Local Abbreviation event := (event (Wallet := Wallet) (AskarKey := AskarKey)).
Local Abbreviation M := (M (World := World) (Wallet := Wallet) (AskarKey := AskarKey)).
Implicit Types (s : state (World := World)) (indy_key : gmap string bytes).

Lemma update_items_no_value fuel wallet indy_key pk s rows r :
  r ∈ rows → bytes_truthy (row_value r) = false →
  EvFetchPendingItems wallet 1 (Ok rows)
    ∈ events ((update_items wallets fuel wallet indy_key pk : M unit) s) →
  ∃ t e,
    events ((update_items wallets fuel wallet indy_key pk : M unit) s)
    = t ++ [EvFetchPendingItems wallet 1 (Ok rows)]
    ∧ result ((update_items wallets fuel wallet indy_key pk : M unit) s)
      = Some (Raise e).
Proof.
  intros Hr Hv. unfold update_items. revert s.
  induction fuel as [|fuel IH]; intros s.
  { simpl. by intros ?%elem_of_nil. }
  cbn [while_true]. rewrite bind_after.
  destruct (update_items_batch_cases (AskarKey := AskarKey) wallets wallet indy_key pk s)
    as [(e & w & _ & _ & Hev & Hres)|[(w & _ & _ & Hev & Hres)
       |[(rows' & w & e & _ & _ & _ & Hev & Hres)
       |(rows' & w & upd & x & Hne & _ & Hall & _ & Hev & Hres)]]];
    rewrite Hres; simpl; rewrite ?Hev.
  - rewrite elem_of_cons, elem_of_nil. by intros [?|[]].
  - rewrite app_nil_r, elem_of_cons, elem_of_nil. intros [[= ->]|[]].
    by apply elem_of_nil in Hr.
  - rewrite elem_of_cons, elem_of_nil. intros [[= ->]|[]]. by exists [], e.
  - assert (Hno : rows' ≠ rows).
    { intros ->. apply list_elem_of_lookup in Hr as [i Hi].
      destruct (Forall2_lookup_l _ _ _ _ _ Hall Hi) as (it & _ & plain & g & g' & Hd & Hu).
      apply decrypt_item_no_value in Hd; [|done].
      destruct (update_item_no_value plain pk g Hd) as [e He].
      by rewrite Hu in He. }
    destruct x as [[]|e]; simpl.
    + rewrite !elem_of_cons. intros [[= ?]|[?|Hin]]; try done.
      destruct (IH _ Hin) as (t & e & -> & ->).
      exists (EvFetchPendingItems wallet 1 (Ok rows')
                :: EvUpdateItems wallet upd (Ok tt) :: t), e. done.
    + rewrite !elem_of_cons, elem_of_nil. by intros [[= ?]|[?|[]]].
Qed.

End no_value_facts.

(** X2: a pending row whose value is NULL or empty cannot be re-keyed.
    [decrypt_item] gives it the value [None], with which [update_item] never
    returns a record; so when [fetch_pending_items] returns such a row the
    re-key loop raises, and that fetch is its last call: the row is not
    written back. *)
Theorem row_without_value_stops_rekey {L : Library} {World Wallet AskarKey : Type}
    (wallets : WalletOps (World := World) (Wallet := Wallet)) :
  (∀ r keys b64 it,
     bytes_truthy (row_value r) = false →
     decrypt_item r keys b64 = Ok it → item_value it = None)
  ∧ (∀ it key g, item_value it = None → ∃ e, (update_item it key g).1 = Raise e)
  ∧ (∀ fuel wallet indy_key pk s rows r,
       r ∈ rows → bytes_truthy (row_value r) = false →
       EvFetchPendingItems wallet 1 (Ok rows)
         ∈ events (update_items (AskarKey := AskarKey) wallets fuel wallet indy_key pk s) →
       ∃ t e,
         events (update_items (AskarKey := AskarKey) wallets fuel wallet indy_key pk s)
         = t ++ [EvFetchPendingItems wallet 1 (Ok rows)]
         ∧ result (update_items (AskarKey := AskarKey) wallets fuel wallet indy_key pk s)
           = Some (Raise e)).
Proof.
  split; [|split].
  - intros r keys b64 it. apply decrypt_item_no_value.
  - intros it key g. apply update_item_no_value.
  - intros fuel wallet indy_key pk s rows r. apply update_items_no_value.
Qed.

Lemma row_without_value_stops_rekey_witness :
  ∃ t e,
    events (update_items (L := plain_toy_library) (AskarKey := bytes) mem_wallets 3
              "alice" example_indy_key example_profile_key
              (State (example_wallet_db
                        [("alice", example_wallet [example_row_without_value])])
                 (counting_tape 0)))
    = t ++ [EvFetchPendingItems "alice" 1 (Ok [example_row_without_value])]
    ∧ result (update_items (L := plain_toy_library) (AskarKey := bytes) mem_wallets 3
                "alice" example_indy_key example_profile_key
                (State (example_wallet_db
                          [("alice", example_wallet [example_row_without_value])])
                   (counting_tape 0)))
      = Some (Raise e).
Proof.
  apply (proj2 (proj2 (row_without_value_stops_rekey (L := plain_toy_library)
                         (AskarKey := bytes) mem_wallets))
           3 "alice" example_indy_key example_profile_key _
           [example_row_without_value] example_row_without_value).
  - vm_compute. constructor.
  - reflexivity.
  - vm_compute. constructor.
Defined.

(** ** Tag strings *)

(** X3: [decrypt_tags] decodes a comma-separated list of tags
    [hexName:hexValue] and nothing else. It raises [ValueError] on the empty
    string; when it succeeds there is one result per comma-separated piece,
    in order, and every piece has exactly one colon. With a value key, each
    result is the name decrypted from [hexName] under the name key and the
    value decrypted from [hexValue] under the value key. *)
Theorem decrypt_tags_pieces {L : Library} :
  (∀ name_key value_key, decrypt_tags "" name_key value_key = Raise ValueError)
  ∧ (∀ tags name_key value_key l,
       decrypt_tags tags name_key value_key = Ok l →
       length l = length (split "," tags)
       ∧ Forall (λ tag, ∃ hex_name hex_value,
                   split ":" tag = [hex_name; hex_value]
                   ∧ tag = hex_name +:+ ":" +:+ hex_value)
           (split "," tags))
  ∧ (∀ tags name_key value_key l,
       value_key ≠ [] →
       decrypt_tags tags name_key (Some value_key) = Ok l →
       Forall2 (λ tag nv,
                  ∃ hex_name hex_value enc_name enc_value value,
                    tag = hex_name +:+ ":" +:+ hex_value
                    ∧ fromhex hex_name = Ok enc_name
                    ∧ fromhex hex_value = Ok enc_value
                    ∧ decrypt_merged enc_name name_key false = Ok nv.1
                    ∧ decrypt_merged enc_value value_key false = Ok value
                    ∧ nv.2 = TagBytes value)
               (split "," tags) l).
Proof.
  assert (Hparts : ∀ tag name_key value_key nv,
            decrypt_tag tag name_key value_key = Ok nv →
            ∃ hex_name hex_value enc_name enc_value,
              split ":" tag = [hex_name; hex_value]
              ∧ tag = hex_name +:+ ":" +:+ hex_value
              ∧ fromhex hex_name = Ok enc_name
              ∧ fromhex hex_value = Ok enc_value
              ∧ (name ← decrypt_merged enc_name name_key false;
                 value ← (if bytes_truthy value_key
                          then TagBytes <$> decrypt_merged enc_value
                                              (default [] value_key) false
                          else match String.get 1 tag with
                               | Some c => Ok (TagStr (String c ""))
                               | None => Raise IndexError
                               end);
                 Ok (name, value)) = Ok nv).
  { intros tag name_key value_key nv. unfold decrypt_tag.
    destruct (exc_mapM fromhex (split ":" tag)) as [parts|] eqn:Hp; [|done].
    cbn [mbind exc_bind]. apply exc_mapM_Forall2 in Hp.
    destruct parts as [|tn [|tv [|]]]; try done. intros Hnv.
    apply Forall2_cons_inv_r in Hp as (hn & rest & Hhn & Hrest & Es).
    apply Forall2_cons_inv_r in Hrest as (hv & rest' & Hhv & Hrest' & ->).
    apply Forall2_nil_inv_r in Hrest' as ->.
    exists hn, hv, tn, tv. repeat split; try done. by apply split_two. }
  split; [by intros|]. split.
  - intros tags name_key value_key l Hl. apply exc_mapM_Forall2 in Hl. split.
    + symmetry. by eapply Forall2_length.
    + eapply Forall2_Forall_l; [exact Hl|].
      apply Forall_forall. intros nv _ tag Hnv.
      destruct (Hparts _ _ _ _ Hnv) as (hn & hv & _ & _ & Hs & Etag & _).
      by exists hn, hv.
  - intros tags name_key value_key l Hv Hl.
    apply exc_mapM_Forall2 in Hl. eapply Forall2_impl; [exact Hl|].
    intros tag nv Hnv.
    destruct (Hparts _ _ _ _ Hnv) as (hn & hv & tn & tv & _ & Etag & Hhn & Hhv & Hd).
    destruct value_key as [|b k]; [done|]. simpl in Hd.
    unfold mbind, exc_bind, fmap, exc_fmap in Hd.
    destruct (decrypt_merged tn name_key false) as [n|] eqn:Hn; [|done].
    destruct (decrypt_merged tv (b :: k) false) as [v|] eqn:Hdv; [|done].
    injection Hd as <-. by exists hn, hv, tn, tv, v.
Qed.

Lemma decrypt_tags_pieces_witness :
  decrypt_tags (L := plain_toy_library) example_enc_tags example_tag_name_key
    (Some example_key)
  = Ok [([x6e], TagBytes [x76]); ([x6b], TagBytes [x77])]
  ∧ Forall2 (λ tag nv,
               ∃ hex_name hex_value enc_name enc_value value,
                 tag = hex_name +:+ ":" +:+ hex_value
                 ∧ fromhex hex_name = Ok enc_name
                 ∧ fromhex hex_value = Ok enc_value
                 ∧ decrypt_merged (L := plain_toy_library) enc_name
                     example_tag_name_key false = Ok nv.1
                 ∧ decrypt_merged (L := plain_toy_library) enc_value
                     example_key false = Ok value
                 ∧ nv.2 = TagBytes value)
            (split "," example_enc_tags)
            [([x6e], TagBytes [x76]); ([x6b], TagBytes [x77])].
Proof.
  split; [reflexivity|].
  apply (proj2 (proj2 (decrypt_tags_pieces (L := plain_toy_library)))
           example_enc_tags example_tag_name_key example_key);
    [discriminate|reflexivity].
Defined.

(** ** Unlocking the keys of a wallet *)

Lemma indy_key_names_lookup (keys_lst : list bytes) (master_key salt : bytes) i name :
  indy_key_names !! i = Some name →
  (<["salt" := salt]> (<["master" := master_key]>
     (list_to_map (zip ["type"; "name"; "value"; "item_hmac"; "tag_name";
                        "tag_value"; "tag_hmac"] keys_lst) : gmap string bytes)))
    !! name
  = keys_lst !! i.
Proof.
  intros Hi.
  assert (Hname : name ≠ "salt" ∧ name ≠ "master").
  { apply list_elem_of_lookup_2 in Hi. unfold indy_key_names in Hi.
    rewrite !elem_of_cons, elem_of_nil in Hi.
    by destruct Hi as [->|[->|[->|[->|[->|[->|[->|[]]]]]]]]. }
  destruct Hname as [Hs Hm].
  rewrite lookup_insert_ne, lookup_insert_ne by done.
  destruct keys_lst as [|k0 [|k1 [|k2 [|k3 [|k4 [|k5 [|k6 rest]]]]]]];
    do 7 (destruct i as [|i]; [injection Hi as <-; reflexivity|]);
    done.
Qed.

Lemma indy_key_names_dom (keys_lst : list bytes) (master_key salt : bytes) k :
  is_Some ((<["salt" := salt]> (<["master" := master_key]>
     (list_to_map (zip ["type"; "name"; "value"; "item_hmac"; "tag_name";
                        "tag_value"; "tag_hmac"] keys_lst) : gmap string bytes)))
    !! k) →
  k ∈ indy_key_names ++ ["master"; "salt"].
Proof.
  intros [v Hv]. apply elem_of_app.
  apply lookup_insert_Some in Hv as [[<- _]|[_ Hv]].
  { right. rewrite !elem_of_cons. tauto. }
  apply lookup_insert_Some in Hv as [[<- _]|[_ Hv]].
  { right. rewrite !elem_of_cons. tauto. }
  left. apply elem_of_list_to_map_2 in Hv.
  by apply elem_of_zip_l in Hv.
Qed.

Lemma encode_ascii_ok s b :
  encode_ascii s = Ok b →
  string_forall is_ascii_char s = true ∧ length b = String.length s.
Proof.
  revert b. induction s as [|c s IH]; intros b; simpl.
  { by intros [= <-]. }
  destruct (decide (N_of_ascii c < 128)%N) as [Hc|]; [|done].
  unfold mbind, exc_bind. destruct (encode_ascii s) as [rest|]; [|done].
  intros [= <-]. destruct (IH rest eq_refl) as [IH1 IH2]. split.
  - apply andb_true_iff. split; [by apply bool_decide_eq_true_2|done].
  - simpl. by rewrite IH2.
Qed.

Lemma exc_bind_inv {A B} (m : exc A) (f : A → exc B) b :
  m ≫= f = Ok b → ∃ a, m = Ok a ∧ f a = Ok b.
Proof. destruct m as [a|e]; [|done]. intros H. by exists a. Qed.

Section unlock_facts.
Context `{L : Library} {World Wallet AskarKey : Type}.
Variable wallets : WalletOps (World := World) (Wallet := Wallet).
Local Abbreviation event := (event (Wallet := Wallet) (AskarKey := AskarKey)).
Local Abbreviation M := (M (World := World) (Wallet := Wallet) (AskarKey := AskarKey)).
Implicit Types (s : state (World := World)) (indy_key : gmap string bytes).

Lemma fetch_indy_key_inv wallet wallet_key s keys :
  result ((fetch_indy_key wallets wallet wallet_key : M _) s) = Some (Ok keys) →
  ∃ metadata_json metadata keys_enc salt password master_key keys_mpk keys_lst,
    (fetch_indy_key wallets wallet wallet_key : M _) s
    = Run (Some (Ok keys))
          (State (wallet_get_metadata wallets wallet (world s)).2 (rng s))
          [EvGetMetadata wallet (Ok metadata_json)]
    ∧ json_loads metadata_json = Ok metadata
    ∧ json_getitem metadata "keys" ≫= py_bytes = Ok keys_enc
    ∧ json_getitem metadata "master_key_salt" ≫= py_bytes = Ok salt
    ∧ encode_ascii wallet_key = Ok password
    ∧ argon2i_kdf_moderate CHACHAPOLY_KEY_LEN password (take 16 salt) = Ok master_key
    ∧ decrypt_merged keys_enc master_key false = Ok keys_mpk
    ∧ msgpack_unpackb keys_mpk = Ok keys_lst
    ∧ keys !! "master" = Some master_key
    ∧ keys !! "salt" = Some (take 16 salt)
    ∧ (∀ i name, indy_key_names !! i = Some name → keys !! name = keys_lst !! i)
    ∧ (∀ k, is_Some (keys !! k) → k ∈ indy_key_names ++ ["master"; "salt"]).
Proof.
  unfold fetch_indy_key. rewrite bind_call.
  destruct (wallet_get_metadata wallets wallet (world s)) as [[metadata_json|e] w];
    [|done].
  match goal with |- context [lift ?x] => set (body := x) end.
  unfold lift, after. simpl. intros [= H]. rewrite H. subst body.
  apply exc_bind_inv in H as (metadata & Hmeta & H).
  apply exc_bind_inv in H as (keys_enc & Hkeys & H).
  apply exc_bind_inv in H as (salt & Hsalt & H).
  apply exc_bind_inv in H as (password & Hpw & H).
  apply exc_bind_inv in H as (master_key & Hkdf & H).
  apply exc_bind_inv in H as (keys_mpk & Hdec & H).
  apply exc_bind_inv in H as (keys_lst & Hmp & H).
  injection H as <-.
  exists metadata_json, metadata, keys_enc, salt, password, master_key, keys_mpk,
    keys_lst.
  repeat split; try done.
  - rewrite lookup_insert_ne by done. apply lookup_insert_eq.
  - apply lookup_insert_eq.
  - intros i name. apply indy_key_names_lookup.
  - intros k. apply indy_key_names_dom.
Qed.

Lemma mwst_init_profile_missing wallet name base_indy_key indy_key s :
  (∃ k, k ∈ profile_key_names ∧ indy_key !! k = None)
  ∨ base_indy_key !! "master" = None →
  ∃ k,
    (mwst_init_profile wallets wallet name base_indy_key indy_key : M _) s
    = Run (Some (Raise (KeyError k))) s []
    ∧ (k ∈ profile_key_names ∧ indy_key !! k = None
       ∨ k = "master" ∧ base_indy_key !! "master" = None).
Proof.
  intros Hmiss. unfold mwst_init_profile, keys_getitem. rewrite bind_lift.
  destruct (indy_key !! "type") as [k1|] eqn:H1;
    [|exists "type"; split; [done|left; split; [|done]; apply (bool_decide_unpack _); reflexivity]].
  destruct (indy_key !! "name") as [k2|] eqn:H2;
    [|exists "name"; split; [done|left; split; [|done]; apply (bool_decide_unpack _); reflexivity]].
  destruct (indy_key !! "item_hmac") as [k3|] eqn:H3;
    [|exists "item_hmac"; split; [done|left; split; [|done]; apply (bool_decide_unpack _); reflexivity]].
  destruct (indy_key !! "tag_name") as [k4|] eqn:H4;
    [|exists "tag_name"; split; [done|left; split; [|done]; apply (bool_decide_unpack _); reflexivity]].
  destruct (indy_key !! "tag_value") as [k5|] eqn:H5;
    [|exists "tag_value"; split; [done|left; split; [|done]; apply (bool_decide_unpack _); reflexivity]].
  destruct (indy_key !! "tag_hmac") as [k6|] eqn:H6;
    [|exists "tag_hmac"; split; [done|left; split; [|done]; apply (bool_decide_unpack _); reflexivity]].
  cbn [mbind exc_bind]. rewrite bind_lift.
  destruct (base_indy_key !! "master") as [m|] eqn:H7;
    [|exists "master"; split; [done|by right]].
  exfalso. destruct Hmiss as [(k & Hk & Hnone)|?]; [|done].
  unfold profile_key_names in Hk. rewrite !elem_of_cons, elem_of_nil in Hk.
  destruct Hk as [->|[->|[->|[->|[->|[->|[]]]]]]]; congruence.
Qed.

End unlock_facts.

(** X4: when [fetch_indy_key] returns keys, it has made one call,
    [get_metadata], and nothing else to the wallet; the wallet key is pure
    ASCII; the master key is the Argon2i key of 32 bytes derived from it and
    from the first 16 bytes of the salt of the metadata, and it opens the
    key list of the metadata. The returned keys hold the master key under
    ["master"], the cut salt under ["salt"], and the i-th entry of the
    unpacked key list under the i-th of the seven names, a name being absent
    when the list is too short; they hold nothing else. *)
Theorem fetch_indy_key_unlocks {L : Library} {World Wallet AskarKey : Type}
    (wallets : WalletOps (World := World) (Wallet := Wallet))
    (wallet : Wallet) (wallet_key : string) (s : state (World := World))
    (keys : gmap string bytes) :
  result (fetch_indy_key (AskarKey := AskarKey) wallets wallet wallet_key s)
  = Some (Ok keys) →
  ∃ metadata_json metadata keys_enc salt password master_key keys_mpk keys_lst,
    fetch_indy_key (AskarKey := AskarKey) wallets wallet wallet_key s
    = Run (Some (Ok keys))
          (State (wallet_get_metadata wallets wallet (world s)).2 (rng s))
          [EvGetMetadata wallet (Ok metadata_json)]
    ∧ json_loads metadata_json = Ok metadata
    ∧ json_getitem metadata "keys" ≫= py_bytes = Ok keys_enc
    ∧ json_getitem metadata "master_key_salt" ≫= py_bytes = Ok salt
    ∧ string_forall is_ascii_char wallet_key = true
    ∧ encode_ascii wallet_key = Ok password
    ∧ argon2i_kdf_moderate CHACHAPOLY_KEY_LEN password (take 16 salt) = Ok master_key
    ∧ decrypt_merged keys_enc master_key false = Ok keys_mpk
    ∧ msgpack_unpackb keys_mpk = Ok keys_lst
    ∧ keys !! "master" = Some master_key
    ∧ keys !! "salt" = Some (take 16 salt)
    ∧ (∀ i name, indy_key_names !! i = Some name → keys !! name = keys_lst !! i)
    ∧ (∀ k, is_Some (keys !! k) → k ∈ indy_key_names ++ ["master"; "salt"]).
Proof.
  intros H.
  destruct (fetch_indy_key_inv (AskarKey := AskarKey) wallets wallet wallet_key s keys H)
    as (mj & m & ke & salt & pw & mk & mpk & lst & Hrun & H1 & H2 & H3 & H4 & H5 & H6
        & H7 & H8 & H9 & H10 & H11).
  exists mj, m, ke, salt, pw, mk, mpk, lst.
  repeat split; try done. by apply encode_ascii_ok in H4 as [? _].
Qed.

Lemma fetch_indy_key_unlocks_witness :
  ∃ keys master_key (keys_lst : list bytes),
    result (fetch_indy_key (L := metadata_library) (AskarKey := bytes) mem_wallets
              "" "" (State example_single_db (counting_tape 0)))
    = Some (Ok keys)
    ∧ keys !! "master" = Some master_key
    ∧ ∀ i name, indy_key_names !! i = Some name → keys !! name = keys_lst !! i.
Proof.
  assert (E : ∃ keys,
             result (fetch_indy_key (L := metadata_library) (AskarKey := bytes)
                       mem_wallets "" "" (State example_single_db (counting_tape 0)))
             = Some (Ok keys)).
  { eexists. vm_compute. reflexivity. }
  destruct E as [keys E].
  destruct (fetch_indy_key_unlocks (L := metadata_library) (AskarKey := bytes)
              mem_wallets "" "" (State example_single_db (counting_tape 0)) keys E)
    as (_ & _ & _ & _ & _ & mk & _ & lst & _ & _ & _ & _ & _ & _ & _ & _ & _ & Hm & _
        & Hnames & _).
  by exists keys, mk, lst.
Defined.

(** X5: [init_profile] reads the six keys of the profile key and the master
    key before anything else: when one of them is missing from the keys it
    is given (the master key from the base wallet's keys in
    [MwstAsProfilesStrategy]), it raises [KeyError] for a missing key, draws
    no random bytes and makes no call, so no profile is inserted. *)
Theorem init_profile_missing_key {L : Library} {World Wallet AskarKey : Type}
    (wallets : WalletOps (World := World) (Wallet := Wallet))
    (wallet : Wallet) (name : string) :
  (∀ indy_key s,
     (∃ k, k ∈ profile_key_names ++ ["master"] ∧ indy_key !! k = None) →
     ∃ k,
       k ∈ profile_key_names ++ ["master"] ∧ indy_key !! k = None
       ∧ init_profile (AskarKey := AskarKey) wallets wallet name indy_key s
         = Run (Some (Raise (KeyError k))) s [])
  ∧ (∀ base_indy_key indy_key s,
       (∃ k, k ∈ profile_key_names ∧ indy_key !! k = None)
       ∨ base_indy_key !! "master" = None →
       ∃ k,
         mwst_init_profile (AskarKey := AskarKey) wallets wallet name
           base_indy_key indy_key s
         = Run (Some (Raise (KeyError k))) s []
         ∧ (k ∈ profile_key_names ∧ indy_key !! k = None
            ∨ k = "master" ∧ base_indy_key !! "master" = None)).
Proof.
  split.
  - intros indy_key s (k & Hk & Hnone).
    destruct (mwst_init_profile_missing (AskarKey := AskarKey) wallets wallet name
                indy_key indy_key s) as (k' & Hrun & Hk').
    { apply elem_of_app in Hk as [Hk|Hk]; [left; by exists k|right].
      apply elem_of_cons in Hk as [->|Hk]; [done|]. by apply elem_of_nil in Hk. }
    exists k'. split; [|split; [|exact Hrun]].
    + apply elem_of_app. destruct Hk' as [[? _]|[-> _]]; [by left|right].
      apply elem_of_cons. by left.
    + by destruct Hk' as [[_ ?]|[-> ?]].
  - intros base_indy_key indy_key s. apply mwst_init_profile_missing.
Qed.

Lemma init_profile_missing_key_witness :
  ∃ k,
    k ∈ profile_key_names ++ ["master"]
    ∧ delete "tag_hmac" example_indy_key !! k = None
    ∧ init_profile (L := plain_toy_library) (AskarKey := bytes) mem_wallets "" "alice"
        (delete "tag_hmac" example_indy_key)
        (State example_single_db (counting_tape 0))
      = Run (Some (Raise (KeyError k))) (State example_single_db (counting_tape 0)) [].
Proof.
  apply (proj1 (init_profile_missing_key (L := plain_toy_library) (AskarKey := bytes)
                  mem_wallets "" "alice")).
  exists "tag_hmac". split; [apply (bool_decide_unpack _)|]; reflexivity.
Defined.

(** ** The pass key of the configuration *)

Lemma fromhex_hex_cons x b :
  fromhex (hex (x :: b)) = (rest ← fromhex (hex b); Ok (x :: rest)).
Proof. destruct x; reflexivity. Qed.

Lemma fromhex_hex b : fromhex (hex b) = Ok b.
Proof.
  induction b as [|x b IH]; [done|]. rewrite fromhex_hex_cons, IH. done.
Qed.

Lemma hex_length b : String.length (hex b) = 2 * length b.
Proof. induction b as [|x b IH]; [done|]. simpl. rewrite IH. lia. Qed.

(** X6: [create_config] raises [KeyError] without calling the connection
    when the keys have no salt; otherwise it makes one call, [create_config]
    of the connection with the profile name and the pass key
    ["kdf:argon2i:13:mod?salt="] followed by the salt in hexadecimal, two
    digits per byte, from which [bytes.fromhex] gives the salt back. *)
Theorem create_config_pass_key {World Wallet AskarKey : Type}
    (conn : ConnOps (World := World) (Wallet := Wallet)) (name : string)
    (indy_key : gmap string bytes) (s : state (World := World)) :
  (indy_key !! "salt" = None →
   create_config (AskarKey := AskarKey) conn name indy_key s
   = Run (Some (Raise (KeyError "salt"))) s [])
  ∧ (∀ salt,
       indy_key !! "salt" = Some salt →
       let pass_key := "kdf:argon2i:13:mod?salt=" +:+ hex salt in
       let r := conn_create_config conn name pass_key (world s) in
       create_config (AskarKey := AskarKey) conn name indy_key s
       = Run (Some r.1) (State r.2 (rng s)) [EvCreateConfig name pass_key r.1]
       ∧ String.length pass_key = 24 + 2 * length salt
       ∧ fromhex (hex salt) = Ok salt).
Proof.
  unfold create_config, keys_getitem. split.
  - intros ->. by rewrite bind_lift.
  - intros salt ->. cbv zeta. rewrite bind_lift, call_run.
    split; [done|]. split; [|apply fromhex_hex].
    rewrite string_length_append, hex_length. done.
Qed.

Lemma create_config_pass_key_witness :
  create_config (AskarKey := bytes) mem_conn "alice"
    example_indy_key (State example_single_db (counting_tape 0))
  = Run (Some (conn_create_config mem_conn "alice"
                 ("kdf:argon2i:13:mod?salt=" +:+ hex (replicate 16 x00))
                 example_single_db).1)
        (State (conn_create_config mem_conn "alice"
                  ("kdf:argon2i:13:mod?salt=" +:+ hex (replicate 16 x00))
                  example_single_db).2 (counting_tape 0))
        [EvCreateConfig "alice" ("kdf:argon2i:13:mod?salt=" +:+ hex (replicate 16 x00))
           (conn_create_config mem_conn "alice"
              ("kdf:argon2i:13:mod?salt=" +:+ hex (replicate 16 x00))
              example_single_db).1]
  ∧ String.length ("kdf:argon2i:13:mod?salt=" +:+ hex (replicate 16 x00)) = 56
  ∧ fromhex (hex (replicate 16 x00)) = Ok (replicate 16 x00).
Proof.
  apply (proj2 (create_config_pass_key (AskarKey := bytes)
                  mem_conn "alice" example_indy_key
                  (State example_single_db (counting_tape 0)))
           (replicate 16 x00)).
  reflexivity.
Defined.

(** ** The conversion opens the store first and closes it last *)

Section open_close_facts.
Context `{L : Library} {World Wallet AskarKey : Type}.
Variable store : StoreOps (World := World) (AskarKey := AskarKey).
Local Abbreviation event := (event (Wallet := Wallet) (AskarKey := AskarKey)).
Local Abbreviation M := (M (World := World) (Wallet := Wallet) (AskarKey := AskarKey)).
Local Abbreviation run := (run (World := World) (Wallet := Wallet) (AskarKey := AskarKey)).
Implicit Types (s : state (World := World)).

Lemma closes_at_the_end_bind {A B} (m : M A) (f : A → M B) s :
  emits (λ e, ¬ is_store_close e) m →
  (∀ a s', closes_at_the_end (f a s')) →
  closes_at_the_end ((m ≫= f) s).
Proof.
  intros Hm Hf. unfold closes_at_the_end. rewrite bind_run. specialize (Hm s).
  destruct (result (m s)) as [[a|e]|]; simpl; [|by left|done].
  specialize (Hf a (final (m s))). unfold closes_at_the_end in Hf.
  destruct (result (f a _)) as [[b|e]|].
  - destruct Hf as (t & -> & Ht). exists (events (m s) ++ t).
    rewrite app_assoc. split; [done|]. by apply Forall_app.
  - destruct Hf as [Hf|(t & -> & Ht)].
    + left. by apply Forall_app.
    + right. exists (events (m s) ++ t). rewrite app_assoc. split; [done|].
      by apply Forall_app.
  - by apply Forall_app.
Qed.

Lemma closing_closes_at_the_end s :
  closes_at_the_end
    ((print ("Closing wallet" +:+ newline);;
      call EvStoreClose (askar_close store) : M unit) s).
Proof.
  unfold closes_at_the_end. rewrite bind_print, call_run. simpl.
  destruct (askar_close store (world s)).1 as [[]|e].
  - by exists [].
  - right. by exists [].
Qed.

Lemma convert_loops_close fuel s :
  closes_at_the_end
    ((convert_keys store fuel;;
      convert_master_secrets store fuel;;
      convert_dids store fuel;;
      convert_schemas store fuel;;
      convert_cred_defs store fuel;;
      convert_rev_reg_defs store fuel;;
      convert_rev_reg_keys store fuel;;
      convert_rev_reg_states store fuel;;
      convert_rev_reg_info store fuel;;
      convert_credentials store fuel;;
      print ("Closing wallet" +:+ newline);;
      call EvStoreClose (askar_close store) : M unit) s).
Proof.
  unfold convert_keys, convert_master_secrets,
    convert_master_secrets_batch, convert_dids, convert_schemas, convert_cred_defs,
    convert_rev_reg_defs, convert_rev_reg_keys, convert_rev_reg_states,
    convert_rev_reg_info, convert_credentials, convert_credentials_batch,
    convert_credential, copy_category, print_updated, transaction,
    txn_fetch_all, txn_fetch, txn_remove, txn_insert, txn_insert_key, txn_commit.
  do 10 (apply closes_at_the_end_bind; [solve_emits; simpl; tauto|intros _ ?]).
  apply closing_closes_at_the_end.
Qed.

End open_close_facts.

(** X7: [convert_items_to_askar] first prints that it opens the wallet and
    opens the store, with the URI, the pass key and the profile it was
    given; it opens it once. When the conversion ends normally its last call
    is the one [close] of the store; when a step raises, or when opening
    raises, the store is not closed (unless it is [close] itself that
    raised). *)
Theorem convert_opens_first_closes_last {L : Library} {World Wallet AskarKey : Type}
    (store : StoreOps (World := World) (AskarKey := AskarKey))
    (fuel : nat) (uri wallet_key : string) (profile : option string)
    (s : state (World := World)) :
  let r := convert_items_to_askar (Wallet := Wallet) store fuel uri wallet_key profile s in
  ∃ x t,
    events r
    = EvPrint ("Opening wallet with Askar..." +:+ newline)
      :: EvStoreOpen uri wallet_key profile x :: t
    ∧ Forall (λ e, ¬ is_store_open e) t
    ∧ match x with
      | Ok _ => closes_at_the_end (Run (result r) (final r) t)
      | Raise e => t = [] ∧ result r = Some (Raise e)
      end.
Proof.
  cbv zeta. unfold convert_items_to_askar. rewrite bind_print, bind_call.
  destruct (askar_open store uri wallet_key profile (world s)) as [[[]|e] w]; simpl.
  - eexists (Ok tt), _. split; [done|]. split.
    + match goal with
      | |- Forall _ (events (?m ?s')) =>
          assert (He : emits (λ e : event, ¬ is_store_open e) m); [|apply He]
      end.
      unfold convert_keys, convert_master_secrets,
        convert_master_secrets_batch, convert_dids, convert_schemas, convert_cred_defs,
        convert_rev_reg_defs, convert_rev_reg_keys, convert_rev_reg_states,
        convert_rev_reg_info, convert_credentials, convert_credentials_batch,
        convert_credential, copy_category, print_updated, transaction,
        txn_fetch_all, txn_fetch, txn_remove, txn_insert, txn_insert_key, txn_commit.
      solve_emits. all: simpl; tauto.
    + pose proof (convert_loops_close (Wallet := Wallet) store fuel (State w (rng s)))
        as Hc.
      unfold closes_at_the_end in *. simpl. exact Hc.
  - by exists (Raise e), [].
Qed.

(** ** The transactions of the conversion *)

Section transaction_facts.
Context `{L : Library} {World Wallet AskarKey : Type}.
Variable store : StoreOps (World := World) (AskarKey := AskarKey).
Local Abbreviation event := (event (Wallet := Wallet) (AskarKey := AskarKey)).
Local Abbreviation M := (M (World := World) (Wallet := Wallet) (AskarKey := AskarKey)).
Local Abbreviation run := (run (World := World) (Wallet := Wallet) (AskarKey := AskarKey)).
Implicit Types (s : state (World := World)) (t u : list event).

Lemma txn_run_app p t u : txn_run p (t ++ u) = txn_run p t ≫= λ q, txn_run q u.
Proof.
  revert p. induction t as [|e t IH]; intros p; [done|]. simpl.
  destruct (txn_step p e) as [q|]; [apply IH|done].
Qed.

Lemma stays_outside_bind {A B} (m : M A) (f : A → M B) :
  stays_outside m → (∀ a, stays_outside (f a)) → stays_outside (m ≫= f).
Proof.
  intros Hm Hf s. rewrite bind_run. specialize (Hm s).
  destruct (result (m s)) as [[a|e]|]; simpl; try done.
  rewrite txn_run_app, Hm. apply Hf.
Qed.

Lemma stays_outside_print text : stays_outside (print text : M unit).
Proof. done. Qed.

Lemma stays_outside_while {A} fuel (body : A → M (bool * A)) a :
  (∀ a, stays_outside (body a)) → stays_outside (while_true fuel body a).
Proof.
  intros Hb. revert a. induction fuel as [|fuel IH]; intros a; [done|].
  cbn [while_true]. apply stays_outside_bind; [done|].
  intros [[] a']; [apply IH|done].
Qed.

Lemma works_on_entries_bind {A B} (m : M A) (f : A → M B) :
  works_on_entries m → (∀ a, works_on_entries (f a)) → works_on_entries (m ≫= f).
Proof.
  intros Hm Hf s. rewrite bind_run. destruct (Hm s) as [Hr He].
  destruct (result (m s)) as [[a|e]|]; simpl; try done.
  destruct (Hf a (final (m s))) as [Hr' He']. split; [done|].
  by rewrite txn_run_app, He.
Qed.

Lemma works_on_entries_ret {A} (a : A) : works_on_entries (mret a : M A).
Proof. done. Qed.

Lemma works_on_entries_lift {A} (x : exc A) : works_on_entries (lift x : M A).
Proof. done. Qed.

Lemma works_on_entries_call {R} (ev : exc R → event) op :
  (∀ r, txn_step Inside (ev r) = Some Inside) →
  works_on_entries (call ev op : M R).
Proof. intros Hev s. rewrite call_run. simpl. by rewrite Hev. Qed.

Lemma works_on_entries_for_each {A X} (l : list X) (body : X → A → M A) a :
  (∀ x a, works_on_entries (body x a)) → works_on_entries (for_each l body a).
Proof.
  intros Hb. revert a. induction l as [|x l IH]; intros a; [done|].
  cbn [for_each]. apply works_on_entries_bind; [done|]. intros a'. apply IH.
Qed.

Lemma may_commit_bind {A B} (m : M A) (f : A → M B) :
  works_on_entries m → (∀ a, may_commit (f a)) → may_commit (m ≫= f).
Proof.
  intros Hm Hf s. rewrite bind_run. destruct (Hm s) as [Hr He].
  destruct (result (m s)) as [[a|e]|]; simpl; try done.
  - destruct (Hf a (final (m s))) as (Hr' & q & He' & Hq). split; [done|].
    exists q. by rewrite txn_run_app, He.
  - split; [done|]. by exists Inside.
Qed.

Lemma may_commit_entries {A} (m : M A) : works_on_entries m → may_commit m.
Proof. intros Hm s. destruct (Hm s) as [Hr He]. split; [done|]. by exists Inside. Qed.

Lemma may_commit_commit {A} (a : A) :
  may_commit (call EvCommit (askar_commit store);; mret a : M A).
Proof.
  intros s. rewrite bind_call.
  destruct (askar_commit store (world s)) as [[[]|e] w]; simpl.
  - split; [done|]. by exists Committed.
  - split; [done|]. by exists Committed.
Qed.

Lemma stays_outside_transaction {A} (body : M A) :
  may_commit body → stays_outside (transaction store body).
Proof.
  intros Hb s. unfold transaction. rewrite bind_call.
  destruct (askar_transaction store (world s)) as [[[]|e] w]; [|done].
  rewrite try_finally_call. destruct (Hb (State w (rng s))) as (Hr & q & He & Hq).
  destruct (result (body _)) as [x|]; [|done]. simpl.
  rewrite txn_run_app, He. simpl. by destruct q.
Qed.

End transaction_facts.

(** Proves that a computation written with the combinators of the monad
    keeps the discipline of the transactions. *)
Ltac txn_step_tac :=
  match goal with
  | |- stays_outside (print _) => apply stays_outside_print
  | |- stays_outside (while_true _ _ _) => apply stays_outside_while
  | |- stays_outside (transaction _ _) => apply stays_outside_transaction
  | |- stays_outside (_ ≫= _) => apply stays_outside_bind
  | |- may_commit (call EvCommit _ ≫= _) => apply may_commit_commit
  | |- may_commit (_ ≫= _) => apply may_commit_bind
  | |- may_commit (match ?x with _ => _ end) => destruct x
  | |- may_commit (if ?x then _ else _) => destruct x
  | |- may_commit _ => apply may_commit_entries
  | |- works_on_entries (_ ≫= _) => apply works_on_entries_bind
  | |- works_on_entries (mret _) => apply works_on_entries_ret
  | |- works_on_entries (lift _) => apply works_on_entries_lift
  | |- works_on_entries (call _ _) => apply works_on_entries_call; reflexivity
  | |- works_on_entries (for_each _ _ _) => apply works_on_entries_for_each
  | |- works_on_entries (match ?x with _ => _ end) => destruct x
  | |- works_on_entries (if ?x then _ else _) => destruct x
  | |- ∀ _, _ => intro
  end.

(** X8: the conversion keeps the discipline of the transactions of the
    store. It enters a transaction only from outside of one; it fetches,
    removes and inserts entries and keys only inside a transaction; a commit
    is the last call in its transaction; every transaction that was entered
    is left, also when a step raises; and the conversion prints, opens and
    closes the store outside of transactions only. Whether it ends normally,
    raises or is cut off, it ends outside of a transaction. *)
Theorem conversion_keeps_transactions {L : Library} {World Wallet AskarKey : Type}
    (store : StoreOps (World := World) (AskarKey := AskarKey))
    (fuel : nat) (uri wallet_key : string) (profile : option string)
    (s : state (World := World)) :
  txn_run Outside
    (events (convert_items_to_askar (Wallet := Wallet) store fuel uri wallet_key
               profile s))
  = Some Outside.
Proof.
  revert s. change (stays_outside (convert_items_to_askar (Wallet := Wallet) store
                                     fuel uri wallet_key profile)).
  assert (Hcall : ∀ (ev : exc unit → event (Wallet := Wallet) (AskarKey := AskarKey))
                    op,
            (∀ r, txn_step Outside (ev r) = Some Outside) →
            stays_outside (World := World) (call ev op)).
  { intros ev op Hev s. rewrite call_run. simpl. by rewrite Hev. }
  unfold convert_items_to_askar, convert_keys, convert_master_secrets,
    convert_master_secrets_batch, convert_dids, convert_schemas, convert_cred_defs,
    convert_rev_reg_defs, convert_rev_reg_keys, convert_rev_reg_states,
    convert_rev_reg_info, convert_credentials, convert_credentials_batch,
    convert_credential, copy_category, print_updated,
    txn_fetch_all, txn_fetch, txn_remove, txn_insert, txn_insert_key, txn_commit.
  cbv zeta.
  repeat (txn_step_tac || (apply Hcall; reflexivity)).
Qed.

(** ** A credential definition without schema identifier *)

Section schema_id_facts.
Context `{L : Library} {World Wallet AskarKey : Type}.
Variable store : StoreOps (World := World) (AskarKey := AskarKey).
Local Abbreviation event := (event (Wallet := Wallet) (AskarKey := AskarKey)).
Local Abbreviation M := (M (World := World) (Wallet := Wallet) (AskarKey := AskarKey)).
Local Abbreviation run := (run (World := World) (Wallet := Wallet) (AskarKey := AskarKey)).
Implicit Types (s : state (World := World)) (t u : list event).

Ltac not_missing_schema_id :=
  simpl; try tauto;
  match goal with
  | |- context [match ?r with Ok _ => _ | Raise _ => _ end] => destruct r as [[?|]|?]
  end; try tauto; discriminate.

Lemma stops_in_transaction_bind {A B} (m : M A) (f : A → M B) s :
  (∀ s', stops_in_transaction (m s')) →
  (∀ a s', stops_in_transaction (f a s')) →
  stops_in_transaction ((m ≫= f) s).
Proof.
  intros Hm Hf. unfold stops_in_transaction. rewrite bind_run.
  destruct (Hm s) as [Hq|(t & name & Ht & Hq & Hr)].
  - destruct (result (m s)) as [[a|e]|]; simpl; [|by left..].
    destruct (Hf a (final (m s))) as [Hq'|(t & name & -> & Hq' & ->)].
    + left. by apply Forall_app.
    + right. exists (events (m s) ++ t), name. rewrite app_assoc.
      split; [done|]. split; [by apply Forall_app|done].
  - rewrite Hr. simpl. right. by exists t, name.
Qed.

Lemma stops_in_transaction_emits {A} (m : M A) s :
  emits (λ e, ¬ is_missing_schema_id e) m → stops_in_transaction (m s).
Proof. intros Hm. left. apply Hm. Qed.

Lemma stops_in_transaction_for_each {A X} (l : list X) (body : X → A → M A) a s :
  (∀ x a s', stops_in_transaction (body x a s')) →
  stops_in_transaction (for_each l body a s).
Proof.
  intros Hb. revert a s. induction l as [|x l IH]; intros a s.
  - left. constructor.
  - cbn [for_each]. apply stops_in_transaction_bind; [apply Hb|].
    intros a' s'. apply IH.
Qed.

Lemma stops_after_transaction_bind {A B} (m : M A) (f : A → M B) s :
  (∀ s', stops_after_transaction (m s')) →
  (∀ a s', stops_after_transaction (f a s')) →
  stops_after_transaction ((m ≫= f) s).
Proof.
  intros Hm Hf. unfold stops_after_transaction. rewrite bind_run.
  destruct (Hm s) as [Hq|(t & name & x & Ht & Hq & Hr)].
  - destruct (result (m s)) as [[a|e]|]; simpl; [|by left..].
    destruct (Hf a (final (m s))) as [Hq'|(t & name & x & -> & Hq' & ->)].
    + left. by apply Forall_app.
    + right. exists (events (m s) ++ t), name, x. rewrite app_assoc.
      split; [done|]. split; [by apply Forall_app|done].
  - rewrite Hr. simpl. right. by exists t, name, x.
Qed.

Lemma stops_after_transaction_emits {A} (m : M A) s :
  emits (λ e, ¬ is_missing_schema_id e) m → stops_after_transaction (m s).
Proof. intros Hm. left. apply Hm. Qed.

Lemma stops_after_transaction_while {A} fuel (body : A → M (bool * A)) a s :
  (∀ a s', stops_after_transaction (body a s')) →
  stops_after_transaction (while_true fuel body a s).
Proof.
  intros Hb. revert a s. induction fuel as [|fuel IH]; intros a s.
  - left. constructor.
  - cbn [while_true]. apply stops_after_transaction_bind; [apply Hb|].
    intros [[] a'] s'; [apply IH|]. left. constructor.
Qed.

Lemma stops_after_transaction_transaction {A} (body : M A) s :
  (∀ s', stops_in_transaction (body s')) →
  stops_after_transaction (transaction store body s).
Proof.
  intros Hb. unfold stops_after_transaction, transaction. rewrite bind_call.
  destruct (askar_transaction store (world s)) as [[[]|e] w].
  2:{ left. constructor; [simpl; tauto|constructor]. }
  rewrite try_finally_call.
  destruct (Hb (State w (rng s))) as [Hq|(t & name & Ht & Hq & Hr)].
  - left. destruct (result (body _)); simpl.
    + constructor; [simpl; tauto|]. apply Forall_app. split; [done|].
      constructor; [simpl; tauto|constructor].
    + constructor; [simpl; tauto|done].
  - right. rewrite Hr. simpl. rewrite Ht.
    exists (EvTransaction (Ok tt) :: t), name. eexists.
    rewrite <- !app_assoc. simpl. split; [done|].
    split; [constructor; [simpl; tauto|done]|].
    by destruct (askar_transaction_exit store _).1.
Qed.

Lemma convert_cred_defs_stops fuel s :
  stops_after_transaction ((convert_cred_defs store fuel : M unit) s).
Proof.
  unfold convert_cred_defs.
  apply stops_after_transaction_bind.
  { intros s'. apply stops_after_transaction_emits. solve_emits. simpl. tauto. }
  intros _ s1. apply stops_after_transaction_bind.
  2:{ intros upd s'. apply stops_after_transaction_emits. unfold print_updated.
      solve_emits. simpl. tauto. }
  intros s2. apply stops_after_transaction_while. intros upd s3.
  apply stops_after_transaction_transaction. intros s4.
  apply stops_in_transaction_bind.
  { intros s'. apply stops_in_transaction_emits. unfold txn_fetch_all.
    solve_emits. simpl. tauto. }
  intros rows s5. destruct rows as [|row0 rows].
  { left. constructor. }
  apply stops_in_transaction_bind.
  2:{ intros upd' s'. apply stops_in_transaction_emits. unfold txn_commit.
      solve_emits. simpl. tauto. }
  intros s6. apply stops_in_transaction_for_each. intros row upd' s7.
  cbv beta. unfold txn_remove, txn_fetch, txn_insert. rewrite bind_call.
  destruct (askar_remove store _ _ (world s7)) as [[[]|e] w].
  2:{ left. constructor; [simpl; tauto|constructor]. }
  rewrite bind_call. cbn [world rng].
  destruct (askar_fetch store "Indy::SchemaId" (entry_name row) w) as [[[sid|]|e] w1].
  - left. unfold after. simpl.
    constructor; [simpl; tauto|]. constructor; [simpl; tauto|].
    match goal with
    | |- Forall _ (events (?m ?s')) =>
        assert (He : emits (λ e : event, ¬ is_missing_schema_id e) m); [|apply He]
    end.
    solve_emits. all: not_missing_schema_id.
  - right. exists [], (entry_name row). rewrite bind_lift. by repeat split.
  - left. constructor; [simpl; tauto|]. constructor; [simpl; tauto|constructor].
Qed.

Lemma convert_items_to_askar_stops fuel uri wallet_key profile s :
  stops_after_transaction
    ((convert_items_to_askar store fuel uri wallet_key profile : M unit) s).
Proof.
  unfold convert_items_to_askar.
  do 6 (apply stops_after_transaction_bind;
        [intros ?; apply stops_after_transaction_emits;
         unfold convert_keys, convert_master_secrets,
           convert_master_secrets_batch, convert_dids, convert_schemas,
           copy_category, print_updated, transaction,
           txn_fetch_all, txn_fetch, txn_remove, txn_insert, txn_insert_key,
           txn_commit;
         solve_emits; not_missing_schema_id
        |intros _ ?]).
  apply stops_after_transaction_bind; [intros ?; apply convert_cred_defs_stops|].
  intros _ ?. apply stops_after_transaction_emits.
  unfold convert_rev_reg_defs, convert_rev_reg_keys, convert_rev_reg_states,
    convert_rev_reg_info, convert_credentials, convert_credentials_batch,
    convert_credential, copy_category, print_updated, transaction,
    txn_fetch_all, txn_fetch, txn_remove, txn_insert, txn_insert_key, txn_commit.
  solve_emits. all: not_missing_schema_id.
Qed.

End schema_id_facts.

(** X9: when the conversion finds no schema identifier for a credential
    definition (the fetch of [Indy::SchemaId] under its name returns
    nothing), it stops there: the credential definition has just been
    removed, nothing is inserted for it, the transaction is left without a
    commit, and the conversion raises the exception "Schema ID not found for
    credential definition: <name>" (or the error of leaving the
    transaction); no later step runs and the store is not closed. *)
Theorem missing_schema_id_is_fatal {L : Library} {World Wallet AskarKey : Type}
    (store : StoreOps (World := World) (AskarKey := AskarKey))
    (fuel : nat) (uri wallet_key : string) (profile : option string)
    (s : state (World := World)) (name : string) :
  EvFetch "Indy::SchemaId" name (Ok None)
    ∈ events (convert_items_to_askar (Wallet := Wallet) store fuel uri wallet_key
                profile s) →
  ∃ t x,
    events (convert_items_to_askar (Wallet := Wallet) store fuel uri wallet_key
              profile s)
    = t ++ [EvRemove "Indy::CredentialDefinition" name (Ok tt);
            EvFetch "Indy::SchemaId" name (Ok None);
            EvTransactionExit x]
    ∧ Forall (λ e, ¬ is_missing_schema_id e) t
    ∧ result (convert_items_to_askar (Wallet := Wallet) store fuel uri wallet_key
                profile s)
      = Some (Raise (match x with
                     | Ok _ =>
                         PyException
                           ("Schema ID not found for credential definition: " +:+ name)
                     | Raise e => e
                     end)).
Proof.
  intros Hin.
  destruct (convert_items_to_askar_stops (Wallet := Wallet) store fuel uri wallet_key
              profile s) as [Hq|(t & name' & x & Hev & Hq & Hr)].
  - rewrite Forall_forall in Hq. by destruct (Hq _ Hin).
  - rewrite Hev in Hin. apply elem_of_app in Hin as [Hin|Hin].
    { rewrite Forall_forall in Hq. by destruct (Hq _ Hin). }
    rewrite !elem_of_cons, elem_of_nil in Hin.
    destruct Hin as [?|[[= ->]|[?|[]]]]; try done.
    by exists t, x.
Qed.

Lemma missing_schema_id_is_fatal_witness :
  ∃ t x,
    events (convert_items_to_askar (L := plain_toy_library) (Wallet := string)
              (mem_store (λ _, [])) 3 "sqlite://wallet.db" "" None
              (State (example_db [example_cred_def_entry]) (counting_tape 0)))
    = t ++ [EvRemove "Indy::CredentialDefinition" "cd-1" (Ok tt);
            EvFetch "Indy::SchemaId" "cd-1" (Ok None);
            EvTransactionExit x]
    ∧ Forall (λ e, ¬ is_missing_schema_id e) t
    ∧ result (convert_items_to_askar (L := plain_toy_library) (Wallet := string)
                (mem_store (λ _, [])) 3 "sqlite://wallet.db" "" None
                (State (example_db [example_cred_def_entry]) (counting_tape 0)))
      = Some (Raise (match x with
                     | Ok _ =>
                         PyException
                           "Schema ID not found for credential definition: cd-1"
                     | Raise e => e
                     end)).
Proof.
  apply (missing_schema_id_is_fatal (L := plain_toy_library) (Wallet := string)
           (mem_store (λ _, [])) 3 "sqlite://wallet.db" "" None
           (State (example_db [example_cred_def_entry]) (counting_tape 0)) "cd-1").
  apply list_elem_of_In. vm_compute. tauto.
Defined.


(** ** The categories that the conversion touches *)

(** X10: the conversion fetches and removes entries in categories that start
    with ["Indy::"] only, at most 50 entries per fetch except for the master
    secrets, and inserts entries under eleven new categories only, none of
    which starts with ["Indy::"]: what it has inserted it never fetches or
    removes again. *)
Theorem conversion_respects_categories {L : Library} {World Wallet AskarKey : Type}
    (store : StoreOps (World := World) (AskarKey := AskarKey))
    (fuel : nat) (uri wallet_key : string) (profile : option string)
    (s : state (World := World)) :
  Forall respects_categories
    (events (convert_items_to_askar (Wallet := Wallet) store fuel uri wallet_key
               profile s))
  ∧ Forall (λ category, is_legacy_category category = false) askar_categories.
Proof.
  split; [|by repeat constructor].
  revert s. change (emits respects_categories
                      (convert_items_to_askar (Wallet := Wallet) store fuel uri
                         wallet_key profile)).
  unfold convert_items_to_askar, convert_keys, convert_master_secrets,
    convert_master_secrets_batch, convert_dids, convert_schemas, convert_cred_defs,
    convert_rev_reg_defs, convert_rev_reg_keys, convert_rev_reg_states,
    convert_rev_reg_info, convert_credentials, convert_credentials_batch,
    convert_credential, copy_category, print_updated, transaction,
    txn_fetch_all, txn_fetch, txn_remove, txn_insert, txn_insert_key, txn_commit.
  solve_emits.
  all: simpl; try done.
  all: try (split; [reflexivity|]; (by left) || (by right)).
  all: apply (bool_decide_unpack _); reflexivity.
Qed.

(** ** The pass key and the profiles of the conversions *)

Section open_args_facts.
Context `{L : Library} {World Wallet AskarKey : Type}.
Variable conn : ConnOps (World := World) (Wallet := Wallet).
Variable wallets : WalletOps (World := World) (Wallet := Wallet).
Variable store : StoreOps (World := World) (AskarKey := AskarKey).
Local Abbreviation event := (event (Wallet := Wallet) (AskarKey := AskarKey)).
Local Abbreviation M := (M (World := World) (Wallet := Wallet) (AskarKey := AskarKey)).
Local Abbreviation run := (run (World := World) (Wallet := Wallet) (AskarKey := AskarKey)).
Implicit Types (s : state (World := World)) (t u : list event).

Lemma omap_open_args_quiet t :
  Forall (λ e, ¬ is_store_open e) t → omap open_args t = [].
Proof.
  induction 1 as [|e t He _ IH]; [done|].
  destruct e; try exact IH. by destruct He.
Qed.

Lemma opens_with_bind {A B} args (m : M A) (f : A → M B) s :
  emits (λ e, ¬ is_store_open e) m →
  (∀ a s', opens_with args (f a s')) →
  opens_with args ((m ≫= f) s).
Proof.
  intros Hm Hf. unfold opens_with. rewrite bind_run.
  pose proof (omap_open_args_quiet _ (Hm s)) as Hq.
  destruct (result (m s)) as [[a|e]|]; simpl.
  - rewrite omap_app, Hq. apply Hf.
  - rewrite Hq. split; [apply prefix_nil|done].
  - rewrite Hq. split; [apply prefix_nil|done].
Qed.

Lemma convert_items_to_askar_opens fuel uri wallet_key profile s :
  opens_with [(wallet_key, profile)]
    ((convert_items_to_askar store fuel uri wallet_key profile : M unit) s).
Proof.
  unfold opens_with, convert_items_to_askar. rewrite bind_print, bind_call.
  destruct (askar_open store uri wallet_key profile (world s)) as [[[]|e] w];
    simpl; [|done].
  match goal with
  | |- context [events (?m ?s')] =>
      assert (He : emits (λ e : event, ¬ is_store_open e) m)
  end.
  { unfold convert_keys, convert_master_secrets,
      convert_master_secrets_batch, convert_dids, convert_schemas, convert_cred_defs,
      convert_rev_reg_defs, convert_rev_reg_keys, convert_rev_reg_states,
      convert_rev_reg_info, convert_credentials, convert_credentials_batch,
      convert_credential, copy_category, print_updated, transaction,
      txn_fetch_all, txn_fetch, txn_remove, txn_insert, txn_insert_key, txn_commit.
    solve_emits. all: simpl; tauto. }
  by rewrite (omap_open_args_quiet _ (He _)).
Qed.

Lemma opens_with_for_each {X} (g : X → string * option string) (l : list X)
    (body : X → unit → M unit) a s :
  (∀ x a s', opens_with [g x] (body x a s')) →
  opens_with (g <$> l) (for_each l body a s).
Proof.
  intros Hb. revert a s. induction l as [|x l IH]; intros a s.
  { split; [done|]. by intros []. }
  cbn [for_each]. unfold opens_with. rewrite bind_run.
  destruct (Hb x a s) as [Hp Hok].
  destruct (result (body x a s)) as [[[]|e]|] eqn:Hr; simpl.
  - rewrite omap_app, (Hok tt eq_refl). simpl.
    destruct (IH tt (final (body x a s))) as [Hp' Hok']. split.
    + by apply prefix_cons.
    + intros b Hb'. by rewrite (Hok' b Hb').
  - split; [|done].
    eapply (transitivity Hp). by apply prefix_cons, prefix_nil.
  - split; [|done].
    eapply (transitivity Hp). by apply prefix_cons, prefix_nil.
Qed.

Lemma guarded_rekey_quiet (rekey : M unit) :
  emits is_upgrade_call rekey →
  emits (λ e, ¬ is_store_open e)
    (try_finally (rekey;; call EvFinishUpgrade (conn_finish_upgrade conn))
       (call EvClose (conn_close conn))).
Proof.
  intros Hr. apply emits_try_finally.
  - apply emits_bind.
    + eapply emits_impl; [|exact Hr]. intros e (_ & _ & He). by destruct e.
    + intros _. apply emits_call. intros r. simpl. tauto.
  - apply emits_call. intros r. simpl. tauto.
Qed.

Lemma dbpw_run_opens fuel self s :
  opens_with [(dbpw_wallet_key self, None)]
    ((dbpw_run conn wallets store fuel self : M unit) s).
Proof.
  unfold dbpw_run. apply opens_with_bind.
  { unfold dbpw_open. solve_emits. all: simpl; tauto. }
  intros wallet s1. apply opens_with_bind.
  { apply guarded_rekey_quiet, dbpw_rekey_calls. }
  intros _ s2. apply opens_with_bind; [apply conn_uri_attr_calls|].
  intros uri s3. apply convert_items_to_askar_opens.
Qed.

Lemma mwst_run_opens fuel self s :
  opens_with ((λ kv, (base_wallet_key self, Some kv.1)) <$> wallet_keys self)
    ((mwst_run conn wallets store fuel self : M unit) s).
Proof.
  unfold mwst_run. apply opens_with_bind.
  { solve_emits. simpl. tauto. }
  intros _ s1. apply opens_with_bind.
  { apply guarded_rekey_quiet, mwst_rekey_calls. }
  intros _ s2. apply opens_with_for_each.
  intros [wallet_name wallet_key] [] s3. apply opens_with_bind.
  { apply conn_uri_attr_calls. }
  intros uri s4. apply convert_items_to_askar_opens.
Qed.

End open_args_facts.

(** X11: a run of [DbpwStrategy] opens the Askar store at most once, with
    the wallet key as pass key and no profile, and exactly once when it ends
    normally. A run of [MwstAsProfilesStrategy] opens it once per wallet
    name, in the order of [wallet_keys], each time with the key of the base
    wallet as pass key and the wallet name as profile: the keys of the other
    wallets are never used as pass key. It stops at the first conversion
    that fails, and has opened the store for every name when it ends
    normally. *)
Theorem runs_open_the_store {L : Library} {World Wallet AskarKey : Type}
    (conn : ConnOps (World := World) (Wallet := Wallet))
    (wallets : WalletOps (World := World) (Wallet := Wallet))
    (store : StoreOps (World := World) (AskarKey := AskarKey))
    (fuel : nat) (s : state (World := World)) :
  (∀ self, opens_with [(dbpw_wallet_key self, None)]
             (dbpw_run conn wallets store fuel self s))
  ∧ (∀ self, opens_with ((λ kv, (base_wallet_key self, Some kv.1)) <$> wallet_keys self)
               (mwst_run conn wallets store fuel self s)).
Proof.
  split; intros self; [apply dbpw_run_opens|apply mwst_run_opens].
Qed.

(** ** Credentials whose tags can be derived *)

Lemma attr_fold_ok (attrs : list (string * json)) acc tags :
  foldl attr_step acc attrs = Ok tags →
  (∃ base, acc = Ok base)
  ∧ Forall (λ kv, ∃ raw, json_getitem kv.2 "raw" = Ok raw) attrs.
Proof.
  revert acc. induction attrs as [|[k a] l IH]; intros acc; simpl.
  - intros ->. split; [by eexists|constructor].
  - intros H. destruct (IH _ H) as [[base Hbase] Hl].
    unfold attr_step, mbind, exc_bind in Hbase.
    destruct acc as [tags0|]; [|done].
    destruct (json_getitem a "raw") as [raw|] eqn:Hraw; [|done].
    split; [by eexists|]. constructor; [by exists raw|done].
Qed.

(** X12: [_credential_tags] returns tags only for a credential whose
    [schema_id] is a string of the form [<issuerDid>:2:<name>:<version>],
    whose [cred_def_id] is a string of the form
    [<issuerDid>:3:CL:<schemaSeqNo>:<tag>], and whose [values] is an object of
    which every attribute has a [raw] entry; for every other credential it
    raises. *)
Theorem credential_tags_only_if (cred_data : json) (tags : gmap string json) :
  _credential_tags cred_data = Ok tags →
  ∃ schema_id did name version cred_def_id cred_def_did seq_no tag attrs,
    json_getitem cred_data "schema_id" = Ok (JStr schema_id)
    ∧ is_schema_id schema_id did name version
    ∧ json_getitem cred_data "cred_def_id" = Ok (JStr cred_def_id)
    ∧ is_cred_def_id cred_def_id cred_def_did seq_no tag
    ∧ json_getitem cred_data "values" = Ok (JObj attrs)
    ∧ Forall (λ kv, ∃ raw, json_getitem kv.2 "raw" = Ok raw) attrs.
Proof.
  unfold _credential_tags.
  destruct (json_getitem cred_data "schema_id") as [sid|] eqn:Hs; [|done].
  cbn [mbind exc_bind]. destruct sid as [| | | |schema_id| |]; try done.
  cbn [re_match mbind exc_bind].
  destruct (match_schema_id schema_id) as [[[did name] version]|] eqn:Hsid; [|done].
  apply match_schema_id_iff in Hsid.
  destruct (json_getitem cred_data "cred_def_id") as [cid|] eqn:Hc; [|done].
  cbn [mbind exc_bind]. destruct cid as [| | | |cred_def_id| |]; try done.
  cbn [re_match mbind exc_bind].
  destruct (match_cred_def_id cred_def_id) as [[[cd_did seq_no] tag]|] eqn:Hcid; [|done].
  apply match_cred_def_id_iff in Hcid.
  destruct (json_getitem cred_data "values") as [values|] eqn:Hv; [|done].
  cbn [mbind exc_bind]. destruct values as [| | | | | |attrs]; try done.
  intros Hfold. apply attr_fold_ok in Hfold as [_ Hraw].
  by exists schema_id, did, name, version, cred_def_id, cd_did, seq_no, tag, attrs.
Qed.

Lemma credential_tags_only_if_witness :
  ∃ schema_id did name version cred_def_id cred_def_did seq_no tag attrs,
    json_getitem (example_credential example_attrs) "schema_id" = Ok (JStr schema_id)
    ∧ is_schema_id schema_id did name version
    ∧ json_getitem (example_credential example_attrs) "cred_def_id"
      = Ok (JStr cred_def_id)
    ∧ is_cred_def_id cred_def_id cred_def_did seq_no tag
    ∧ json_getitem (example_credential example_attrs) "values" = Ok (JObj attrs)
    ∧ Forall (λ kv, ∃ raw, json_getitem kv.2 "raw" = Ok raw) attrs.
Proof.
  assert (E : ∃ tags, _credential_tags (example_credential example_attrs) = Ok tags).
  { eexists. vm_compute. reflexivity. }
  destruct E as [tags E].
  exact (credential_tags_only_if (example_credential example_attrs) tags E).
Defined.

(** ** Payloads are carried over unchanged *)

Section payload_facts.
Context `{L : Library} {World Wallet AskarKey : Type}.
Variable store : StoreOps (World := World) (AskarKey := AskarKey).
Local Abbreviation event := (event (Wallet := Wallet) (AskarKey := AskarKey)).
Local Abbreviation M := (M (World := World) (Wallet := Wallet) (AskarKey := AskarKey)).
Local Abbreviation run := (run (World := World) (Wallet := Wallet) (AskarKey := AskarKey)).
Implicit Types (s : state (World := World)) (t u : list event) (avail : list entry).

Lemma fetched_app x t u : fetched x t → fetched x (t ++ u).
Proof.
  intros [(c & l & rows & Hin & Hx)|(c & n & Hin)]; [left|right].
  - exists c, l, rows. split; [|done]. apply elem_of_app. by left.
  - exists c, n. apply elem_of_app. by left.
Qed.

Lemma fetched_app_r x t u : fetched x u → fetched x (t ++ u).
Proof.
  intros [(c & l & rows & Hin & Hx)|(c & n & Hin)]; [left|right].
  - exists c, l, rows. split; [|done]. apply elem_of_app. by right.
  - exists c, n. apply elem_of_app. by right.
Qed.

Lemma payloads_carried_over_nil avail : payloads_carried_over avail ([] : list event).
Proof. intros t1 c n b tags r t2 E. by destruct t1. Qed.

Lemma payloads_carried_over_app avail t u :
  payloads_carried_over avail t → payloads_carried_over avail u →
  payloads_carried_over avail (t ++ u).
Proof.
  intros Ht Hu t1 c n b tags r t2 E.
  apply app_eq_app in E as [l [[-> E]|[-> ->]]].
  - destruct l as [|e' l]; simpl in E.
    + destruct (Hu [] c n b tags r t2) as (x & [Hx|Hx] & Hc); [by rewrite E| |].
      * exists x. split; [by left|done].
      * exists x. split; [right|done]. rewrite <- (app_nil_r t1).
        by apply fetched_app_r.
    + injection E as <- ->. by apply (Ht t1 c n b tags r l).
  - destruct (Hu l c n b tags r t2 eq_refl) as (x & [Hx|Hx] & Hc).
    + exists x. split; [by left|done].
    + exists x. split; [right|done]. by apply fetched_app_r.
Qed.

Lemma payloads_carried_over_quiet avail t :
  Forall (λ e, ¬ is_payload_insert e) t → payloads_carried_over avail t.
Proof.
  intros Ht t1 c n b tags r t2 ->. apply Forall_app in Ht as [_ Ht].
  apply Forall_inv in Ht. by destruct Ht.
Qed.

Lemma payloads_carried_over_known avail x e u :
  fetched x [e] →
  payloads_carried_over (x :: avail) u → payloads_carried_over avail (e :: u).
Proof.
  intros He Hu t1 c n b tags r t2 E. destruct t1 as [|e1 t1]; simpl in E.
  - injection E as -> ->. destruct He as [(? & ? & ? & Hin & _)|(? & ? & Hin)];
      rewrite elem_of_cons, elem_of_nil in Hin; by destruct Hin as [?|[]].
  - injection E as <- ->.
    destruct (Hu t1 c n b tags r t2 eq_refl) as (y & [Hy|Hy] & Hc).
    + apply elem_of_cons in Hy as [->|Hy].
      * exists x. split; [right|done]. by apply (fetched_app x [e] t1).
      * exists y. split; [by left|done].
    + exists y. split; [right|done]. by apply (fetched_app_r y [e] t1).
Qed.

Lemma payloads_carried_over_rows avail rows c l u :
  payloads_carried_over (rows ++ avail) u →
  payloads_carried_over avail (EvFetchAll c l (Ok rows) :: u).
Proof.
  intros Hu t1 c' n b tags r t2 E. destruct t1 as [|e1 t1]; simpl in E; [done|].
  injection E as <- ->.
  destruct (Hu t1 c' n b tags r t2 eq_refl) as (y & [Hy|Hy] & Hc).
  - apply elem_of_app in Hy as [Hy|Hy].
    + exists y. split; [right|done]. left. exists c, l, rows.
      split; [apply list_elem_of_here|done].
    + exists y. split; [by left|done].
  - exists y. split; [right|done].
    by apply (fetched_app_r y [EvFetchAll c l (Ok rows)] t1).
Qed.

Lemma carries_over_bind {A B} avail (m : M A) (f : A → M B) :
  carries_over avail m → (∀ a, carries_over avail (f a)) → carries_over avail (m ≫= f).
Proof.
  intros Hm Hf s. rewrite bind_run. specialize (Hm s).
  destruct (result (m s)) as [[a|e]|]; simpl; try done.
  apply payloads_carried_over_app; [done|apply Hf].
Qed.

Lemma carries_over_emits {A} avail (m : M A) :
  emits (λ e, ¬ is_payload_insert e) m → carries_over avail m.
Proof. intros Hm s. apply payloads_carried_over_quiet, Hm. Qed.

Lemma carries_over_fetch_all {B} avail c l op (f : list entry → M B) :
  (∀ rows, carries_over (rows ++ avail) (f rows)) →
  carries_over avail (call (EvFetchAll c l) op ≫= f).
Proof.
  intros Hf s. rewrite bind_call. destruct (op (world s)) as [[rows|e] w].
  - apply payloads_carried_over_rows, Hf.
  - apply payloads_carried_over_quiet. constructor; [simpl; tauto|constructor].
Qed.

Lemma carries_over_fetch {B} avail c n op (f : option entry → M B) :
  (∀ x, carries_over (x :: avail) (f (Some x))) →
  carries_over avail (f None) →
  carries_over avail (call (EvFetch c n) op ≫= f).
Proof.
  intros Hsome Hnone s. rewrite bind_call.
  destruct (op (world s)) as [[[x|]|e] w].
  - apply (payloads_carried_over_known avail x); [|apply Hsome].
    right. exists c, n. apply list_elem_of_here.
  - apply (payloads_carried_over_app avail [_]); [|apply Hnone].
    apply payloads_carried_over_quiet. constructor; [simpl; tauto|constructor].
  - apply payloads_carried_over_quiet. constructor; [simpl; tauto|constructor].
Qed.

Lemma carries_over_insert avail c n b tags op :
  (∃ x, x ∈ avail ∧ carries c n b x) →
  carries_over avail (call (EvInsert c n (Value b) tags) op : M unit).
Proof.
  intros (x & Hx & Hc) s. rewrite call_run. simpl.
  intros t1 c' n' b' tags' r t2 E. destruct t1 as [|e1 [|e2 t1]]; [|done..].
  injection E as -> -> -> -> _ _. exists x. split; [by left|done].
Qed.

Lemma carries_over_while {A} avail fuel (body : A → M (bool * A)) a :
  (∀ a, carries_over avail (body a)) → carries_over avail (while_true fuel body a).
Proof.
  intros Hb. revert a. induction fuel as [|fuel IH]; intros a.
  - intros s. apply payloads_carried_over_nil.
  - cbn [while_true]. apply carries_over_bind; [done|].
    intros [[] a']; [apply IH|]. intros s. apply payloads_carried_over_nil.
Qed.

Lemma carries_over_for_each {A X} avail (l : list X) (body : X → A → M A) a :
  (∀ x, x ∈ l → ∀ a, carries_over avail (body x a)) →
  carries_over avail (for_each l body a).
Proof.
  revert a. induction l as [|x l IH]; intros a Hb.
  - intros s. apply payloads_carried_over_nil.
  - cbn [for_each]. apply carries_over_bind.
    + apply Hb, list_elem_of_here.
    + intros a'. apply IH. intros y Hy. by apply Hb, list_elem_of_further.
Qed.

Lemma carries_over_try_finally {A} avail (body : M A) (cleanup : M unit) :
  carries_over avail body → carries_over avail cleanup →
  carries_over avail (try_finally body cleanup).
Proof.
  intros Hb Hc s. unfold try_finally. specialize (Hb s).
  destruct (result (body s)); [|done]. simpl.
  apply payloads_carried_over_app; [done|apply Hc].
Qed.

End payload_facts.

(** Proves that a computation carries the payloads over. *)
Ltac solve_elem_of :=
  first [ assumption
        | apply list_elem_of_here
        | apply elem_of_app; left; solve_elem_of
        | apply list_elem_of_further; solve_elem_of
        | apply elem_of_app; right; solve_elem_of ].

Ltac carries_step :=
  match goal with
  | |- carries_over _ (call (EvFetchAll _ _) _ ≫= _) => apply carries_over_fetch_all
  | |- carries_over _ (call (EvFetch _ _) _ ≫= _) => apply carries_over_fetch
  | |- carries_over _ (call (EvInsert _ _ (Value _) _) _) =>
      apply carries_over_insert;
      refine (ex_intro _ _ (conj _ (conj eq_refl _)));
      [solve_elem_of|(by left) || (by right)]
  | |- carries_over _ (_ ≫= _) => apply carries_over_bind
  | |- carries_over _ (while_true _ _ _) => apply carries_over_while
  | |- carries_over _ (for_each _ _ _) => apply carries_over_for_each
  | |- carries_over _ (try_finally _ _) => apply carries_over_try_finally
  | |- carries_over _ (match ?x with _ => _ end) => destruct x
  | |- carries_over _ (if ?x then _ else _) => destruct x
  | |- carries_over _ _ =>
      apply carries_over_emits; solve_emits; simpl; tauto
  | |- ∀ _, _ => intro
  end.

(** X13: the conversion does not alter binary payloads. Every entry that it
    inserts with a [value] (a master secret, a schema, a credential
    definition, its private key, the four kinds of revocation registry
    records, a credential) has the payload of an entry that a fetch has
    returned earlier in the same run, and the name of that entry; only the
    master secret gets a new name, ["default"]. *)
Theorem conversion_carries_payloads {L : Library} {World Wallet AskarKey : Type}
    (store : StoreOps (World := World) (AskarKey := AskarKey))
    (fuel : nat) (uri wallet_key : string) (profile : option string)
    (s : state (World := World)) :
  payloads_carried_over []
    (events (convert_items_to_askar (Wallet := Wallet) store fuel uri wallet_key
               profile s)).
Proof.
  revert s. change (carries_over [] (convert_items_to_askar (Wallet := Wallet) store
                                      fuel uri wallet_key profile)).
  unfold convert_items_to_askar, convert_keys, convert_master_secrets,
    convert_master_secrets_batch, convert_dids, convert_schemas, convert_cred_defs,
    convert_rev_reg_defs, convert_rev_reg_keys, convert_rev_reg_states,
    convert_rev_reg_info, convert_credentials, convert_credentials_batch,
    convert_credential, copy_category, print_updated, transaction,
    txn_fetch_all, txn_fetch, txn_remove, txn_insert, txn_insert_key, txn_commit.
  cbv zeta.
  repeat carries_step.
Qed.

(** ** The records that the conversion builds *)


(** ** The counts that the conversion prints *)

Section count_facts.
Context `{L : Library} {World Wallet AskarKey : Type}.
Variable store : StoreOps (World := World) (AskarKey := AskarKey).
Local Abbreviation event := (event (Wallet := Wallet) (AskarKey := AskarKey)).
Local Abbreviation M := (M (World := World) (Wallet := Wallet) (AskarKey := AskarKey)).
Local Abbreviation run := (run (World := World) (Wallet := Wallet) (AskarKey := AskarKey)).
Implicit Types (s : state (World := World)) (t u : list event) (legacy : string).

Lemma count_removals_app legacy t u :
  count_removals legacy (t ++ u) = count_removals legacy t + count_removals legacy u.
Proof. unfold count_removals. by rewrite filter_app, length_app. Qed.

Lemma count_removals_quiet legacy t :
  Forall (λ e, ¬ is_removal_from legacy e) t → count_removals legacy t = 0.
Proof.
  unfold count_removals. induction 1 as [|e t He _ IH]; [done|].
  by rewrite filter_cons_False.
Qed.

Lemma tallies_ret {A} legacy (get : A → nat) a (x : A) :
  get x = a → tallies legacy get a (mret x : M A).
Proof. intros Hx s y [= <-]. simpl. by rewrite Hx, Nat.add_0_r. Qed.

Lemma tallies_lift {A} legacy (get : A → nat) a (x : exc A) :
  (∀ y, x = Ok y → get y = a) → tallies legacy get a (lift x : M A).
Proof.
  intros Hx s y [= ->]. rewrite (Hx y eq_refl). unfold count_removals. simpl. lia.
Qed.

Lemma tallies_quiet {A B} legacy (get : B → nat) a (m : M A) (f : A → M B) :
  emits (λ e, ¬ is_removal_from legacy e) m →
  (∀ x, tallies legacy get a (f x)) →
  tallies legacy get a (m ≫= f).
Proof.
  intros Hm Hf s y. rewrite bind_run.
  destruct (result (m s)) as [[x|e]|]; simpl; try done.
  intros Hy. rewrite count_removals_app, (count_removals_quiet _ _ (Hm s)).
  by apply Hf.
Qed.

Lemma tallies_remove {B} legacy (get : B → nat) a name op (f : unit → M B) :
  (∀ x, tallies legacy get (a + 1) (f x)) →
  tallies legacy get a (call (EvRemove legacy name) op ≫= f).
Proof.
  intros Hf s y. rewrite bind_call. destruct (op (world s)) as [[[]|e] w]; [|done].
  simpl. intros Hy. rewrite (Hf tt _ _ Hy).
  change (?e :: events ?r) with ([e] ++ events r). rewrite count_removals_app.
  unfold count_removals at 2. rewrite filter_cons_True; [simpl; lia|].
  simpl. by rewrite bool_decide_eq_true_2.
Qed.

Lemma tallies_counter {B} legacy (get : B → nat) a (m : M nat) (f : nat → M B) :
  tallies legacy id a m →
  (∀ x, tallies legacy get x (f x)) →
  tallies legacy get a (m ≫= f).
Proof.
  intros Hm Hf s y. rewrite bind_run.
  destruct (result (m s)) as [[x|e]|] eqn:Hr; simpl; try done.
  intros Hy. rewrite count_removals_app, (Hf x _ _ Hy).
  pose proof (Hm s x Hr) as Hx. simpl in Hx. lia.
Qed.

Lemma tallies_for_each {X} legacy (l : list X) (body : X → nat → M nat) a :
  (∀ x a, tallies legacy id a (body x a)) →
  tallies legacy id a (for_each l body a).
Proof.
  intros Hb. revert a. induction l as [|x l IH]; intros a.
  - by apply tallies_ret.
  - cbn [for_each]. apply tallies_counter; [apply Hb|]. intros a'. apply IH.
Qed.

Lemma tallies_transaction {A} legacy (get : A → nat) a (body : M A) :
  tallies legacy get a body → tallies legacy get a (transaction store body).
Proof.
  intros Hb s y. unfold transaction. rewrite bind_call.
  destruct (askar_transaction store (world s)) as [[[]|e] w]; [|done].
  rewrite try_finally_call.
  destruct (result (body _)) as [[x|e]|] eqn:Hr; simpl.
  - destruct (askar_transaction_exit store _).1; [|done]. intros [= <-].
    rewrite (Hb _ x Hr).
    change (?e :: ?t ++ [?e']) with ([e] ++ t ++ [e']).
    rewrite !count_removals_app. unfold count_removals at 2 4. simpl. lia.
  - by destruct (askar_transaction_exit store _).1.
  - by rewrite Hr.
Qed.

Lemma tallies_while legacy fuel (body : nat → M (bool * nat)) a :
  (∀ a, tallies legacy snd a (body a)) →
  tallies legacy id a (while_true fuel body a).
Proof.
  intros Hb. revert a. induction fuel as [|fuel IH]; intros a; [done|].
  cbn [while_true]. intros s y. rewrite bind_run.
  destruct (result (body a s)) as [[[continue a']|e]|] eqn:Hr; simpl; try done.
  pose proof (Hb a s _ Hr) as Ha. simpl in Ha.
  destruct continue.
  - intros Hy. pose proof (IH a' _ _ Hy) as Hrec. unfold id in *.
    rewrite count_removals_app. lia.
  - intros [= <-]. unfold id. rewrite app_nil_r. done.
Qed.

Lemma reports_count_loop label legacy (body : nat → M (bool * nat)) fuel s :
  (∀ a, tallies legacy snd a (body a)) →
  reports_count label legacy
    ((print label;;
      upd_count ← while_true fuel body 0;
      print_updated upd_count : M unit) s).
Proof.
  intros Hb. unfold reports_count. rewrite bind_print, bind_run.
  pose proof (tallies_while legacy fuel body 0 Hb s) as Hw.
  destruct (result (while_true fuel body 0 s)) as [[n|e]|]; simpl; try done.
  intros _. pose proof (Hw n eq_refl) as Hn. unfold id in Hn.
  rewrite Nat.add_0_l in Hn.
  exists (events (while_true fuel body 0 s)). by rewrite <- Hn.
Qed.

End count_facts.

Ltac tallies_step :=
  match goal with
  | |- tallies ?legacy _ _ (call (EvRemove ?legacy _) _ ≫= _) => apply tallies_remove
  | |- tallies _ _ _ (for_each _ _ _ ≫= _) =>
      apply tallies_counter; [apply tallies_for_each|]
  | |- tallies _ _ _ (transaction _ _) => apply tallies_transaction
  | |- tallies _ _ _ (_ ≫= _) =>
      apply tallies_quiet; [solve_emits; simpl; try tauto; by intros ?%bool_decide_unpack|]
  | |- tallies _ _ _ (mret _) => apply tallies_ret; simpl; lia
  | |- tallies _ _ _ (lift (Raise _)) => apply tallies_lift; by intros
  | |- tallies _ _ _ (match ?x with _ => _ end) => destruct x
  | |- tallies _ _ _ (if ?x then _ else _) => destruct x
  | |- ∀ _, _ => intro
  end.

(** X15: each loop of the conversion that ends normally has printed its
    label first and prints last the number of entries it has converted: the
    count is the number of removals it made from the legacy category of the
    loop (removals of attached metadata, private keys and proofs are not
    counted). *)
Theorem conversion_reports_counts {L : Library} {World Wallet AskarKey : Type}
    (store : StoreOps (World := World) (AskarKey := AskarKey))
    (fuel : nat) (s : state (World := World)) :
  reports_count "Updating keys..." "Indy::Key"
    (convert_keys (Wallet := Wallet) store fuel s)
  ∧ reports_count "Updating master secret(s)..." "Indy::MasterSecret"
      (convert_master_secrets (Wallet := Wallet) store fuel s)
  ∧ reports_count "Updating DIDs..." "Indy::Did"
      (convert_dids (Wallet := Wallet) store fuel s)
  ∧ (∀ label legacy target,
       reports_count label legacy
         (copy_category (Wallet := Wallet) store label legacy target fuel s))
  ∧ reports_count "Updating stored credential definitions..."
      "Indy::CredentialDefinition"
      (convert_cred_defs (Wallet := Wallet) store fuel s)
  ∧ reports_count "Updating stored credentials..." "Indy::Credential"
      (convert_credentials (Wallet := Wallet) store fuel s).
Proof.
  repeat split; try (intros label legacy target).
  all: unfold convert_keys, convert_master_secrets, convert_dids, copy_category,
         convert_cred_defs, convert_credentials;
       apply reports_count_loop; intros a;
       unfold convert_master_secrets_batch, convert_credentials_batch,
         convert_credential,
         txn_fetch_all, txn_fetch, txn_remove, txn_insert, txn_insert_key, txn_commit;
       cbv zeta.
  all: repeat tallies_step.
Qed.

Lemma conversion_reports_counts_witness :
  ∃ t,
    events (copy_category (Wallet := string) (mem_store (λ _, []))
              "Updating stored schemas..." "Indy::Schema" "schema" 3
              (State (example_db [example_schema_entry "s-1"; example_schema_entry "s-2"])
                 (counting_tape 0)))
    = EvPrint "Updating stored schemas..." :: t
      ++ [EvPrint (" " +:+ pretty (count_removals "Indy::Schema" t) +:+ " updated"
                   +:+ newline)].
Proof.
  apply (proj1 (proj2 (proj2 (proj2
           (conversion_reports_counts (L := plain_toy_library) (Wallet := string)
              (mem_store (λ _, [])) 3
              (State (example_db [example_schema_entry "s-1";
                                  example_schema_entry "s-2"])
                 (counting_tape 0))))))
           "Updating stored schemas..." "Indy::Schema" "schema").
  vm_compute. reflexivity.
Defined.

(** ** The rows that the re-key loop writes *)

Section reopen_inv_facts.
Context {L : Library} {LC : LibraryContract L}.

Lemma encrypt_merged_opens_inv message key hmac_key g c g' :
  length key = CHACHAPOLY_KEY_LEN →
  encrypt_merged message key hmac_key g = (Ok c, g') →
  decrypt_merged c key false = Ok message.
Proof.
  intros Hk E.
  destruct (encrypt_merged_opens message key hmac_key g Hk) as (c' & g'' & E' & Hd).
  congruence.
Qed.

Lemma update_tag_opens_inv key t g t' g' :
  length (tnk key) = CHACHAPOLY_KEY_LEN →
  length (tvk key) = CHACHAPOLY_KEY_LEN →
  update_tag key t g = (Ok t', g') → tag_opens key t t'.
Proof.
  intros Hn Hv. destruct t as [[plain k] v].
  unfold update_tag, tag_opens, mbind, Rand_bind, mret, Rand_ret, fmap, Rand_fmap.
  destruct plain; simpl.
  - destruct (encrypt_merged k _ _ g) as [[k'|] g1] eqn:Ek; [|done].
    intros [= <- <-]. simpl. split; [done|]. split; [|done].
    by eapply encrypt_merged_opens_inv.
  - destruct v as [b|str].
    + destruct (encrypt_merged b _ _ g) as [[b'|] g1] eqn:Eb; [|done].
      destruct (encrypt_merged k _ _ g1) as [[k'|] g2] eqn:Ek; [|done].
      intros [= <- <-]. simpl. split; [done|]. split.
      * by eapply encrypt_merged_opens_inv.
      * exists b, b'. split; [done|]. split; [done|].
        by eapply encrypt_merged_opens_inv.
    + unfold encrypt_merged_not_bytes, rand_lift.
      destruct (bytes_truthy (Some (thk key))); [done|].
      unfold mbind, Rand_bind, os_urandom. done.
Qed.

Lemma update_item_opens_inv it key g u g' :
  length (ick key) = CHACHAPOLY_KEY_LEN →
  length (ink key) = CHACHAPOLY_KEY_LEN →
  length (tnk key) = CHACHAPOLY_KEY_LEN →
  length (tvk key) = CHACHAPOLY_KEY_LEN →
  update_item it key g = (Ok u, g') → item_opens key it u.
Proof.
  intros Hc Hn Htn Htv. unfold update_item, item_opens, mbind, Rand_bind.
  destruct (rand_mapM _ _ g) as [[tags|] g1] eqn:Et; [|done].
  destruct (encrypt_merged (item_type it) _ _ g1) as [[c|] g2] eqn:Ec; [|done].
  destruct (encrypt_merged (item_name it) _ _ g2) as [[n|] g3] eqn:En; [|done].
  destruct (encrypt_value _ _ _ _ g3) as [[v|] g4] eqn:Ev; [|done].
  unfold mret, Rand_ret. intros [= <- <-]. simpl.
  split; [done|]. split; [by eapply encrypt_merged_opens_inv|].
  split; [by eapply encrypt_merged_opens_inv|]. split.
  - unfold encrypt_value, mbind, Rand_bind, rand_lift in Ev.
    destruct (to_bytes_4_big (length (item_type it))) as [lt|] eqn:Elt; [|done].
    destruct (to_bytes_4_big (length (item_name it))) as [ln|] eqn:Eln; [|done].
    destruct (item_value it) as [value|].
    2:{ unfold encrypt_merged_not_bytes, mbind, Rand_bind, os_urandom, rand_lift in Ev.
        simpl in Ev. done. }
    exists value, lt, ln. split; [done|]. split; [done|]. split; [done|].
    unfold HMAC_digest, HMAC_update, HMAC_new in Ev. simpl in Ev.
    rewrite <- !app_assoc in Ev.
    eapply encrypt_merged_opens_inv; [|exact Ev]. apply hmac_digest_size.
  - apply rand_mapM_Forall2 in Et. eapply Forall2_impl; [exact Et|].
    intros t t' (ga & gb & Ht). by eapply update_tag_opens_inv.
Qed.

End reopen_inv_facts.

Section written_rows_facts.
Context `{L : Library} {World Wallet AskarKey : Type}.
Variable wallets : WalletOps (World := World) (Wallet := Wallet).
Local Abbreviation event := (event (Wallet := Wallet) (AskarKey := AskarKey)).
Local Abbreviation M := (M (World := World) (Wallet := Wallet) (AskarKey := AskarKey)).
Implicit Types (s : state (World := World)) (indy_key : gmap string bytes).

Lemma rekeyed_ids indy_key pk b64 (rows : list row) (upd : list enc_item) :
  Forall2 (λ row it, ∃ plain g g',
             decrypt_item row indy_key b64 = Ok plain
             ∧ update_item plain pk g = (Ok it, g'))
          rows upd →
  upd_id <$> upd = row_id <$> rows.
Proof.
  induction 1 as [|row it rows upd (plain & g & g' & Hd & Hu) _ IH]; [done|].
  rewrite !fmap_cons, IH. f_equal.
  apply update_item_id in Hu. apply decrypt_item_id in Hd. congruence.
Qed.

Lemma update_items_writes fuel wallet indy_key pk s t1 upd r t2 :
  events ((update_items wallets fuel wallet indy_key pk : M unit) s)
  = t1 ++ EvUpdateItems wallet upd r :: t2 →
  ∃ t0 rows,
    t1 = t0 ++ [EvFetchPendingItems wallet 1 (Ok rows)]
    ∧ rows ≠ []
    ∧ Forall2 (λ row it, ∃ plain g g',
                 decrypt_item row indy_key (wallet_is_pg wallets wallet) = Ok plain
                 ∧ update_item plain pk g = (Ok it, g'))
              rows upd.
Proof.
  unfold update_items. revert s t1. induction fuel as [|fuel IH]; intros s t1.
  { simpl. by destruct t1. }
  cbn [while_true]. rewrite bind_after.
  destruct (update_items_batch_cases (AskarKey := AskarKey) wallets wallet indy_key pk s)
    as [(e & w & _ & _ & Hev & Hres)|[(w & _ & _ & Hev & Hres)
       |[(rows' & w & e & _ & _ & _ & Hev & Hres)
       |(rows' & w & upd' & x & Hne & _ & Hall & _ & Hev & Hres)]]];
    rewrite Hres; simpl; rewrite ?Hev.
  - by destruct t1 as [|? [|? ?]].
  - by destruct t1 as [|? [|? ?]].
  - by destruct t1 as [|? [|? ?]].
  - assert (Hhere : ∀ u, [EvFetchPendingItems wallet 1 (Ok rows');
                          EvUpdateItems wallet upd' x] ++ u
                         = t1 ++ EvUpdateItems wallet upd r :: t2 →
                         (t1 = [EvFetchPendingItems wallet 1 (Ok rows')] ∧ upd' = upd)
                         ∨ ∃ t1', t1 = EvFetchPendingItems wallet 1 (Ok rows')
                                       :: EvUpdateItems wallet upd' x :: t1'
                                  ∧ u = t1' ++ EvUpdateItems wallet upd r :: t2).
    { intros u E. destruct t1 as [|e1 [|e2 t1']]; simpl in E; [done| |].
      - injection E as <- -> _ _. by left.
      - injection E as <- <- ->. right. by exists t1'. }
    destruct x as [[]|e]; simpl.
    + intros E. destruct (Hhere _ E) as [[-> ->]|(t1' & -> & E')].
      * by exists [], rows'.
      * destruct (IH _ _ E') as (t0 & rows & -> & Hrows & Hids).
        by exists (EvFetchPendingItems wallet 1 (Ok rows')
                     :: EvUpdateItems wallet upd' (Ok tt) :: t0), rows.
    + intros E. destruct (Hhere [] E) as [[-> ->]|(t1' & -> & E')].
      * by exists [], rows'.
      * by destruct t1'.
Qed.

End written_rows_facts.

(** X16: the re-key loop writes back exactly the rows it has just fetched:
    every call of [update_items] of the wallet comes right after a fetch
    that returned rows, and the items it is given have the ids of these
    rows, in the same order. When the category, name, tag-name and tag-value
    keys of the profile key are 32 bytes long, each of these items opens
    under the profile key to what [decrypt_item] gave for its row. *)
Theorem rekey_writes_fetched_rows {L : Library} {LC : LibraryContract L}
    {World Wallet AskarKey : Type}
    (wallets : WalletOps (World := World) (Wallet := Wallet))
    (fuel : nat) (wallet : Wallet) (indy_key : gmap string bytes) (pk : profile_key)
    (s : state (World := World)) t1 upd r t2 :
  events (update_items (AskarKey := AskarKey) wallets fuel wallet indy_key pk s)
  = t1 ++ EvUpdateItems wallet upd r :: t2 →
  ∃ t0 rows,
    t1 = t0 ++ [EvFetchPendingItems wallet 1 (Ok rows)]
    ∧ rows ≠ []
    ∧ upd_id <$> upd = row_id <$> rows
    ∧ (length (ick pk) = CHACHAPOLY_KEY_LEN →
       length (ink pk) = CHACHAPOLY_KEY_LEN →
       length (tnk pk) = CHACHAPOLY_KEY_LEN →
       length (tvk pk) = CHACHAPOLY_KEY_LEN →
       Forall2 (λ row u, ∃ it,
                  decrypt_item row indy_key (wallet_is_pg wallets wallet) = Ok it
                  ∧ item_opens pk it u)
               rows upd).
Proof.
  intros E.
  destruct (update_items_writes (AskarKey := AskarKey) wallets fuel wallet indy_key pk
              s t1 upd r t2 E) as (t0 & rows & Ht1 & Hrows & Hall).
  exists t0, rows. split; [done|]. split; [done|]. split.
  - by eapply rekeyed_ids.
  - intros Hc Hn Htn Htv. eapply Forall2_impl; [exact Hall|].
    intros row u (it & g & g' & Hd & Hu). exists it. split; [done|].
    by eapply update_item_opens_inv.
Qed.

Lemma rekey_writes_fetched_rows_witness :
  ∃ t1 upd r t2 t0 rows,
    events (update_items (L := plain_toy_library) (AskarKey := bytes) mem_wallets 3
              "alice" example_indy_key example_profile_key
              (State (example_wallet_db
                        [("alice", example_wallet [example_row 1; example_row 2])])
                 (counting_tape 0)))
    = t1 ++ EvUpdateItems "alice" upd r :: t2
    ∧ t1 = t0 ++ [EvFetchPendingItems "alice" 1 (Ok rows)]
    ∧ rows ≠ []
    ∧ upd_id <$> upd = row_id <$> rows
    ∧ Forall2 (λ row u, ∃ it,
                 decrypt_item (L := plain_toy_library) row example_indy_key false = Ok it
                 ∧ item_opens (L := plain_toy_library) example_profile_key it u)
              rows upd.
Proof.
  assert (E : ∃ t1 upd r t2,
             events (update_items (L := plain_toy_library) (AskarKey := bytes)
                       mem_wallets 3 "alice" example_indy_key example_profile_key
                       (State (example_wallet_db
                                 [("alice", example_wallet [example_row 1;
                                                            example_row 2])])
                          (counting_tape 0)))
             = t1 ++ EvUpdateItems "alice" upd r :: t2).
  { eexists [_], _, _, _. vm_compute. reflexivity. }
  destruct E as (t1 & upd & r & t2 & E).
  destruct (rekey_writes_fetched_rows (L := plain_toy_library)
              (LC := toy_library_contract _ _) (AskarKey := bytes)
              mem_wallets 3 "alice" example_indy_key example_profile_key _
              t1 upd r t2 E) as (t0 & rows & H1 & H2 & H3 & H4).
  exists t1, upd, r, t2, t0, rows. repeat split; try done.
  apply H4; reflexivity.
Defined.

(** ** The configured salt and the sealed profile keys *)

Section sealing_facts.
Context `{L : Library} {World Wallet AskarKey : Type}.
Variable conn : ConnOps (World := World) (Wallet := Wallet).
Variable wallets : WalletOps (World := World) (Wallet := Wallet).
Local Abbreviation event := (event (Wallet := Wallet) (AskarKey := AskarKey)).
Local Abbreviation M := (M (World := World) (Wallet := Wallet) (AskarKey := AskarKey)).
Local Abbreviation run := (run (World := World) (Wallet := Wallet) (AskarKey := AskarKey)).
Implicit Types (s : state (World := World)) (t u : list event).

Lemma emits_bind_rand {A B} (P : event → Prop) (x : Rand A) (f : A → M B) :
  (∀ a g g', x g = (Ok a, g') → emits P (f a)) → emits P (rand x ≫= f).
Proof.
  intros Hf s. rewrite bind_rand. destruct (x (rng s)) as [[a|e] g'] eqn:Hx.
  - by eapply Hf.
  - constructor.
Qed.

Lemma encrypt_merged_sealed message master g enc g' :
  encrypt_merged message master None g = (Ok enc, g') →
  ∃ nonce ciphertext,
    enc = nonce ++ ciphertext
    ∧ length nonce = CHACHAPOLY_NONCE_LEN
    ∧ aead_encrypt message nonce master = Ok ciphertext.
Proof.
  rewrite encrypt_merged_random by done. cbv zeta.
  set (nonce := map _ _).
  destruct (aead_encrypt message nonce master) as [c|] eqn:Hc; [|done].
  intros [= <- _]. exists nonce, c. split; [done|]. split; [|done].
  subst nonce. by rewrite length_map, length_seq.
Qed.

Lemma mwst_init_profile_seals wallet name base_indy_key indy_key master salt :
  base_indy_key !! "master" = Some master →
  emits (λ e, configures_salt salt e ∧ seals_under master e)
    (mwst_init_profile wallets wallet name base_indy_key indy_key : M _).
Proof.
  intros Hm. unfold mwst_init_profile, keys_getitem. rewrite Hm.
  apply emits_bind_lift. intros pk _. apply emits_bind_lift. intros ? [= <-].
  apply emits_bind_rand. intros enc g g' Henc.
  apply emits_bind; [|intros; apply emits_ret].
  apply emits_call. intros r. split; [done|]. simpl.
  destruct (encrypt_merged_sealed _ _ _ _ _ Henc) as (nonce & c & -> & Hn & Hc).
  by exists nonce, c, pk.
Qed.

Lemma fetch_indy_key_quiet wallet wallet_key :
  emits (λ e, ¬ is_config_or_profile e)
    (fetch_indy_key wallets wallet wallet_key : M _).
Proof. unfold fetch_indy_key. solve_emits. simpl. tauto. Qed.

Lemma update_items_quiet fuel wallet indy_key pk P :
  (∀ e, is_rekey_call wallet e → P e) →
  emits P (update_items wallets fuel wallet indy_key pk : M unit).
Proof. intros HP. eapply emits_impl; [exact HP|apply update_items_calls]. Qed.

Lemma create_config_configures name indy_key salt master :
  indy_key !! "salt" = Some salt →
  emits (λ e, configures_salt salt e ∧ seals_under master e)
    (create_config conn name indy_key : M unit).
Proof.
  intros Hs. unfold create_config, keys_getitem. rewrite Hs.
  apply emits_bind_lift. intros ? [= <-]. apply emits_call. by intros r.
Qed.

(** What [fetch_indy_key] gives when it returns keys: its calls are none of
    a configuration or a profile key, and the keys hold a salt and the
    master key derived from the wallet key and that salt. *)
Lemma fetch_indy_key_derives wallet wallet_key s keys :
  result ((fetch_indy_key wallets wallet wallet_key : M _) s) = Some (Ok keys) →
  ∃ salt password master,
    encode_ascii wallet_key = Ok password
    ∧ argon2i_kdf_moderate CHACHAPOLY_KEY_LEN password salt = Ok master
    ∧ keys !! "salt" = Some salt
    ∧ keys !! "master" = Some master.
Proof.
  intros H.
  destruct (fetch_indy_key_inv (AskarKey := AskarKey) wallets wallet wallet_key s keys H)
    as (mj & m & ke & salt & pw & mk & mpk & lst & _ & _ & _ & _ & Hpw & Hkdf & _ & _
        & Hm & Hs & _).
  by exists (take 16 salt), pw, mk.
Qed.

Lemma config_opens_profiles_bind {A B} wallet_key (m : M A) (f : A → M B) s :
  emits (λ e, ¬ is_config_or_profile e) m →
  (∀ a, result (m s) = Some (Ok a) →
        config_opens_profiles wallet_key (events (f a (final (m s))))) →
  config_opens_profiles wallet_key (events ((m ≫= f) s)).
Proof.
  intros Hm Hf. rewrite bind_run. specialize (Hm s).
  destruct (result (m s)) as [[a|e]|]; simpl; [|by left..].
  destruct (Hf a eq_refl) as [Hq|(salt & pw & master & Hpw & Hkdf & Hall)].
  - left. by apply Forall_app.
  - right. exists salt, pw, master. split; [done|]. split; [done|].
    apply Forall_app. split; [|done].
    eapply Forall_impl; [exact Hm|]. intros e He. by destruct e.
Qed.

Lemma dbpw_rekey_sealed fuel self wallet s :
  config_opens_profiles (dbpw_wallet_key self)
    (events ((dbpw_rekey conn wallets fuel self wallet : M unit) s)).
Proof.
  unfold dbpw_rekey. apply config_opens_profiles_bind.
  { solve_emits. simpl. tauto. }
  intros _ _. apply config_opens_profiles_bind; [apply fetch_indy_key_quiet|].
  intros keys Hkeys.
  destruct (fetch_indy_key_derives _ _ _ _ Hkeys) as (salt & pw & master & Hpw & Hkdf
                                                      & Hs & Hm).
  right. exists salt, pw, master. split; [done|]. split; [done|].
  match goal with
  | |- Forall ?P (events (?m ?s')) => assert (He : emits P m); [|apply He]
  end.
  apply emits_bind; [by apply create_config_configures|]. intros _.
  apply emits_bind; [by apply (mwst_init_profile_seals _ _ keys keys)|].
  intros pk. apply update_items_quiet. by intros [].
Qed.

Lemma mwst_rekey_sealed fuel self s :
  config_opens_profiles (base_wallet_key self)
    (events ((mwst_rekey conn wallets fuel self : M unit) s)).
Proof.
  unfold mwst_rekey. apply config_opens_profiles_bind.
  { solve_emits. simpl. tauto. }
  intros _ _. apply config_opens_profiles_bind.
  { solve_emits. simpl. tauto. }
  intros base_wallet _. apply config_opens_profiles_bind; [apply fetch_indy_key_quiet|].
  intros keys Hkeys.
  destruct (fetch_indy_key_derives _ _ _ _ Hkeys) as (salt & pw & master & Hpw & Hkdf
                                                      & Hs & Hm).
  right. exists salt, pw, master. split; [done|]. split; [done|].
  match goal with
  | |- Forall ?P (events (?m ?s')) => assert (He : emits P m); [|apply He]
  end.
  apply emits_bind; [by apply create_config_configures|]. intros _.
  apply emits_for_each. intros [wallet_name wallet_key] [].
  unfold mwst_rekey_wallet.
  apply emits_bind; [apply emits_call; by intros r|]. intros wallet.
  apply emits_bind.
  { eapply emits_impl; [|apply fetch_indy_key_quiet]. intros e He. by destruct e. }
  intros indy_key.
  apply emits_bind; [by apply mwst_init_profile_seals|].
  intros pk. apply update_items_quiet. by intros [].
Qed.

End sealing_facts.

(** X17: the salt that a run puts in the configuration of the Askar store
    is the salt from which the master key that seals the profile keys was
    derived. In the re-key steps of [DbpwStrategy.run], and of
    [MwstAsProfilesStrategy.run] for the base wallet, either no
    configuration is created and no profile key inserted, or there is a
    salt such that the configuration's pass key is
    ["kdf:argon2i:13:mod?salt="] followed by that salt in hexadecimal and
    every inserted profile key is sealed, with a 12-byte nonce, under the
    32-byte Argon2i key derived from the wallet key (the key of the base
    wallet) and that salt. *)
Theorem configured_salt_opens_profiles {L : Library} {World Wallet AskarKey : Type}
    (conn : ConnOps (World := World) (Wallet := Wallet))
    (wallets : WalletOps (World := World) (Wallet := Wallet))
    (fuel : nat) (s : state (World := World)) :
  (∀ self wallet,
     config_opens_profiles (dbpw_wallet_key self)
       (events (dbpw_rekey (AskarKey := AskarKey) conn wallets fuel self wallet s)))
  ∧ (∀ self,
       config_opens_profiles (base_wallet_key self)
         (events (mwst_rekey (AskarKey := AskarKey) conn wallets fuel self s))).
Proof.
  split; intros self; [intros wallet; apply dbpw_rekey_sealed|apply mwst_rekey_sealed].
Qed.

(** ** Converting a store that holds no legacy entry *)

Section rerun_facts.
Context `{L : Library} {World Wallet AskarKey : Type}.
Variable store : StoreOps (World := World) (AskarKey := AskarKey).
Local Abbreviation event := (event (Wallet := Wallet) (AskarKey := AskarKey)).
Local Abbreviation M := (M (World := World) (Wallet := Wallet) (AskarKey := AskarKey)).
Implicit Types (s : state (World := World)).

Lemma idle_on_empty_bind {A B} (m : M A) (f : A → M B) :
  idle_on_empty m → (∀ a, idle_on_empty (f a)) → idle_on_empty (m ≫= f).
Proof.
  intros Hm Hf s. rewrite bind_run. specialize (Hm s).
  destruct (result (m s)) as [[a|e]|]; simpl; try done.
  rewrite !Forall_app. intros [H1 H2]. split; [by apply Hm|by apply Hf].
Qed.

Lemma idle_on_empty_emits {A} (m : M A) :
  emits (λ e, ¬ is_store_write e) m → idle_on_empty m.
Proof. intros Hm s _. apply Hm. Qed.

Lemma idle_on_empty_fetch_all {B} c l op (f : list entry → M B) :
  idle_on_empty (f []) → idle_on_empty (call (EvFetchAll c l) op ≫= f).
Proof.
  intros Hf s. rewrite bind_call. destruct (op (world s)) as [[rows|e] w]; simpl.
  - intros Hall. apply Forall_cons in Hall as [-> Hall].
    constructor; [tauto|]. by apply Hf.
  - intros _. constructor; [simpl; tauto|constructor].
Qed.

Lemma idle_on_empty_while {A} fuel (body : A → M (bool * A)) a :
  (∀ a, idle_on_empty (body a)) → idle_on_empty (while_true fuel body a).
Proof.
  intros Hb. revert a. induction fuel as [|fuel IH]; intros a.
  - intros s _. constructor.
  - cbn [while_true]. apply idle_on_empty_bind; [done|].
    intros [[] a']; [apply IH|]. intros s _. constructor.
Qed.

Lemma idle_on_empty_transaction {A} (body : M A) :
  idle_on_empty body → idle_on_empty (transaction store body).
Proof.
  intros Hb. unfold transaction. apply idle_on_empty_bind.
  { apply idle_on_empty_emits, emits_call. intros r. simpl. tauto. }
  intros _ s. unfold try_finally. specialize (Hb s).
  destruct (result (body s)); [|done]. simpl.
  rewrite !Forall_app. intros [H1 _]. split; [by apply Hb|].
  pose proof (emits_call (AskarKey := AskarKey) (λ e : event, ¬ is_store_write e)
                EvTransactionExit (askar_transaction_exit store)) as He.
  apply He. intros r. simpl. tauto.
Qed.

End rerun_facts.

Ltac idle_step :=
  match goal with
  | |- idle_on_empty (call (EvFetchAll _ _) _ ≫= _) => apply idle_on_empty_fetch_all
  | |- idle_on_empty (transaction _ _) => apply idle_on_empty_transaction
  | |- idle_on_empty (while_true _ _ _) => apply idle_on_empty_while
  | |- idle_on_empty (_ ≫= _) => apply idle_on_empty_bind
  | |- idle_on_empty _ => apply idle_on_empty_emits; solve_emits; simpl; tauto
  | |- ∀ _, _ => intro
  end.

(** X18: on a store in which no fetch of a whole legacy category finds an
    entry, the conversion changes nothing: it removes nothing, inserts no
    entry and no key, and commits nothing. *)
Theorem conversion_of_nothing {L : Library} {World Wallet AskarKey : Type}
    (store : StoreOps (World := World) (AskarKey := AskarKey))
    (fuel : nat) (uri wallet_key : string) (profile : option string)
    (s : state (World := World)) :
  Forall finds_nothing
    (events (convert_items_to_askar (Wallet := Wallet) store fuel uri wallet_key
               profile s)) →
  Forall (λ e, ¬ is_store_write e)
    (events (convert_items_to_askar (Wallet := Wallet) store fuel uri wallet_key
               profile s)).
Proof.
  revert s. change (idle_on_empty (convert_items_to_askar (Wallet := Wallet) store
                                     fuel uri wallet_key profile)).
  unfold convert_items_to_askar, convert_keys, convert_master_secrets,
    convert_master_secrets_batch, convert_dids, convert_schemas, convert_cred_defs,
    convert_rev_reg_defs, convert_rev_reg_keys, convert_rev_reg_states,
    convert_rev_reg_info, convert_credentials, convert_credentials_batch,
    copy_category, print_updated, txn_fetch_all.
  repeat idle_step.
Qed.

Lemma conversion_of_nothing_witness :
  Forall (λ e, ¬ is_store_write e)
    (events (convert_items_to_askar (L := plain_toy_library) (Wallet := string)
               (mem_store (λ _, [])) 1 "sqlite://wallet.db" "" None
               (State (example_db [Entry "schema" "s1" [x7b; x7d] ∅])
                  (counting_tape 0)))).
Proof.
  apply conversion_of_nothing. vm_compute. repeat constructor.
Defined.

(** ** The order of the steps of a run *)

Section order_facts.
Context `{L : Library} {World Wallet AskarKey : Type}.
Variable conn : ConnOps (World := World) (Wallet := Wallet).
Variable wallets : WalletOps (World := World) (Wallet := Wallet).
Variable store : StoreOps (World := World) (AskarKey := AskarKey).
Local Abbreviation event := (event (Wallet := Wallet) (AskarKey := AskarKey)).
Local Abbreviation M := (M (World := World) (Wallet := Wallet) (AskarKey := AskarKey)).
Implicit Types (s : state (World := World)) (step : event → nat).

Lemma steps_in_order_app step lo mid hi (t1 t2 : list event) :
  steps_in_order step t1 → Forall (λ e, lo ≤ step e ≤ mid) t1 →
  steps_in_order step t2 → Forall (λ e, mid ≤ step e ≤ hi) t2 →
  steps_in_order step (t1 ++ t2).
Proof.
  unfold steps_in_order. intros S1 F1 S2 F2. rewrite fmap_app.
  apply StronglySorted_app_2; [|done..].
  intros n1 n2 [e1 [-> H1]]%list_elem_of_fmap [e2 [-> H2]]%list_elem_of_fmap.
  rewrite Forall_forall in F1, F2. specialize (F1 _ H1). specialize (F2 _ H2). lia.
Qed.

Lemma in_order_bind step lo mid hi {A B} (m : M A) (f : A → M B) :
  lo ≤ mid → mid ≤ hi →
  in_order step lo mid m → (∀ a, in_order step mid hi (f a)) →
  in_order step lo hi (m ≫= f).
Proof.
  intros Hlo Hhi Hm Hf s. rewrite bind_run. destruct (Hm s) as [S1 F1].
  assert (Forall (λ e, lo ≤ step e ≤ hi) (events (m s))) as F1'.
  { eapply Forall_impl; [exact F1|]. simpl. lia. }
  destruct (result (m s)) as [[a|e]|]; simpl; try done.
  destruct (Hf a (final (m s))) as [S2 F2]. split.
  - exact (steps_in_order_app step lo mid hi _ _ S1 F1 S2 F2).
  - apply Forall_app. split; [done|]. eapply Forall_impl; [exact F2|]. simpl. lia.
Qed.

Lemma in_order_try_finally step lo mid hi {A} (body : M A) (cleanup : M unit) :
  lo ≤ mid → mid ≤ hi →
  in_order step lo mid body → in_order step mid hi cleanup →
  in_order step lo hi (try_finally body cleanup).
Proof.
  intros Hlo Hhi Hb Hc s. unfold try_finally. destruct (Hb s) as [S1 F1].
  assert (Forall (λ e, lo ≤ step e ≤ hi) (events (body s))) as F1'.
  { eapply Forall_impl; [exact F1|]. simpl. lia. }
  destruct (result (body s)); [|done]. simpl.
  destruct (Hc (final (body s))) as [S2 F2]. split.
  - exact (steps_in_order_app step lo mid hi _ _ S1 F1 S2 F2).
  - apply Forall_app. split; [done|]. eapply Forall_impl; [exact F2|]. simpl. lia.
Qed.

(** The calls of one step are in order. *)
Lemma in_order_emits step k lo hi {A} (m : M A) :
  lo ≤ k → k ≤ hi → emits (λ e, step e = k) m → in_order step lo hi m.
Proof.
  intros Hlo Hhi Hm s. specialize (Hm s). split.
  - unfold steps_in_order. induction Hm as [|e t He Ht IH]; simpl; constructor.
    + exact IH.
    + apply Forall_fmap. eapply Forall_impl; [exact Ht|]. simpl. intros e'. lia.
  - eapply Forall_impl; [exact Hm|]. simpl. lia.
Qed.

Lemma dbpw_run_in_order fuel self :
  in_order dbpw_step 0 9 (dbpw_run conn wallets store fuel self).
Proof.
  unfold dbpw_run, dbpw_open, dbpw_rekey.
  apply (in_order_bind _ 0 1 9); [lia..| |intros wallet].
  { apply (in_order_bind _ 0 0 1); [lia..| |intros _];
      [apply (in_order_emits _ 0)|apply (in_order_emits _ 1)]; try lia; by solve_emits. }
  apply (in_order_bind _ 1 8 9); [lia..| |intros _].
  - apply (in_order_try_finally _ 1 7 8); [lia..| |].
    + apply (in_order_bind _ 1 6 7); [lia..| |intros _].
      * apply (in_order_bind _ 1 2 6); [lia..| |intros _].
        { apply (in_order_emits _ 2); [lia..|]. by solve_emits. }
        apply (in_order_bind _ 2 3 6); [lia..| |intros indy_key].
        { apply (in_order_emits _ 3); [lia..|]. unfold fetch_indy_key. by solve_emits. }
        apply (in_order_bind _ 3 4 6); [lia..| |intros _].
        { apply (in_order_emits _ 4); [lia..|]. unfold create_config. by solve_emits. }
        apply (in_order_bind _ 4 5 6); [lia..| |intros profile_key].
        { apply (in_order_emits _ 5); [lia..|]. unfold init_profile. by solve_emits. }
        apply (in_order_emits _ 6); [lia..|].
        unfold update_items, update_items_batch, rekey_row. by solve_emits.
      * apply (in_order_emits _ 7); [lia..|]. by solve_emits.
    + apply (in_order_emits _ 8); [lia..|]. by solve_emits.
  - apply (in_order_emits _ 9); [lia..|]. apply emits_bind.
    { intros s. constructor. }
    intros uri.
    unfold convert_items_to_askar, convert_keys, convert_master_secrets,
      convert_master_secrets_batch, convert_dids, convert_schemas, convert_cred_defs,
      convert_rev_reg_defs, convert_rev_reg_keys, convert_rev_reg_states,
      convert_rev_reg_info, convert_credentials, convert_credentials_batch,
      convert_credential, copy_category, print_updated, transaction,
      txn_fetch_all, txn_fetch, txn_remove, txn_insert, txn_insert_key, txn_commit.
    by solve_emits.
Qed.

Lemma mwst_run_in_order fuel self :
  in_order mwst_step 0 5 (mwst_run conn wallets store fuel self).
Proof.
  unfold mwst_run, mwst_rekey, mwst_rekey_wallet.
  apply (in_order_bind _ 0 0 5); [lia..| |intros _].
  { apply (in_order_emits _ 0); [lia..|]. by solve_emits. }
  apply (in_order_bind _ 0 4 5); [lia..| |intros _].
  - apply (in_order_try_finally _ 0 3 4); [lia..| |].
    + apply (in_order_bind _ 0 2 3); [lia..| |intros _].
      * apply (in_order_bind _ 0 1 2); [lia..| |intros _].
        { apply (in_order_emits _ 1); [lia..|]. by solve_emits. }
        apply (in_order_emits _ 2); [lia..|].
        unfold fetch_indy_key, create_config, mwst_init_profile, update_items,
          update_items_batch, rekey_row.
        by solve_emits.
      * apply (in_order_emits _ 3); [lia..|]. by solve_emits.
    + apply (in_order_emits _ 4); [lia..|]. by solve_emits.
  - apply (in_order_emits _ 5); [lia..|]. apply emits_for_each.
    intros [wallet_name wallet_key] []. apply emits_bind.
    { intros s. constructor. }
    intros uri.
    unfold convert_items_to_askar, convert_keys, convert_master_secrets,
      convert_master_secrets_batch, convert_dids, convert_schemas, convert_cred_defs,
      convert_rev_reg_defs, convert_rev_reg_keys, convert_rev_reg_states,
      convert_rev_reg_info, convert_credentials, convert_credentials_batch,
      convert_credential, copy_category, print_updated, transaction,
      txn_fetch_all, txn_fetch, txn_remove, txn_insert, txn_insert_key, txn_commit.
    by solve_emits.
Qed.

End order_facts.

(** X19: the calls of a run are made in the order of the steps of the
    method, whatever the collaborators answer and wherever the run stops. For
    [DbpwStrategy.run]: connect, get the wallet, [pre_upgrade], read the
    metadata, create the configuration, insert the profile, re-key the items,
    [finish_upgrade], close, and then the conversion. For
    [MwstAsProfilesStrategy.run]: connect, [pre_upgrade], the reading and
    re-keying of the wallets, [finish_upgrade], close, and then the
    conversions. *)
Theorem runs_keep_the_order_of_steps {L : Library} {World Wallet AskarKey : Type}
    (conn : ConnOps (World := World) (Wallet := Wallet))
    (wallets : WalletOps (World := World) (Wallet := Wallet))
    (store : StoreOps (World := World) (AskarKey := AskarKey))
    (fuel : nat) (s : state (World := World)) :
  (∀ self, steps_in_order dbpw_step (events (dbpw_run conn wallets store fuel self s)))
  ∧ (∀ self, steps_in_order mwst_step (events (mwst_run conn wallets store fuel self s))).
Proof.
  split; intros self.
  - apply (dbpw_run_in_order conn wallets store fuel self s).
  - apply (mwst_run_in_order conn wallets store fuel self s).
Qed.

(** ** The metadata of the converted DIDs and keys *)

Section metadata_facts.
Context `{L : Library} {World Wallet AskarKey : Type}.
Variable store : StoreOps (World := World) (AskarKey := AskarKey).
Local Abbreviation event := (event (Wallet := Wallet) (AskarKey := AskarKey)).
Local Abbreviation M := (M (World := World) (Wallet := Wallet) (AskarKey := AskarKey)).
Implicit Types (s : state (World := World)) (t u known : list event).

Lemma metadata_fetched_mono known known' (e : event) :
  (∀ x, x ∈ known → x ∈ known') →
  metadata_fetched known e → metadata_fetched known' e.
Proof.
  intros Hsub. destruct e; simpl; try done.
  - intros H Hc. destruct (H Hc) as (found & did & verkey & metadata & Hin & Hrest).
    exists found, did, verkey, metadata. split; [by apply Hsub|done].
  - intros (found & Hin & Hrest). exists found. split; [by apply Hsub|done].
Qed.

Lemma metadata_from_fetches_nil known : metadata_from_fetches known ([] : list event).
Proof. intros t1 e t2 E. by destruct t1. Qed.

Lemma metadata_from_fetches_app known t u :
  metadata_from_fetches known t → metadata_from_fetches (known ++ t) u →
  metadata_from_fetches known (t ++ u).
Proof.
  intros Ht Hu t1 e t2 E.
  apply app_eq_app in E as [l [[-> E]|[-> ->]]].
  - destruct l as [|e' l]; simpl in E.
    + apply (metadata_fetched_mono ((known ++ t1 ++ []) ++ [])).
      { intros x. by rewrite !app_nil_r. }
      apply (Hu [] e t2). simpl. congruence.
    + injection E as <- ->. by apply (Ht t1 e l).
  - rewrite app_assoc. by apply (Hu l e t2).
Qed.

Lemma metadata_from_fetches_mono known known' t :
  (∀ x, x ∈ known → x ∈ known') →
  metadata_from_fetches known t → metadata_from_fetches known' t.
Proof.
  intros Hsub Ht t1 e t2 E. apply (metadata_fetched_mono (known ++ t1)); [|by apply (Ht t1 e t2)].
  intros x. rewrite !elem_of_app. intros [?|?]; [left; by apply Hsub|by right].
Qed.

Lemma metadata_from_fetches_quiet known t :
  Forall (λ e, ¬ is_metadata_record e) t → metadata_from_fetches known t.
Proof.
  intros Ht t1 e t2 ->. apply Forall_app in Ht as [_ Ht]. apply Forall_inv in Ht.
  destruct e; simpl in *; done.
Qed.

Lemma keeps_metadata_bind_run {A B} known (m : M A) (f : A → M B) :
  keeps_metadata known m →
  (∀ a s, result (m s) = Some (Ok a) → keeps_metadata (known ++ events (m s)) (f a)) →
  keeps_metadata known (m ≫= f).
Proof.
  intros Hm Hf s. rewrite bind_run. specialize (Hm s).
  destruct (result (m s)) as [[a|e]|] eqn:Hres; simpl; try done.
  apply metadata_from_fetches_app; [done|]. by apply Hf.
Qed.

Lemma keeps_metadata_mono {A} known known' (m : M A) :
  (∀ x, x ∈ known → x ∈ known') → keeps_metadata known m → keeps_metadata known' m.
Proof. intros Hsub Hm s. by apply (metadata_from_fetches_mono known). Qed.

Lemma keeps_metadata_bind {A B} known (m : M A) (f : A → M B) :
  keeps_metadata known m → (∀ a, keeps_metadata known (f a)) →
  keeps_metadata known (m ≫= f).
Proof.
  intros Hm Hf. apply keeps_metadata_bind_run; [done|]. intros a s _.
  apply (keeps_metadata_mono known); [|done]. intros x Hx. apply elem_of_app. by left.
Qed.

Lemma keeps_metadata_emits {A} known (m : M A) :
  emits (λ e, ¬ is_metadata_record e) m → keeps_metadata known m.
Proof. intros Hm s. apply metadata_from_fetches_quiet, Hm. Qed.

(** What follows a computation that inserts no record may rely on its
    result. *)
Lemma keeps_metadata_bind_result {A B} known (m : M A) (f : A → M B) :
  emits (λ e, ¬ is_metadata_record e) m →
  (∀ a, (∃ s, result (m s) = Some (Ok a)) → keeps_metadata known (f a)) →
  keeps_metadata known (m ≫= f).
Proof.
  intros Hm Hf. apply keeps_metadata_bind_run; [by apply keeps_metadata_emits|].
  intros a s Hres. apply (keeps_metadata_mono known).
  { intros x Hx. apply elem_of_app. by left. }
  apply Hf. by exists s.
Qed.

Lemma keeps_metadata_bind_lift {A B} known (x : exc A) (f : A → M B) :
  (∀ a, x = Ok a → keeps_metadata known (f a)) → keeps_metadata known (lift x ≫= f).
Proof.
  intros Hf s. rewrite bind_lift. destruct x as [a|e]; [by apply Hf|].
  apply metadata_from_fetches_nil.
Qed.

(** What follows a fetch may rely on what the fetch found. *)
Lemma keeps_metadata_fetch {B} known c n op (f : option entry → M B) :
  (∀ found, keeps_metadata (EvFetch c n (Ok found) :: known) (f found)) →
  keeps_metadata known (call (EvFetch c n) op ≫= f).
Proof.
  intros Hf. apply keeps_metadata_bind_run.
  { apply keeps_metadata_emits, emits_call. intros r. simpl. tauto. }
  intros found s Hres. rewrite call_run in *. simpl in *. injection Hres as Hres.
  rewrite Hres. apply (keeps_metadata_mono (EvFetch c n (Ok found) :: known)); [|done].
  intros x. rewrite elem_of_cons, elem_of_app, elem_of_cons, elem_of_nil. tauto.
Qed.

Lemma keeps_metadata_call {R} known (ev : exc R → event) op :
  (∀ r, metadata_fetched known (ev r)) → keeps_metadata known (call ev op : M R).
Proof.
  intros Hev s. rewrite call_run. simpl. intros t1 e t2 E.
  destruct t1 as [|e1 [|e2 t1]]; [|done..]. injection E as <- _.
  rewrite app_nil_r. apply Hev.
Qed.

Lemma keeps_metadata_while {A} known fuel (body : A → M (bool * A)) a :
  (∀ a, keeps_metadata known (body a)) → keeps_metadata known (while_true fuel body a).
Proof.
  intros Hb. revert a. induction fuel as [|fuel IH]; intros a.
  - intros s. apply metadata_from_fetches_nil.
  - cbn [while_true]. apply keeps_metadata_bind; [done|].
    intros [[] a']; [apply IH|]. intros s. apply metadata_from_fetches_nil.
Qed.

Lemma keeps_metadata_for_each {A X} known (l : list X) (body : X → A → M A) a :
  (∀ x a, keeps_metadata known (body x a)) → keeps_metadata known (for_each l body a).
Proof.
  intros Hb. revert a. induction l as [|x l IH]; intros a.
  - intros s. apply metadata_from_fetches_nil.
  - cbn [for_each]. apply keeps_metadata_bind; [done|]. intros a'. apply IH.
Qed.

Lemma keeps_metadata_try_finally {A} known (body : M A) (cleanup : M unit) :
  keeps_metadata known body → keeps_metadata known cleanup →
  keeps_metadata known (try_finally body cleanup).
Proof.
  intros Hb Hc s. unfold try_finally. specialize (Hb s).
  destruct (result (body s)); [|done]. simpl.
  apply metadata_from_fetches_app; [done|].
  apply (metadata_from_fetches_mono known); [|apply Hc].
  intros x Hx. apply elem_of_app. by left.
Qed.

(** The metadata that the loop over the keys works out. *)
Lemma key_metadata_result (found : option entry) (metadata : option json) :
  (∃ s, result ((match found with
                 | Some meta =>
                     call (EvRemove "Indy::KeyMetadata" (entry_name meta))
                          (askar_remove store "Indy::KeyMetadata" (entry_name meta));;
                     meta ← lift (json_loads_bytes (entry_value meta)
                                    ≫= λ j, json_getitem j "value");
                     mret (Some meta)
                 | None => mret None
                 end : M (option json)) s) = Some (Ok metadata)) →
  key_metadata_of found metadata.
Proof.
  intros [s Hres]. destruct found as [meta|]; simpl.
  - rewrite bind_call in Hres. destruct (askar_remove _ _ _ _) as [[[]|e] w]; [|done].
    unfold after in Hres. cbn [result] in Hres. rewrite bind_lift in Hres.
    destruct (json_loads_bytes (entry_value meta)) as [j|e] eqn:Ej; [|done].
    simpl in Hres. destruct (json_getitem j "value") as [value|e] eqn:Ev; [|done].
    injection Hres as <-. by exists j, value.
  - by injection Hres as <-.
Qed.

(** The metadata that the loop over the DIDs works out. *)
Lemma did_metadata_result (found : option entry) (metadata : json) :
  (∃ s, result ((match found with
                 | Some meta =>
                     call (EvRemove "Indy::DidMetadata" (entry_name meta))
                          (askar_remove store "Indy::DidMetadata" (entry_name meta));;
                     meta ← lift (json_loads_bytes (entry_value meta)
                                    ≫= λ j, json_getitem j "value");
                     lift (match meta with
                           | JStr text =>
                               match json_loads text with
                               | Ok decoded => Ok decoded
                               | Raise JSONDecodeError => Ok meta
                               | Raise e => Raise e
                               end
                           | _ => Raise TypeError
                           end)
                 | None => mret JNull
                 end : M json) s) = Some (Ok metadata)) →
  did_metadata_of found metadata.
Proof.
  intros [s Hres]. destruct found as [meta|]; simpl.
  - rewrite bind_call in Hres. destruct (askar_remove _ _ _ _) as [[[]|e] w]; [|done].
    unfold after in Hres. cbn [result] in Hres. rewrite bind_lift in Hres.
    destruct (json_loads_bytes (entry_value meta)) as [j|e] eqn:Ej; [|done].
    simpl in Hres. destruct (json_getitem j "value") as [value|e] eqn:Ev; [|done].
    destruct value as [| | | |text| |]; try done.
    exists j, text. split; [done|]. split; [done|].
    simpl in Hres. destruct (json_loads text) as [decoded|e] eqn:Et.
    + injection Hres as <-. by left.
    + destruct e; try done. injection Hres as <-. by right.
  - by injection Hres as <-.
Qed.

End metadata_facts.

(** Proves that a computation takes the metadata of its records from
    fetches. *)
Ltac keeps_metadata_step :=
  match goal with
  | |- keeps_metadata _ (call (EvFetch _ _) _ ≫= _) => apply keeps_metadata_fetch
  | |- keeps_metadata _ (lift _ ≫= _) => apply keeps_metadata_bind_lift
  | |- keeps_metadata _ ((match _ with Some _ => _ | None => _ end) ≫= _) =>
      let H := fresh "Hres" in
      apply keeps_metadata_bind_result;
      [solve_emits; simpl; first [tauto|done]
      |intros ? H;
       first [apply key_metadata_result in H | apply did_metadata_result in H | clear H]]
  | |- keeps_metadata _ (call (EvInsertKey _ _ _) _) =>
      apply keeps_metadata_call; intros ?; simpl;
      eexists; split; [solve_elem_of|eassumption]
  | |- keeps_metadata _ (call (EvInsert "did" _ _ _) _) =>
      apply keeps_metadata_call; intros ? _;
      match goal with
      | Hv : json_getitem ?info "did" ≫= _ = Ok _ |- _ =>
          apply exc_bind_inv in Hv as (? & _ & Hv);
          apply exc_bind_inv in Hv as (? & _ & Hv);
          injection Hv as <-
      end;
      do 4 eexists; split; [solve_elem_of|split; [eassumption|reflexivity]]
  | |- keeps_metadata _ (_ ≫= _) => apply keeps_metadata_bind
  | |- keeps_metadata _ (while_true _ _ _) => apply keeps_metadata_while
  | |- keeps_metadata _ (for_each _ _ _) => apply keeps_metadata_for_each
  | |- keeps_metadata _ (try_finally _ _) => apply keeps_metadata_try_finally
  | |- keeps_metadata _ (match ?x with _ => _ end) => destruct x
  | |- keeps_metadata _ (if ?x then _ else _) => destruct x
  | |- keeps_metadata _ _ =>
      apply keeps_metadata_emits; solve_emits; simpl; first [tauto|done]
  | |- ∀ _, _ => intro
  end.

(** X20: the metadata of a converted DID or key comes from the fetch of
    its metadata entry. Every [did] record that the conversion inserts is
    preceded in the run by a fetch of the [Indy::DidMetadata] entry of the
    same name; its ["metadata"] is null when that fetch found nothing, and
    otherwise the ["value"] of the entry found, decoded when that string is
    JSON text and kept as the string when it is not. Every key that the
    conversion inserts is preceded by a fetch of the [Indy::KeyMetadata]
    entry of the same name, and has no metadata when that fetch found
    nothing, and otherwise the ["value"] of the entry found, as it is. *)
Theorem conversion_takes_metadata_from_fetches {L : Library}
    {World Wallet AskarKey : Type}
    (store : StoreOps (World := World) (AskarKey := AskarKey))
    (fuel : nat) (uri wallet_key : string) (profile : option string)
    (s : state (World := World)) :
  metadata_from_fetches []
    (events (convert_items_to_askar (Wallet := Wallet) store fuel uri wallet_key
               profile s)).
Proof.
  revert s. change (keeps_metadata [] (convert_items_to_askar (Wallet := Wallet) store
                                        fuel uri wallet_key profile)).
  unfold convert_items_to_askar, convert_keys, convert_master_secrets,
    convert_master_secrets_batch, convert_dids, convert_schemas, convert_cred_defs,
    convert_rev_reg_defs, convert_rev_reg_keys, convert_rev_reg_states,
    convert_rev_reg_info, convert_credentials, convert_credentials_batch,
    convert_credential, copy_category, print_updated, transaction,
    txn_fetch_all, txn_fetch, txn_remove, txn_insert, txn_insert_key, txn_commit.
  cbv zeta.
  repeat keeps_metadata_step.
Qed.

(** * The steps before [finish_upgrade], and what the re-key loop writes *)

(** ** Steps that end normally *)

Section completed_facts.
Context `{L : Library} {World Wallet AskarKey : Type}.
Variable conn : ConnOps (World := World) (Wallet := Wallet).
Variable wallets : WalletOps (World := World) (Wallet := Wallet).
Variable store : StoreOps (World := World) (AskarKey := AskarKey).
Local Abbreviation event := (event (Wallet := Wallet) (AskarKey := AskarKey)).
Local Abbreviation M := (M (World := World) (Wallet := Wallet) (AskarKey := AskarKey)).
Local Abbreviation run := (run (World := World) (Wallet := Wallet) (AskarKey := AskarKey)).
Implicit Types (s : state (World := World)) (t : list event).

(** A sequence ends normally only if both parts do, one after the other. *)
Lemma bind_done {A B} (m : M A) (f : A → M B) s b :
  result ((m ≫= f) s) = Some (Ok b) →
  ∃ a, result (m s) = Some (Ok a)
       ∧ result (f a (final (m s))) = Some (Ok b)
       ∧ events ((m ≫= f) s) = events (m s) ++ events (f a (final (m s))).
Proof.
  rewrite bind_run. destruct (result (m s)) as [[a|e]|]; simpl; try done.
  intros H. by exists a.
Qed.

Lemma call_done {R} (ev : exc R → event) op s (a : R) :
  result ((call ev op : M R) s) = Some (Ok a) →
  events ((call ev op : M R) s) = [ev (Ok a)].
Proof. rewrite call_run. simpl. by intros [= ->]. Qed.

Lemma fetch_indy_key_done wallet wallet_key s keys :
  result ((fetch_indy_key wallets wallet wallet_key : M _) s) = Some (Ok keys) →
  ∃ metadata_json,
    events ((fetch_indy_key wallets wallet wallet_key : M _) s)
    = [EvGetMetadata wallet (Ok metadata_json)]
    ∧ unlocks wallet_key metadata_json keys.
Proof.
  intros H.
  destruct (fetch_indy_key_inv (AskarKey := AskarKey) wallets wallet wallet_key s keys H)
    as (mj & m & ke & salt & pw & mk & mpk & lst & Hrun & H1 & H2 & H3 & H4 & H5 & H6
        & H7 & H8 & H9 & H10 & _).
  exists mj. split; [by rewrite Hrun|]. by exists m, ke, salt, pw, mk, mpk, lst.
Qed.

Lemma create_config_done name indy_key s :
  result ((create_config conn name indy_key : M unit) s) = Some (Ok tt) →
  ∃ salt,
    indy_key !! "salt" = Some salt
    ∧ events ((create_config conn name indy_key : M unit) s)
      = [EvCreateConfig name ("kdf:argon2i:13:mod?salt=" +:+ hex salt) (Ok tt)].
Proof.
  unfold create_config, keys_getitem. rewrite bind_lift.
  destruct (indy_key !! "salt") as [salt|]; [|done].
  intros H. exists salt. split; [done|]. by apply call_done.
Qed.

Lemma mwst_init_profile_done wallet name base_indy_key indy_key s pk :
  result ((mwst_init_profile wallets wallet name base_indy_key indy_key : M _) s)
  = Some (Ok pk) →
  ∃ enc_pk,
    events ((mwst_init_profile wallets wallet name base_indy_key indy_key : M _) s)
    = [EvInsertProfile wallet name enc_pk (Ok tt)]
    ∧ copies_keys indy_key pk.
Proof.
  unfold mwst_init_profile, keys_getitem, copies_keys.
  destruct (indy_key !! "type") as [k1|]; [|done].
  destruct (indy_key !! "name") as [k2|]; [|done].
  destruct (indy_key !! "item_hmac") as [k3|]; [|done].
  destruct (indy_key !! "tag_name") as [k4|]; [|done].
  destruct (indy_key !! "tag_value") as [k5|]; [|done].
  destruct (indy_key !! "tag_hmac") as [k6|]; [|done].
  cbn [mbind exc_bind]. rewrite bind_lift.
  destruct (base_indy_key !! "master") as [master|]; [|done].
  rewrite bind_lift, bind_rand.
  destruct (encrypt_merged _ master None (rng s)) as [[enc_pk|e] g]; [|done].
  rewrite bind_call.
  destruct (wallet_insert_profile _ _ _ _ _) as [[[]|e] w]; [|done].
  simpl. intros [= <-]. exists enc_pk. by repeat split.
Qed.

Lemma init_profile_done wallet name indy_key s pk :
  result ((init_profile wallets wallet name indy_key : M _) s) = Some (Ok pk) →
  ∃ enc_pk,
    events ((init_profile wallets wallet name indy_key : M _) s)
    = [EvInsertProfile wallet name enc_pk (Ok tt)]
    ∧ copies_keys indy_key pk.
Proof. apply (mwst_init_profile_done wallet name indy_key indy_key). Qed.

Lemma dbpw_rekey_done fuel self wallet s :
  result ((dbpw_rekey conn wallets fuel self wallet : M unit) s) = Some (Ok tt) →
  ∃ metadata_json indy_key salt pk enc_pk items,
    events ((dbpw_rekey conn wallets fuel self wallet : M unit) s)
    = [EvPreUpgrade (Ok tt); EvGetMetadata wallet (Ok metadata_json);
       EvCreateConfig (dbpw_wallet_name self)
         ("kdf:argon2i:13:mod?salt=" +:+ hex salt) (Ok tt);
       EvInsertProfile wallet (dbpw_wallet_name self) enc_pk (Ok tt)] ++ items
    ∧ unlocks (dbpw_wallet_key self) metadata_json indy_key
    ∧ indy_key !! "salt" = Some salt
    ∧ copies_keys indy_key pk
    ∧ rekey_rounds wallet indy_key pk (wallet_is_pg wallets wallet) items.
Proof.
  unfold dbpw_rekey. intros H.
  apply bind_done in H as ([] & H1 & H & ->). apply call_done in H1 as ->.
  apply bind_done in H as (indy_key & H2 & H & ->).
  apply fetch_indy_key_done in H2 as (mj & -> & Hunlock).
  apply bind_done in H as ([] & H3 & H & ->).
  apply create_config_done in H3 as (salt & Hsalt & ->).
  apply bind_done in H as (pk & H4 & H & ->).
  apply init_profile_done in H4 as (enc_pk & -> & Hpk).
  eexists mj, indy_key, salt, pk, enc_pk, _. split; [reflexivity|].
  split; [done|]. split; [done|]. split; [done|]. by apply update_items_rounds.
Qed.

Lemma mwst_rekey_wallet_done fuel base_indy_key wallet_name wallet_key s :
  result ((mwst_rekey_wallet conn wallets fuel base_indy_key wallet_name wallet_key
           : M unit) s) = Some (Ok tt) →
  mwst_wallet_completed wallets (wallet_name, wallet_key)
    (events ((mwst_rekey_wallet conn wallets fuel base_indy_key wallet_name
                wallet_key : M unit) s)).
Proof.
  unfold mwst_rekey_wallet. intros H.
  apply bind_done in H as (wallet & H1 & H & ->). apply call_done in H1 as ->.
  apply bind_done in H as (indy_key & H2 & H & ->).
  apply fetch_indy_key_done in H2 as (mj & -> & Hunlock).
  apply bind_done in H as (pk & H4 & H & ->).
  apply mwst_init_profile_done in H4 as (enc_pk & -> & Hpk).
  eexists wallet, mj, indy_key, pk, enc_pk, _. split; [reflexivity|].
  split; [done|]. split; [done|]. by apply update_items_rounds.
Qed.

Lemma for_each_done {X} (l : list X) (body : X → unit → M unit)
    (P : X → list event → Prop) s :
  (∀ x s, result (body x tt s) = Some (Ok tt) → P x (events (body x tt s))) →
  result (for_each l body tt s) = Some (Ok tt) →
  ∃ turns, events (for_each l body tt s) = concat turns ∧ Forall2 P l turns.
Proof.
  intros Hbody. revert s. induction l as [|x l IH]; intros s.
  - intros _. by exists [].
  - cbn [for_each]. intros H. apply bind_done in H as ([] & H1 & H & ->).
    destruct (IH _ H) as (turns & -> & Hall).
    exists (events (body x tt s) :: turns). split; [done|].
    constructor; [by apply Hbody|done].
Qed.

Lemma mwst_rekey_done fuel self s :
  result ((mwst_rekey conn wallets fuel self : M unit) s) = Some (Ok tt) →
  ∃ base_wallet metadata_json base_indy_key salt turns,
    events ((mwst_rekey conn wallets fuel self : M unit) s)
    = [EvPreUpgrade (Ok tt);
       EvGetWallet (Some (base_wallet_name self)) (Ok base_wallet);
       EvGetMetadata base_wallet (Ok metadata_json);
       EvCreateConfig (base_wallet_name self)
         ("kdf:argon2i:13:mod?salt=" +:+ hex salt) (Ok tt)] ++ concat turns
    ∧ unlocks (base_wallet_key self) metadata_json base_indy_key
    ∧ base_indy_key !! "salt" = Some salt
    ∧ Forall2 (mwst_wallet_completed wallets) (wallet_keys self) turns.
Proof.
  unfold mwst_rekey. intros H.
  apply bind_done in H as ([] & H1 & H & ->). apply call_done in H1 as ->.
  apply bind_done in H as (base_wallet & H2 & H & ->). apply call_done in H2 as ->.
  apply bind_done in H as (base_indy_key & H3 & H & ->).
  apply fetch_indy_key_done in H3 as (mj & -> & Hunlock).
  apply bind_done in H as ([] & H4 & H & ->).
  apply create_config_done in H4 as (salt & Hsalt & ->).
  apply (for_each_done _ _ (mwst_wallet_completed wallets)) in H
    as (turns & -> & Hall).
  - by exists base_wallet, mj, base_indy_key, salt, turns.
  - intros [wallet_name wallet_key] s'. apply mwst_rekey_wallet_done.
Qed.

(** Where the one call of [finish_upgrade] of a trace is. *)
Lemma finish_is_unique (t1 t2 pre post : list event) x y x' :
  Forall is_upgrade_call t1 → Forall is_conversion_call t2 →
  t1 ++ EvFinishUpgrade x :: EvClose y :: t2 = pre ++ EvFinishUpgrade x' :: post →
  pre = t1.
Proof.
  intros H1 H2. revert pre. induction H1 as [|e t1 He _ IH]; intros pre E.
  - destruct pre as [|e' pre]; [done|]. simpl in E. injection E as <- E.
    destruct pre as [|e' pre]; [done|]. simpl in E. injection E as <- E.
    rewrite E in H2. apply Forall_app in H2 as [_ H2]. apply Forall_inv in H2.
    by destruct H2.
  - destruct pre as [|e' pre]; simpl in E.
    + injection E as -> _. by destruct He as [[] _].
    + injection E as <- E. f_equal. by apply IH.
Qed.

Lemma no_finish_among (t pre post : list event) x :
  Forall (λ e, ¬ is_finish e) t → t ≠ pre ++ EvFinishUpgrade x :: post.
Proof.
  intros Ht ->. apply Forall_app in Ht as [_ Ht]. apply Forall_inv in Ht.
  by destruct Ht.
Qed.

Lemma upgrade_calls_no_finish (t : list event) :
  Forall is_upgrade_call t → Forall (λ e, ¬ is_finish e) t.
Proof. intros Ht. eapply Forall_impl; [exact Ht|]. by intros e [? _]. Qed.

Lemma dbpw_run_finish fuel self s pre x post :
  events ((dbpw_run conn wallets store fuel self : M unit) s)
  = pre ++ EvFinishUpgrade x :: post →
  dbpw_steps_completed wallets self pre.
Proof.
  intros E.
  destruct (result ((dbpw_open conn : M Wallet) s)) as [[wallet|e]|] eqn:Hopen.
  - pose proof (dbpw_run_shape conn wallets store fuel self s wallet
                  (final ((dbpw_open conn : M Wallet) s))
                  (events ((dbpw_open conn : M Wallet) s))) as Hshape.
    rewrite <- Hopen, <- run_eta in Hshape. specialize (Hshape eq_refl).
    cbv zeta in Hshape. destruct Hshape as [Hup Hshape].
    assert (Ht0 : events ((dbpw_open conn : M Wallet) s)
                  = [EvConnect (Ok tt); EvGetWallet None (Ok wallet)]).
    { revert Hopen. unfold dbpw_open. intros H.
      apply bind_done in H as ([] & H1 & H & ->). apply call_done in H1 as ->.
      cbv beta in *. apply call_done in H. simpl. f_equal. exact H. }
    destruct (result (dbpw_rekey conn wallets fuel self wallet _)) as [[[]|e]|] eqn:Hrk.
    + destruct Hshape as (x' & y & t & Hev & Ht & _).
      rewrite Hev, app_assoc in E. simpl in E.
      apply finish_is_unique in E; [|done..].
      subst pre. rewrite Ht0.
      destruct (dbpw_rekey_done _ _ _ _ Hrk)
        as (mj & indy_key & salt & pk & enc_pk & items & -> & H1 & H2 & H3 & H4).
      by exists wallet, mj, indy_key, salt, pk, enc_pk, items.
    + destruct Hshape as (y & Hev & _). rewrite Hev, app_assoc in E.
      exfalso. revert E. apply no_finish_among.
      apply Forall_app. split; [by apply upgrade_calls_no_finish|].
      constructor; [|constructor]. simpl. tauto.
    + destruct Hshape as [Hev _]. rewrite Hev in E.
      exfalso. revert E. by apply no_finish_among, upgrade_calls_no_finish.
  - destruct (dbpw_run_not_opened conn wallets store fuel self s) as [Hev Hup].
    { intros wallet. by rewrite Hopen. }
    rewrite Hev in E. exfalso. revert E.
    by apply no_finish_among, upgrade_calls_no_finish.
  - destruct (dbpw_run_not_opened conn wallets store fuel self s) as [Hev Hup].
    { intros wallet. by rewrite Hopen. }
    rewrite Hev in E. exfalso. revert E.
    by apply no_finish_among, upgrade_calls_no_finish.
Qed.

Lemma mwst_run_finish fuel self s pre x post :
  events ((mwst_run conn wallets store fuel self : M unit) s)
  = pre ++ EvFinishUpgrade x :: post →
  mwst_steps_completed wallets self pre.
Proof.
  intros E. pose proof (mwst_run_shape conn wallets store fuel self s) as Hshape.
  cbv zeta in Hshape. rewrite call_run in Hshape. simpl in Hshape.
  destruct (conn_connect conn (world s)) as [[[]|e0] w0] eqn:Hconn; simpl in Hshape.
  - destruct Hshape as [Hup Hshape].
    destruct (result (mwst_rekey conn wallets fuel self _)) as [[[]|e]|] eqn:Hrk.
    + destruct Hshape as (x' & y & t & Hev & Ht & _).
      rewrite Hev in E. simpl in E.
      apply (finish_is_unique (_ :: _)) in E; [|done..].
      subst pre.
      destruct (mwst_rekey_done _ _ _ Hrk)
        as (bw & mj & bk & salt & turns & -> & H1 & H2 & H3).
      by exists bw, mj, bk, salt, turns.
    + destruct Hshape as (y & Hev & _). rewrite Hev in E. simpl in E.
      exfalso. revert E.
      apply (no_finish_among (_ :: _ ++ [_])).
      rewrite app_comm_cons. apply Forall_app.
      split; [by apply upgrade_calls_no_finish|].
      constructor; [|constructor]. simpl. tauto.
    + destruct Hshape as [Hev _]. rewrite Hev in E. simpl in E.
      exfalso. revert E.
      by apply (no_finish_among (_ :: _)), upgrade_calls_no_finish.
  - destruct Hshape as [e Hev]. rewrite Hev in E.
    destruct pre as [|? [|? ?]]; discriminate.
Qed.

End completed_facts.

(** ** [finish_upgrade] comes only after the completed steps (C5) *)

(** C5: in both strategies, wherever [finish_upgrade] is called, the calls
    made before it are exactly those of the completed steps, each of which
    succeeded: for [DbpwStrategy.run] the connection, the wallet, the
    pre-upgrade mark, the key unlock from the metadata of the wallet, the
    configuration with the salt of the unlocked keys, the insertion of the
    profile key built from these keys, and the rounds of the re-key loop up
    to the fetch that returns no row; for [MwstAsProfilesStrategy.run] the
    connection, the pre-upgrade mark, the unlock of the base wallet, the
    configuration, and for every wallet in turn its unlock, the insertion of
    its profile key and its re-key loop up to the empty fetch. Moreover the
    calls of the re-key steps never mark the upgrade finished, close the
    connection or touch the Askar store; when these steps end normally,
    [finish_upgrade] is called next, then [close], and only then the
    conversion makes its calls (and only if both succeeded); when one of
    them raises, [finish_upgrade] is not called, [close] is, and the run
    raises without any call of the conversion. *)
Theorem finish_upgrade_only_after_rekey {L : Library} {World Wallet AskarKey : Type}
    (conn : ConnOps (World := World) (Wallet := Wallet))
    (wallets : WalletOps (World := World) (Wallet := Wallet))
    (store : StoreOps (World := World) (AskarKey := AskarKey)) (fuel : nat) :
  (∀ self s pre x post,
     events (dbpw_run conn wallets store fuel self s)
     = pre ++ EvFinishUpgrade x :: post →
     dbpw_steps_completed wallets self pre)
  ∧ (∀ self s pre x post,
       events (mwst_run conn wallets store fuel self s)
       = pre ++ EvFinishUpgrade x :: post →
       mwst_steps_completed wallets self pre)
  ∧ (∀ self s wallet s1 t0,
     dbpw_open (AskarKey := AskarKey) conn s = Run (Some (Ok wallet)) s1 t0 →
     let rekey := dbpw_rekey (AskarKey := AskarKey) conn wallets fuel self wallet s1 in
     let r := dbpw_run conn wallets store fuel self s in
     Forall is_upgrade_call (t0 ++ events rekey)
     ∧ match result rekey with
       | Some (Ok _) =>
           ∃ x y t,
             events r = t0 ++ events rekey ++ [EvFinishUpgrade x; EvClose y] ++ t
             ∧ Forall is_conversion_call t
             ∧ (t ≠ [] → x = Ok tt ∧ y = Ok tt)
       | Some (Raise e) =>
           ∃ y,
             events r = t0 ++ events rekey ++ [EvClose y]
             ∧ result r = Some (Raise (match y with Ok _ => e | Raise e' => e' end))
       | None => events r = t0 ++ events rekey ∧ result r = None
       end)
  ∧ (∀ self s,
       (∀ wallet, result (dbpw_open (AskarKey := AskarKey) conn s) ≠ Some (Ok wallet)) →
       events (dbpw_run conn wallets store fuel self s)
       = events (dbpw_open (AskarKey := AskarKey) conn s)
       ∧ Forall is_upgrade_call (events (dbpw_open (AskarKey := AskarKey) conn s)))
  ∧ (∀ self s,
       let opened := call (AskarKey := AskarKey) EvConnect (conn_connect conn) s in
       let rekey := mwst_rekey (AskarKey := AskarKey) conn wallets fuel self
                      (final opened) in
       let r := mwst_run conn wallets store fuel self s in
       match result opened with
       | Some (Ok _) =>
           Forall is_upgrade_call (events opened ++ events rekey)
           ∧ match result rekey with
             | Some (Ok _) =>
                 ∃ x y t,
                   events r
                   = events opened ++ events rekey
                     ++ [EvFinishUpgrade x; EvClose y] ++ t
                   ∧ Forall is_conversion_call t
                   ∧ (t ≠ [] → x = Ok tt ∧ y = Ok tt)
             | Some (Raise e) =>
                 ∃ y,
                   events r = events opened ++ events rekey ++ [EvClose y]
                   ∧ result r
                     = Some (Raise (match y with Ok _ => e | Raise e' => e' end))
             | None => events r = events opened ++ events rekey ∧ result r = None
             end
       | _ => ∃ e, events r = [EvConnect (Raise e)]
       end).
Proof.
  split; [|split; [|split; [|split]]].
  - intros self s pre x post. apply dbpw_run_finish.
  - intros self s pre x post. apply mwst_run_finish.
  - intros self s wallet s1 t0. apply dbpw_run_shape.
  - intros self s. apply dbpw_run_not_opened.
  - intros self s. apply mwst_run_shape.
Qed.

Lemma finish_upgrade_only_after_rekey_witness :
  (∃ pre x post,
     events (dbpw_run (L := metadata_library) mem_conn mem_wallets (mem_store (λ _, []))
               1 example_dbpw (State example_single_db (counting_tape 0)))
     = pre ++ EvFinishUpgrade x :: post
     ∧ dbpw_steps_completed (L := metadata_library) mem_wallets example_dbpw pre)
  ∧ ∃ x y t,
      events (dbpw_run (L := metadata_library) mem_conn mem_wallets (mem_store (λ _, []))
                1 example_dbpw (State example_single_db (counting_tape 0)))
      = [EvConnect (Ok tt); EvGetWallet None (Ok "")]
        ++ events (dbpw_rekey (L := metadata_library) (AskarKey := bytes)
                     mem_conn mem_wallets 1 example_dbpw ""
                     (final (dbpw_open (AskarKey := bytes) mem_conn
                               (State example_single_db (counting_tape 0)))))
        ++ [EvFinishUpgrade x; EvClose y] ++ t
      ∧ Forall is_conversion_call t
      ∧ (t ≠ [] → x = Ok tt ∧ y = Ok tt).
Proof.
  pose proof (finish_upgrade_only_after_rekey (L := metadata_library)
                mem_conn mem_wallets (mem_store (λ _, []))) as Hthm.
  split.
  - assert (E : ∃ pre x post,
               events (dbpw_run (L := metadata_library) mem_conn mem_wallets
                         (mem_store (λ _, [])) 1 example_dbpw
                         (State example_single_db (counting_tape 0)))
               = pre ++ EvFinishUpgrade x :: post).
    { eexists [_; _; _; _; _; _; _], _, _. vm_compute. reflexivity. }
    destruct E as (pre & x & post & E). exists pre, x, post. split; [exact E|].
    exact (proj1 (Hthm 1) _ _ _ _ _ E).
  - pose proof (proj1 (proj2 (proj2 (Hthm 1)))
                  example_dbpw (State example_single_db (counting_tape 0)) ""
                  (final (dbpw_open (AskarKey := bytes) mem_conn
                            (State example_single_db (counting_tape 0))))
                  [EvConnect (Ok tt); EvGetWallet None (Ok "")] eq_refl) as [_ H].
    assert (Hrk : result (dbpw_rekey (L := metadata_library) (AskarKey := bytes)
                            mem_conn mem_wallets 1 example_dbpw ""
                            (final (dbpw_open (AskarKey := bytes) mem_conn
                                      (State example_single_db (counting_tape 0)))))
                  = Some (Ok tt)).
    { vm_compute. reflexivity. }
    rewrite Hrk in H. exact H.
Defined.
